(** * Misfit Studio: marker patching, build planning and preset handling

    A shallow embedding of the parts of the repository the specification
    speaks about:

    - [scripts/apply-macos.sh] ([update_file_block]) and [scripts/apply.ps1]
      ([Update-FileBlock]): the marker block patchers;
    - [installer-ui/src/App.tsx] (the Dashboard component): path helpers,
      manifest import and export, preset normalisation, validation and the
      build flow;
    - [installer-ui/src/components/Installer.tsx]: the install flow.

    Texts are [string]s (sequences of 8-bit characters); a JavaScript string
    is modelled by the string of its characters, which is exact for ASCII
    text.  White space is ASCII white space. *)

From Stdlib Require Import String Ascii List Bool Arith Lia.
From stdpp Require Import gmap strings list pretty.

#[local] Set Warnings "-register-all".

(* ===================================================================== *)
(** * Part I: definitions                                                 *)
(* ===================================================================== *)

(** ** Text primitives shared by the scripts and the UI code *)

Module Text.

Definition LF : ascii := "010"%char.
Definition CR : ascii := "013"%char.

(** [s.slice(n)]: drop the first [n] characters. *)
Fixpoint drop (n : nat) (s : string) : string :=
  match n, s with
  | 0, _ => s
  | S _, EmptyString => EmptyString
  | S k, String _ t => drop k t
  end.

(** Leftmost occurrence of [pat] in [s]: the text before it and the text
    after it. *)
Fixpoint split_at_first (pat s : string) : option (string * string) :=
  if String.prefix pat s then Some (EmptyString, drop (String.length pat) s)
  else match s with
       | EmptyString => None
       | String c t =>
           match split_at_first pat t with
           | Some (before, after) => Some (String c before, after)
           | None => None
           end
       end.

Definition contains (pat s : string) : bool :=
  match split_at_first pat s with Some _ => true | None => false end.

Fixpoint mem_char (c : ascii) (s : string) : bool :=
  match s with
  | EmptyString => false
  | String d t => if Ascii.eqb c d then true else mem_char c t
  end.

(** ASCII case folding, as used by a case-insensitive comparison. *)
Definition lower_ascii (c : ascii) : ascii :=
  let n := nat_of_ascii c in
  if (65 <=? n) && (n <=? 90) then ascii_of_nat (n + 32) else c.

Fixpoint lower (s : string) : string :=
  match s with
  | EmptyString => EmptyString
  | String c t => String (lower_ascii c) (lower t)
  end.

(** A text of ASCII characters only: the same sequence of bytes in UTF-8
    and in every ANSI code page, so that a file holding it is read back
    as it was written whatever encoding the reader assumes. *)
Fixpoint ascii_text (s : string) : bool :=
  match s with
  | EmptyString => true
  | String c t => (nat_of_ascii c <? 128) && ascii_text t
  end.

(** The lines of a text: maximal runs without [LF]; a final line needs
    no terminating [LF], and a text that ends in [LF] has no extra empty
    line after it. *)
Fixpoint lines (s : string) : list string :=
  match s with
  | EmptyString => []
  | String c t =>
      if Ascii.eqb c LF then EmptyString :: lines t
      else match lines t with
           | [] => [String c EmptyString]
           | l :: ls => String c l :: ls
           end
  end.

(** All [LF]-separated fields of a text (the last one may be empty). *)
Fixpoint fields (s : string) : list string :=
  match s with
  | EmptyString => [EmptyString]
  | String c t =>
      if Ascii.eqb c LF then EmptyString :: fields t
      else match fields t with
           | [] => [String c EmptyString]
           | l :: ls => String c l :: ls
           end
  end.

End Text.

(** ** The marker block patchers of the two install scripts *)

Module Patch.
Import Text.

(** The regular expression [START.*?END] (dot matches newline, markers
    quoted): the leftmost, shortest match, as (text before, matched
    text, text after).  Both scripts build this pattern: [apply.ps1]
    with [(?s)] and [[regex]::Escape], [apply-macos.sh] with [\Q..\E]
    and the [/s] flag. *)
Definition regex_first (startMarker endMarker s : string)
  : option (string * string * string) :=
  match split_at_first startMarker s with
  | None => None
  | Some (pre, rest) =>
      match split_at_first endMarker rest with
      | None => None
      | Some (mid, post) =>
          Some (pre, startMarker +:+ mid +:+ endMarker, post)
      end
  end.

(** *** apply-macos.sh *)

(** [grep -qF "$start_marker" "$path"]: some line of the file contains
    one of the newline-separated fixed strings of the pattern.  The script
    passes the marker without [--] or [-e], so a marker that begins with
    a dash is read by grep as an option; [dashed] names those markers and
    the theorems about the script leave them out. *)
Definition dashed (pattern : string) : bool := String.prefix "-" pattern.

Definition grep_qF (pattern file : string) : bool :=
  existsb (fun line => existsb (fun p => contains p line) (fields pattern))
          (lines file).

(** [perl -0777 -pe 's/\Q$START\E.*?\Q$END\E/$block/s']: the whole file
    is one record; the substitution has no [/g] flag, so only the first
    match is replaced; without a match the text is printed unchanged. *)
Definition perl_subst_once (startMarker endMarker block s : string) : string :=
  match regex_first startMarker endMarker s with
  | Some (pre, _, post) => pre +:+ block +:+ post
  | None => s
  end.

(** The body of [update_file_block] once the file is known to exist:
    the new content written back by [write_file]. *)
Definition update_file_block_text
    (start_marker end_marker block content : string) : string :=
  if grep_qF start_marker content
  then perl_subst_once start_marker end_marker block content
  else content +:+ String LF EmptyString +:+ block +:+ String LF EmptyString.

(** [update_file_block path start end block_file]; [None] is the
    "Missing file" exit ([return 1]), [Some] the content of the file
    afterwards. *)
Definition update_file_block
    (start_marker end_marker block : string) (file : option string)
  : option string :=
  match file with
  | None => None
  | Some content =>
      Some (update_file_block_text start_marker end_marker block content)
  end.

(** *** apply.ps1 *)

Definition CRLF : string := String CR (String LF EmptyString).

(** [[regex]::Replace($content, $pattern, evaluator)]: the static
    [Regex.Replace] replaces every match, scanning on from the end of
    the previous one; after an empty match the scan moves on by one
    character.  [fuel] bounds the number of matches. *)
Fixpoint regex_replace_fuel (fuel : nat)
    (startMarker endMarker block s : string) : string :=
  match fuel with
  | 0 => s
  | S fuel' =>
      match regex_first startMarker endMarker s with
      | None => s
      | Some (pre, matched, post) =>
          pre +:+ block +:+
            match matched with
            | EmptyString =>
                match post with
                | EmptyString => EmptyString
                | String c t =>
                    String c (regex_replace_fuel fuel' startMarker endMarker block t)
                end
            | String _ _ =>
                regex_replace_fuel fuel' startMarker endMarker block post
            end
      end
  end.

Definition regex_replace_all (startMarker endMarker block s : string) : string :=
  regex_replace_fuel (S (String.length s)) startMarker endMarker block s.

(** [$content -match $pattern]: PowerShell's [-match] ignores case. *)
Definition ps_match (StartMarker EndMarker content : string) : bool :=
  match regex_first (lower StartMarker) (lower EndMarker) (lower content) with
  | Some _ => true
  | None => false
  end.

(** The body of [Update-FileBlock] once [Test-Path] has succeeded. *)
Definition Update_FileBlock_text
    (StartMarker EndMarker BlockContent content : string) : string :=
  if ps_match StartMarker EndMarker content
  then regex_replace_all StartMarker EndMarker BlockContent content
  else content +:+ CRLF +:+ BlockContent +:+ CRLF.

(** [Update-FileBlock]; [None] is the "Missing file" warning and
    [return], [Some] the text written by [WriteAllText].  The argument is
    the text [Get-Content -Raw] decodes, the result the text
    [WriteAllText] encodes as UTF-8 without a byte order mark.  The
    script names no encoding for reading, and Windows PowerShell decodes
    a file without byte order mark in the ANSI code page: only for an
    [ascii_text] is the text a later run reads the text this run wrote,
    and the theorems about a later run are stated for such texts. *)
Definition Update_FileBlock
    (StartMarker EndMarker BlockContent : string) (file : option string)
  : option string :=
  match file with
  | None => None
  | Some content =>
      Some (Update_FileBlock_text StartMarker EndMarker BlockContent content)
  end.

End Patch.


(** ** JavaScript values and built-ins used by the UI code *)

Module Js.
Import Text.

(** *** Strings *)

(** ASCII white space and line terminators, as removed by [trim] and
    skipped by [Number]. *)
Definition is_ws (c : ascii) : bool :=
  match c with
  | "009" | "010" | "011" | "012" | "013" | " " => true
  | _ => false
  end%char.

Fixpoint trimStart (s : string) : string :=
  match s with
  | EmptyString => EmptyString
  | String c t => if is_ws c then trimStart t else s
  end.

Fixpoint trimEnd (s : string) : string :=
  match s with
  | EmptyString => EmptyString
  | String c t =>
      match trimEnd t with
      | EmptyString => if is_ws c then EmptyString else String c EmptyString
      | t' => String c t'
      end
  end.

(** [s.trim()] *)
Definition trim (s : string) : string := trimEnd (trimStart s).

(** Truthiness of a string: [!s] is [is_empty s]. *)
Definition is_empty (s : string) : bool :=
  match s with EmptyString => true | String _ _ => false end.

(** [a || b] on strings. *)
Definition or_else (a b : string) : string := if is_empty a then b else a.

(** [s.endsWith(suffix)] *)
Fixpoint endsWith (s suffix : string) : bool :=
  if String.eqb s suffix then true
  else match s with
       | EmptyString => false
       | String _ t => endsWith t suffix
       end.

(** [s.startsWith(p)] *)
Definition startsWith (s p : string) : bool := String.prefix p s.

(** [s.toLowerCase()] on ASCII text. *)
Definition toLowerCase (s : string) : string := lower s.

(** [l.join(sep)] on an array of strings. *)
Fixpoint join (sep : string) (l : list string) : string :=
  match l with
  | [] => EmptyString
  | [x] => x
  | x :: rest => x +:+ sep +:+ join sep rest
  end.

(** [s.split(',')]: the comma-separated fields, at least one. *)
Fixpoint split_comma (s : string) : list string :=
  match s with
  | EmptyString => [EmptyString]
  | String c t =>
      if Ascii.eqb c ","%char then EmptyString :: split_comma t
      else match split_comma t with
           | [] => [String c EmptyString]
           | f :: fs => String c f :: fs
           end
  end.

(** *** Numbers *)

Definition is_digit (c : ascii) : bool :=
  let n := nat_of_ascii c in (48 <=? n) && (n <=? 57).

Definition is_hex_digit (c : ascii) : bool :=
  let n := nat_of_ascii c in
  ((48 <=? n) && (n <=? 57)) || ((65 <=? n) && (n <=? 70))
  || ((97 <=? n) && (n <=? 102)).

Definition is_octal_digit (c : ascii) : bool :=
  let n := nat_of_ascii c in (48 <=? n) && (n <=? 55).

Definition is_binary_digit (c : ascii) : bool :=
  let n := nat_of_ascii c in (48 <=? n) && (n <=? 49).

Fixpoint all_chars (p : ascii -> bool) (s : string) : bool :=
  match s with
  | EmptyString => true
  | String c t => p c && all_chars p t
  end.

(** The text after a leading run of characters satisfying [p]. *)
Fixpoint drop_while (p : ascii -> bool) (s : string) : string :=
  match s with
  | EmptyString => EmptyString
  | String c t => if p c then drop_while p t else s
  end.

(** The leading run of characters satisfying [p]. *)
Fixpoint take_while (p : ascii -> bool) (s : string) : string :=
  match s with
  | EmptyString => EmptyString
  | String c t => if p c then String c (take_while p t) else EmptyString
  end.

Definition starts_with_digit (s : string) : bool :=
  match s with String c _ => is_digit c | EmptyString => false end.

(** [s] without its first character when that is [c]. *)
Definition strip_char (c : ascii) (s : string) : option string :=
  match s with
  | EmptyString => None
  | String d t => if Ascii.eqb d c then Some t else None
  end.

Definition drop_sign (s : string) : string :=
  match strip_char "+" s with
  | Some t => t
  | None => match strip_char "-" s with Some t => t | None => s end
  end.

(** [ExponentPart] opt, up to the end of the text. *)
Definition exponent_opt (s : string) : bool :=
  match s with
  | EmptyString => true
  | String c t =>
      (Ascii.eqb c "e" || Ascii.eqb c "E")
      && (let d := drop_sign t in
          starts_with_digit d && is_empty (drop_while is_digit d))
  end.

(** [StrUnsignedDecimalLiteral] *)
Definition unsigned_decimal_literal (s : string) : bool :=
  if String.eqb s "Infinity" then true
  else
    let after_int := drop_while is_digit s in
    match strip_char "." after_int with
    | Some frac =>
        (starts_with_digit s || starts_with_digit frac)
        && exponent_opt (drop_while is_digit frac)
    | None => starts_with_digit s && exponent_opt after_int
    end.

(** [NonDecimalIntegerLiteral]: [0x], [0o], [0b] and at least one digit. *)
Definition non_decimal_literal (s : string) : bool :=
  match strip_char "0" s with
  | Some (String k (String d t)) =>
      if Ascii.eqb k "x" || Ascii.eqb k "X" then all_chars is_hex_digit (String d t)
      else if Ascii.eqb k "o" || Ascii.eqb k "O" then all_chars is_octal_digit (String d t)
      else if Ascii.eqb k "b" || Ascii.eqb k "B" then all_chars is_binary_digit (String d t)
      else false
  | _ => false
  end.

(** [StrNumericLiteral] of ECMAScript's [StringToNumber] grammar. *)
Definition str_numeric_literal (s : string) : bool :=
  non_decimal_literal s || unsigned_decimal_literal (drop_sign s).

(** A JavaScript number.  The double itself is not computed: a number
    other than [NaN] is kept as a numeric literal that denotes it (so two
    literals of one double are two representations of the same number;
    nothing below compares numbers). *)
Inductive number : Type :=
| NaN
| Num (literal : string).

(** [Number(s)] on a string: white space is trimmed, the empty string is
    0, anything outside the numeric grammar is [NaN]. *)
Definition Number (s : string) : number :=
  let t := trim s in
  if is_empty t then Num "0"
  else if str_numeric_literal t then Num t
  else NaN.

(** [Number.isNaN] *)
Definition Number_isNaN (n : number) : bool :=
  match n with NaN => true | Num _ => false end.

(** *** JSON values and objects *)

(** A value as [JSON.parse] builds it ([any] in the TypeScript source);
    [JNum] also carries the numbers [Number] yields.  An object is the
    list of its own properties in property order. *)
Inductive json : Type :=
| JNull
| JBool (b : bool)
| JNum (n : number)
| JStr (s : string)
| JArr (items : list json)
| JObj (props : list (string * json)).

(** [o[k]] on own properties; [None] is [undefined]. *)
Fixpoint get {A : Type} (k : string) (props : list (string * A)) : option A :=
  match props with
  | [] => None
  | (k', v) :: rest => if String.eqb k k' then Some v else get k rest
  end.

(** ["k" in o] on own properties. *)
Definition has {A : Type} (k : string) (props : list (string * A)) : bool :=
  match get k props with Some _ => true | None => false end.

(** An array index key: the canonical decimal numeral of an integer below
    2^32 - 1.  Such keys come first, in numeric order, in the property
    order of an object. *)
Fixpoint decimal_value (acc : N) (s : string) : N :=
  match s with
  | EmptyString => acc
  | String c t => decimal_value (acc * 10 + (N.of_nat (nat_of_ascii c) - 48))%N t
  end.

Definition array_index (k : string) : option N :=
  match k with
  | EmptyString => None
  | String c t =>
      if all_chars is_digit k && (is_empty t || negb (Ascii.eqb c "0"))
         && (String.length k <=? 10)
      then let n := decimal_value 0%N k in
           if (n <? 4294967295)%N then Some n else None
      else None
  end.

(** Add a new property [k] at its place in the property order. *)
Fixpoint insert_ordered {A : Type} (k : string) (v : A)
    (props : list (string * A)) : list (string * A) :=
  match props with
  | [] => [(k, v)]
  | (k', v') :: rest =>
      match array_index k, array_index k' with
      | Some n, Some n' =>
          if (n <? n')%N then (k, v) :: props
          else (k', v') :: insert_ordered k v rest
      | Some _, None => (k, v) :: props
      | None, _ => (k', v') :: insert_ordered k v rest
      end
  end.

Fixpoint replace_value {A : Type} (k : string) (v : A)
    (props : list (string * A)) : list (string * A) :=
  match props with
  | [] => []
  | (k', v') :: rest =>
      if String.eqb k k' then (k', v) :: rest
      else (k', v') :: replace_value k v rest
  end.

(** Define own property [k] (as [JSON.parse] does for each member): an
    existing property keeps its place and takes the new value. *)
Definition define_property {A : Type} (k : string) (v : A)
    (props : list (string * A)) : list (string * A) :=
  if has k props then replace_value k v props else insert_ordered k v props.

(** [acc[k] = v] on an object created by [{}], for a string [v]: the key
    [__proto__] reaches the setter of [Object.prototype], which ignores a
    string, so no property appears; any other key is defined. *)
Definition assign_string (k v : string) (props : list (string * string))
  : list (string * string) :=
  if String.eqb k "__proto__" then props else define_property k v props.

(** *** [JSON.parse] *)

Definition is_json_ws (c : ascii) : bool :=
  match c with
  | "009" | "010" | "013" | " " => true
  | _ => false
  end%char.

Definition skip_ws (s : string) : string := drop_while is_json_ws s.

Definition hex_value (c : ascii) : option N :=
  let n := N.of_nat (nat_of_ascii c) in
  if is_digit c then Some (n - 48)%N
  else if is_hex_digit c then
    Some (if (n <? 97)%N then n - 55 else n - 87)%N
  else None.

Definition hex4 (a b c d : ascii) : option N :=
  match hex_value a, hex_value b, hex_value c, hex_value d with
  | Some x, Some y, Some z, Some w => Some (((x * 16 + y) * 16 + z) * 16 + w)%N
  | _, _, _, _ => None
  end.

(** The UTF-8 text of a code point of the basic plane. *)
Definition utf8 (n : N) : string :=
  if (n <? 128)%N then String (ascii_of_N n) EmptyString
  else if (n <? 2048)%N then
    String (ascii_of_N (192 + n / 64))
      (String (ascii_of_N (128 + n mod 64)) EmptyString)
  else
    String (ascii_of_N (224 + n / 4096))
      (String (ascii_of_N (128 + (n / 64) mod 64))
         (String (ascii_of_N (128 + n mod 64)) EmptyString)).

Definition simple_escape (e : ascii) : option ascii :=
  match e with
  | "034" => Some "034"
  | "\" => Some "\"
  | "/" => Some "/"
  | "b" => Some "008"
  | "f" => Some "012"
  | "n" => Some "010"
  | "r" => Some "013"
  | "t" => Some "009"
  | _ => None
  end%char.

Definition prepend (p : string) (r : option (string * string))
  : option (string * string) :=
  match r with
  | Some (body, rest) => Some (p +:+ body, rest)
  | None => None
  end.

(** A string literal after its opening quote: the decoded text and the
    input after the closing quote. *)
Fixpoint parse_string_body (s : string) : option (string * string) :=
  match s with
  | EmptyString => None
  | String c t =>
      if Ascii.eqb c "034" then Some (EmptyString, t)
      else if Ascii.eqb c "\" then
        match t with
        | EmptyString => None
        | String e u =>
            if Ascii.eqb e "u" then
              match u with
              | String h1 (String h2 (String h3 (String h4 v))) =>
                  match hex4 h1 h2 h3 h4 with
                  | Some n => prepend (utf8 n) (parse_string_body v)
                  | None => None
                  end
              | _ => None
              end
            else
              match simple_escape e with
              | Some d => prepend (String d EmptyString) (parse_string_body u)
              | None => None
              end
        end
      else if nat_of_ascii c <? 32 then None
      else prepend (String c EmptyString) (parse_string_body t)
  end.

(** A JSON number token: the text after it, if one starts here. *)
Definition after_int (body : string) : option string :=
  match body with
  | EmptyString => None
  | String c r =>
      if Ascii.eqb c "0" then Some r
      else if is_digit c then Some (drop_while is_digit r)
      else None
  end.

Definition after_frac (s : string) : option string :=
  match strip_char "." s with
  | Some f => if starts_with_digit f then Some (drop_while is_digit f) else None
  | None => Some s
  end.

Definition after_exp (s : string) : option string :=
  match s with
  | EmptyString => Some s
  | String c x =>
      if Ascii.eqb c "e" || Ascii.eqb c "E" then
        let d := drop_sign x in
        if starts_with_digit d then Some (drop_while is_digit d) else None
      else Some s
  end.

Definition after_json_number (s : string) : option string :=
  let body := match strip_char "-" s with Some t => t | None => s end in
  match after_int body with
  | None => None
  | Some a =>
      match after_frac a with
      | None => None
      | Some b => after_exp b
      end
  end.

Definition parse_number (s : string) : option (json * string) :=
  match after_json_number s with
  | Some rest =>
      Some (JNum (Num (String.substring 0 (String.length s - String.length rest) s)),
            rest)
  | None => None
  end.

Definition parse_keyword (word : string) (v : json) (s : string)
  : option (json * string) :=
  if String.prefix word s then Some (v, drop (String.length word) s) else None.

(** Recursive descent over the JSON grammar; [parse_value] reads a value
    after optional white space, [parse_items] the elements of an array
    after the first, [parse_members] the members of an object.  [fuel]
    bounds the depth of the calls. *)
Fixpoint parse_value (fuel : nat) (s : string) : option (json * string) :=
  match fuel with
  | 0 => None
  | S fuel' =>
      match skip_ws s with
      | EmptyString => None
      | String c t =>
          if Ascii.eqb c "n" then parse_keyword "null" JNull (String c t)
          else if Ascii.eqb c "t" then parse_keyword "true" (JBool true) (String c t)
          else if Ascii.eqb c "f" then parse_keyword "false" (JBool false) (String c t)
          else if Ascii.eqb c "034" then
            match parse_string_body t with
            | Some (str, rest) => Some (JStr str, rest)
            | None => None
            end
          else if Ascii.eqb c "[" then
            match strip_char "]" (skip_ws t) with
            | Some rest => Some (JArr [], rest)
            | None => parse_items fuel' t []
            end
          else if Ascii.eqb c "{" then
            match strip_char "}" (skip_ws t) with
            | Some rest => Some (JObj [], rest)
            | None => parse_members fuel' t []
            end
          else parse_number (String c t)
      end
  end

with parse_items (fuel : nat) (s : string) (acc : list json)
  : option (json * string) :=
  match fuel with
  | 0 => None
  | S fuel' =>
      match parse_value fuel' s with
      | None => None
      | Some (v, rest) =>
          match strip_char "," (skip_ws rest) with
          | Some rest' => parse_items fuel' rest' (acc ++ [v])
          | None =>
              match strip_char "]" (skip_ws rest) with
              | Some rest' => Some (JArr (acc ++ [v]), rest')
              | None => None
              end
          end
      end
  end

with parse_members (fuel : nat) (s : string) (acc : list (string * json))
  : option (json * string) :=
  match fuel with
  | 0 => None
  | S fuel' =>
      match strip_char "034" (skip_ws s) with
      | None => None
      | Some t =>
          match parse_string_body t with
          | None => None
          | Some (key, rest) =>
              match strip_char ":" (skip_ws rest) with
              | None => None
              | Some rest1 =>
                  match parse_value fuel' rest1 with
                  | None => None
                  | Some (v, rest2) =>
                      match strip_char "," (skip_ws rest2) with
                      | Some rest3 =>
                          parse_members fuel' rest3 (define_property key v acc)
                      | None =>
                          match strip_char "}" (skip_ws rest2) with
                          | Some rest3 =>
                              Some (JObj (define_property key v acc), rest3)
                          | None => None
                          end
                      end
                  end
              end
          end
      end
  end.

(** [JSON.parse(text)]; [None] is the [SyntaxError]. *)
Definition JSON_parse (text : string) : option json :=
  match parse_value (2 * String.length text + 2) text with
  | Some (v, rest) => if is_empty (skip_ws rest) then Some v else None
  | None => None
  end.

(** *** Rendering values as text *)

Definition hex_digit (n : N) : ascii :=
  if (n <? 10)%N then ascii_of_N (48 + n) else ascii_of_N (87 + n).

Definition escape_char (c : ascii) : string :=
  let n := N.of_nat (nat_of_ascii c) in
  if Ascii.eqb c "034" then String "\" (String "034" EmptyString)
  else if Ascii.eqb c "\" then "\\"
  else if Ascii.eqb c "008" then "\b"
  else if Ascii.eqb c "012" then "\f"
  else if Ascii.eqb c "010" then "\n"
  else if Ascii.eqb c "013" then "\r"
  else if Ascii.eqb c "009" then "\t"
  else if (n <? 32)%N then
    "\u00" +:+ String (hex_digit (n / 16)) (String (hex_digit (n mod 16)) EmptyString)
  else String c EmptyString.

Fixpoint escape (s : string) : string :=
  match s with
  | EmptyString => EmptyString
  | String c t => escape_char c +:+ escape t
  end.

(** [QuoteJSONString] *)
Definition quote (s : string) : string :=
  String "034" (escape s +:+ String "034" EmptyString).

Section Rendering.

(** [Number::toString] needs the double a literal denotes; it is taken as
    given: [NumberToString lit] is the text JavaScript prints for the
    number written [lit] ("1" for "1.0", "Infinity" for "1e999"). *)
Variable NumberToString : string -> string.

Definition number_text (n : number) : string :=
  match n with
  | NaN => "NaN"
  | Num lit => NumberToString lit
  end.

Definition is_finite_text (s : string) : bool :=
  negb (String.eqb s "NaN" || String.eqb s "Infinity" || String.eqb s "-Infinity").

Definition lf : string := String LF EmptyString.

(** [JSON.stringify(v, null, 2)], at indentation [indent]. *)
Fixpoint stringify (indent : string) (v : json) : string :=
  match v with
  | JNull => "null"
  | JBool true => "true"
  | JBool false => "false"
  | JNum n => let t := number_text n in if is_finite_text t then t else "null"
  | JStr s => quote s
  | JArr [] => "[]"
  | JArr items =>
      "[" +:+ lf
      +:+ join ("," +:+ lf)
            (List.map (fun i => indent +:+ "  " +:+ stringify (indent +:+ "  ") i) items)
      +:+ lf +:+ indent +:+ "]"
  | JObj [] => "{}"
  | JObj props =>
      "{" +:+ lf
      +:+ join ("," +:+ lf)
            (List.map (fun kv => indent +:+ "  " +:+ quote (fst kv) +:+ ": "
                                 +:+ stringify (indent +:+ "  ") (snd kv)) props)
      +:+ lf +:+ indent +:+ "}"
  end.

Definition JSON_stringify2 (v : json) : string := stringify EmptyString v.

(** [String(v)]; [None] is the [TypeError] "Cannot convert object to
    primitive value", raised for an object whose own [toString] property
    (a JSON value, hence not callable) hides [Object.prototype.toString].
    An array is joined with commas, [null] elements printing as empty. *)
Fixpoint ToString (v : json) : option string :=
  match v with
  | JNull => Some "null"
  | JBool true => Some "true"
  | JBool false => Some "false"
  | JNum n => Some (number_text n)
  | JStr s => Some s
  | JArr items =>
      match
        (fix each (l : list json) : option (list string) :=
           match l with
           | [] => Some []
           | i :: rest =>
               match (match i with JNull => Some EmptyString | _ => ToString i end),
                     each rest with
               | Some x, Some xs => Some (x :: xs)
               | _, _ => None
               end
           end) items
      with
      | Some texts => Some (join "," texts)
      | None => None
      end
  | JObj props => if has "toString" props then None else Some "[object Object]"
  end.

(** [String(v ?? '')] for a property that may be missing. *)
Definition ToString_or_empty (v : option json) : option string :=
  match v with
  | None | Some JNull => Some EmptyString
  | Some x => ToString x
  end.

End Rendering.

(** *** Promises *)

(** What a backend command ([invoke]) settles with. *)
Inductive Settled (A : Type) : Type :=
| Resolved (a : A)
| Rejected (e : string).
Arguments Resolved {A} a.
Arguments Rejected {A} e.

End Js.

(** ** The Dashboard component of [installer-ui/src/App.tsx] *)

Module Studio.
Import Text Js.

(** *** Data model *)

Inductive ValueType : Type := vt_string | vt_number | vt_boolean | vt_json.

Record ReplacementPair : Type := { key : string; value : string }.

Record CopyStep : Type :=
  { payloadSource : string; payloadRel : string; dest : string }.

Record PatchBlockStep : Type :=
  { patch_file : string; startMarker : string; endMarker : string;
    contentSource : string; contentRel : string;
    replacements : list ReplacementPair }.

Record SetJsonValueStep : Type :=
  { json_file : string; keyPath : string; valueType : ValueType;
    valueRaw : string; valueBool : bool }.

Record Base64EmbedStep : Type :=
  { embed_file : string; placeholder : string;
    inputSource : string; inputRel : string }.

Record RunCommandStep : Type := { command : string; args : string }.

(** The variants of [UiStep], without the fields of [BaseStep]. *)
Inductive StepFields : Type :=
| Copy (s : CopyStep)
| PatchBlock (s : PatchBlockStep)
| SetJsonValue (s : SetJsonValueStep)
| Base64Embed (s : Base64EmbedStep)
| RunCommand (s : RunCommandStep).

Inductive StepType : Type :=
| copy | patchBlock | setJsonValue | base64Embed | runCommand.

Definition type_of (f : StepFields) : StepType :=
  match f with
  | Copy _ => copy
  | PatchBlock _ => patchBlock
  | SetJsonValue _ => setJsonValue
  | Base64Embed _ => base64Embed
  | RunCommand _ => runCommand
  end.

Record UiStep : Type := { id : string; enabled : bool; fields : StepFields }.

(** [PresetStep = DistributiveOmit<UiStep, 'id'>] *)
Record PresetStep : Type :=
  { preset_enabled : bool; preset_fields : StepFields }.

(** A step of a manifest, [InstallStep]: a type tag and, for the five
    known tags, the fields the Dashboard reads and writes; a field may be
    absent ([None], [undefined]).  The properties of [replacements] are in
    property order. *)
Inductive InstallStep : Type :=
| step_copy (src dest : option string)
| step_patchBlock (file startMarker endMarker contentFile : option string)
    (replacements : option (list (string * string)))
| step_setJsonValue (file keyPath : option string) (value : option json)
| step_base64Embed (file placeholder inputFile : option string)
| step_runCommand (command : option string) (args : option (list string))
| step_other (type : string).

Module InstallManifest.
Record t : Type :=
  { appName : string; version : string; publisher : string;
    description : string; advancedMode : bool; targets : list string;
    payloadDir : string; installSteps : list InstallStep }.
End InstallManifest.

Record BuildRequest : Type :=
  { req_projectName : string;
    req_manifest : InstallManifest.t;
    payloadFiles : list (string * string);   (* [source, relative_dest] *)
    forceOverwrite : option bool }.

Record BuildTargetInfo : Type :=
  { path : string; exists_ : bool; hasMarker : bool; isAbsolute : bool }.

Inductive IssueLevel : Type := error | warning.

Record StepIssue : Type := { level : IssueLevel; message : string }.

Module PresetData.
Record t : Type :=
  { appName : string; version : string; publisher : string;
    description : string; advancedMode : bool;
    payloadDir : option string; steps : list PresetStep }.
End PresetData.

(** The form state of the Dashboard ([useState] cells). *)
Record Dashboard : Type :=
  { projectName : string; appName : string; version : string;
    publisher : string; description : string; advancedMode : bool;
    payloadDir : string; steps : list UiStep }.

(** *** Path helpers *)

Definition is_sep (c : ascii) : bool := Ascii.eqb c "/" || Ascii.eqb c "\".

(** [s.replace(/[\\/]+$/, '')] *)
Fixpoint strip_trailing_seps (s : string) : string :=
  match s with
  | EmptyString => EmptyString
  | String c t =>
      match strip_trailing_seps t with
      | EmptyString => if is_sep c then EmptyString else String c EmptyString
      | t' => String c t'
      end
  end.

(** [s.replace(/^[\\/]+/, '')] *)
Definition strip_leading_seps (s : string) : string := drop_while is_sep s.

Fixpoint has_sep (s : string) : bool :=
  match s with
  | EmptyString => false
  | String c t => is_sep c || has_sep t
  end.

(** [s.split(/[\\/]/).pop()]: the text after the last separator. *)
Fixpoint last_segment (s : string) : string :=
  match s with
  | EmptyString => EmptyString
  | String c t =>
      if is_sep c then last_segment t
      else if has_sep t then last_segment t
      else String c t
  end.

Definition toBaseName (pathStr : string) : string :=
  let cleaned := strip_trailing_seps pathStr in
  let base := last_segment cleaned in
  or_else base "file".

(** [placeholderPattern.test(s)] for [/<[^>]+>/]: a ['<'], at least one
    character other than ['>'], then a ['>']. *)
Fixpoint placeholderPattern_test (s : string) : bool :=
  match s with
  | EmptyString => false
  | String c t =>
      (Ascii.eqb c "<"
       && match t with
          | String d u => negb (Ascii.eqb d ">") && mem_char ">" u
          | EmptyString => false
          end)
      || placeholderPattern_test t
  end.

Definition is_letter (c : ascii) : bool :=
  let n := nat_of_ascii c in
  ((65 <=? n) && (n <=? 90)) || ((97 <=? n) && (n <=? 122)).

(** [/^[a-zA-Z]:[\\/]/.test(s)] *)
Definition drive_prefix (s : string) : bool :=
  match s with
  | String a (String ":" (String c _)) => is_letter a && is_sep c
  | _ => false
  end.

Definition joinPathFragments (base rel : string) : string :=
  let baseClean := strip_trailing_seps base in
  let relClean := strip_leading_seps rel in
  if is_empty baseClean then relClean
  else if is_empty relClean then baseClean
  else
    let separator := if mem_char "\" baseClean then "\" else "/" in
    baseClean +:+ separator +:+ relClean.

Definition isAbsolutePath (value : string) : bool :=
  drive_prefix value || startsWith value "\\" || startsWith value "/".

Definition resolvePayloadSource (payloadDir rel : option string) : string :=
  let cleanedRel := trim (default EmptyString rel) in
  if is_empty (default EmptyString payloadDir) || is_empty cleanedRel
  then EmptyString
  else if placeholderPattern_test cleanedRel then EmptyString
  else if drive_prefix cleanedRel || startsWith cleanedRel "\\"
          || startsWith cleanedRel "/"
  then cleanedRel
  else joinPathFragments (default EmptyString payloadDir) cleanedRel.

(** *** Manifest export *)

(** The [replacements] object built by
    [filter(pair => pair.key.trim().length > 0).reduce(...)]. *)
Definition replacements_object (pairs : list ReplacementPair)
  : list (string * string) :=
  fold_left (fun acc pair => assign_string (key pair) (value pair) acc)
    (List.filter (fun pair => 0 <? String.length (trim (key pair))) pairs)
    [].

(** [Object.keys(r).length ? r : undefined] *)
Definition nonempty_object (r : list (string * string))
  : option (list (string * string)) :=
  match r with [] => None | _ => Some r end.

(** [s.split(',').map(arg => arg.trim()).filter(Boolean)] *)
Definition parse_args (s : string) : list string :=
  List.filter (fun arg => negb (is_empty arg)) (List.map trim (split_comma s)).

(** The payload-relative name of a step on export:
    [rel.trim() || (source ? toBaseName(source) : '')]. *)
Definition export_rel (rel source : string) : string :=
  or_else (trim rel) (if is_empty source then EmptyString else toBaseName source).

(** The [value] a [setJsonValue] step exports: an unparsable number or
    JSON text is passed on as the raw string. *)
Definition export_value (s : SetJsonValueStep) : json :=
  match valueType s with
  | vt_number =>
      let parsed := Number (valueRaw s) in
      if Number_isNaN parsed then JStr (valueRaw s) else JNum parsed
  | vt_boolean => JBool (valueBool s)
  | vt_json =>
      match JSON_parse (or_else (valueRaw s) "null") with
      | Some v => v
      | None => JStr (valueRaw s)
      end
  | vt_string => JStr (valueRaw s)
  end.

(** One turn of the loop of [buildManifestForExport]: the step pushed to
    [installSteps], or [None] when the turn ends in [continue]. *)
Definition export_step (step : UiStep) : option InstallStep :=
  if negb (enabled step) then None
  else
    match fields step with
    | Copy c =>
        let rel := export_rel (payloadRel c) (payloadSource c) in
        if is_empty rel && is_empty (trim (dest c)) then None
        else Some (step_copy (Some rel) (Some (trim (dest c))))
    | PatchBlock p =>
        if is_empty (trim (patch_file p)) && is_empty (trim (contentRel p))
           && is_empty (trim (contentSource p))
        then None
        else
          let rel := export_rel (contentRel p) (contentSource p) in
          Some (step_patchBlock (Some (trim (patch_file p)))
                  (Some (trim (startMarker p))) (Some (trim (endMarker p)))
                  (Some rel)
                  (nonempty_object (replacements_object (replacements p))))
    | SetJsonValue j =>
        if is_empty (trim (json_file j)) && is_empty (trim (keyPath j))
           && is_empty (trim (valueRaw j))
        then None
        else Some (step_setJsonValue (Some (trim (json_file j)))
                     (Some (trim (keyPath j))) (Some (export_value j)))
    | Base64Embed b =>
        if is_empty (trim (embed_file b)) && is_empty (trim (inputRel b))
           && is_empty (trim (inputSource b))
        then None
        else
          let rel := export_rel (inputRel b) (inputSource b) in
          Some (step_base64Embed (Some (trim (embed_file b)))
                  (Some (trim (placeholder b))) (Some rel))
    | RunCommand r =>
        if is_empty (trim (command r)) && is_empty (trim (args r)) then None
        else Some (step_runCommand (Some (trim (command r)))
                     (Some (parse_args (args r))))
    end.

(** [payloadDir.trim() || 'payloads'] *)
Definition payloadDirValue (st : Dashboard) : string :=
  or_else (trim (payloadDir st)) "payloads".

Definition buildManifestForExport (st : Dashboard) : InstallManifest.t :=
  {| InstallManifest.appName := appName st;
     InstallManifest.version := version st;
     InstallManifest.publisher := publisher st;
     InstallManifest.description := description st;
     InstallManifest.advancedMode := advancedMode st;
     InstallManifest.targets := [];
     InstallManifest.payloadDir := payloadDirValue st;
     InstallManifest.installSteps := omap export_step (steps st) |}.

(** *** Manifest import and preset normalisation *)

Section Importing.

(** The text JavaScript prints for the number a literal denotes (see
    [Js.number_text]). *)
Variable NumberToString : string -> string.

(** Truthiness of a value that may be missing. *)
Definition truthy (v : option json) : bool :=
  match v with
  | None | Some JNull => false
  | Some (JBool b) => b
  | Some (JNum n) =>
      let t := number_text NumberToString n in
      negb (String.eqb t "0" || String.eqb t "NaN")
  | Some (JStr s) => negb (is_empty s)
  | Some (JArr _) | Some (JObj _) => true
  end.

Definition valueToUi (value : option json) : ValueType * string * bool :=
  match value with
  | Some (JBool b) => (vt_boolean, EmptyString, b)
  | Some (JNum n) => (vt_number, number_text NumberToString n, false)
  | Some (JStr s) => (vt_string, s, false)
  | Some v => (vt_json, JSON_stringify2 NumberToString v, false)
  | None => (vt_json, JSON_stringify2 NumberToString JNull, false)
  end.

(** [manifestStepToUi(step, payloadDir)]; [fresh] is the identifier
    [makeId()] returns, [None] the [null] of an unknown step type. *)
Definition manifestStepToUi (fresh : string) (step : InstallStep)
    (payloadDir : option string) : option UiStep :=
  match step with
  | step_copy src dest =>
      let payloadRel := default EmptyString src in
      Some {| id := fresh; enabled := true;
              fields := Copy
                {| payloadSource := resolvePayloadSource payloadDir (Some payloadRel);
                   payloadRel := payloadRel;
                   dest := default EmptyString dest |} |}
  | step_patchBlock file startMarker endMarker contentFile replacements =>
      let contentRel := default EmptyString contentFile in
      let replacements :=
        match replacements with
        | Some props =>
            List.map (fun kv => {| key := fst kv; value := snd kv |}) props
        | None => []
        end in
      Some {| id := fresh; enabled := true;
              fields := PatchBlock
                {| patch_file := default EmptyString file;
                   startMarker := default EmptyString startMarker;
                   endMarker := default EmptyString endMarker;
                   contentSource := resolvePayloadSource payloadDir (Some contentRel);
                   contentRel := contentRel;
                   replacements := replacements |} |}
  | step_setJsonValue file keyPath value =>
      let '(valueType, valueRaw, valueBool) := valueToUi value in
      Some {| id := fresh; enabled := true;
              fields := SetJsonValue
                {| json_file := default EmptyString file;
                   keyPath := default EmptyString keyPath;
                   valueType := valueType;
                   valueRaw := valueRaw;
                   valueBool := valueBool |} |}
  | step_base64Embed file placeholder inputFile =>
      let inputRel := default EmptyString inputFile in
      Some {| id := fresh; enabled := true;
              fields := Base64Embed
                {| embed_file := default EmptyString file;
                   placeholder := default EmptyString placeholder;
                   inputSource := resolvePayloadSource payloadDir (Some inputRel);
                   inputRel := inputRel |} |}
  | step_runCommand command args =>
      Some {| id := fresh; enabled := true;
              fields := RunCommand
                {| command := default EmptyString command;
                   args := match args with
                           | Some l => join ", " l
                           | None => EmptyString
                           end |} |}
  | step_other _ => None
  end.

(** [applyManifest(manifest)]: the form state afterwards.  [makeId] is a
    source of random identifiers; [fresh i] is the one drawn for the
    [i]-th step of the manifest. *)
Definition applyManifest (fresh : nat -> string) (manifest : InstallManifest.t)
    (st : Dashboard) : Dashboard :=
  {| projectName := projectName st;
     appName := InstallManifest.appName manifest;
     version := InstallManifest.version manifest;
     publisher := InstallManifest.publisher manifest;
     description := InstallManifest.description manifest;
     advancedMode := InstallManifest.advancedMode manifest;
     payloadDir := InstallManifest.payloadDir manifest;
     steps :=
       omap (fun x => x)
         (imap (fun i step =>
                  manifestStepToUi (fresh i) step
                    (Some (InstallManifest.payloadDir manifest)))
               (InstallManifest.installSteps manifest)) |}.

(** [raw.k] for a value of unknown shape: only an object has the
    properties read here. *)
Definition prop (k : string) (raw : json) : option json :=
  match raw with
  | JObj props => get k props
  | _ => None
  end.

(** [typeof v === 'string' ? v : d] *)
Definition string_or (v : option json) (d : string) : string :=
  match v with Some (JStr s) => s | _ => d end.

(** [typeof v === 'string' ? v : String(w ?? '')]; [None] is the
    [TypeError] of [String]. *)
Definition string_or_String (v w : option json) : option string :=
  match v with
  | Some (JStr s) => Some s
  | _ => ToString_or_empty NumberToString w
  end.

(** The [replacementList] of a [patchBlock] preset step. *)
Definition replacementList (v : option json) : list json :=
  match v with
  | Some (JArr items) => items
  | Some (JObj props) =>
      List.map (fun kv => JObj [("key", JStr (fst kv)); ("value", snd kv)]) props
  | _ => []
  end.

Definition coerce_pair (pair : json) : option ReplacementPair :=
  k ← ToString_or_empty NumberToString (prop "key" pair);
  v ← ToString_or_empty NumberToString (prop "value" pair);
  Some {| key := k; value := v |}.

Definition coerce_valueType (v : option json) : ValueType :=
  match v with
  | Some (JStr s) =>
      if String.eqb s "number" then vt_number
      else if String.eqb s "boolean" then vt_boolean
      else if String.eqb s "json" then vt_json
      else vt_string
  | _ => vt_string
  end.

(** The callback of [steps.map] in [coercePresetSteps].  The outer
    [None] is a [TypeError] thrown by [String]; [Some None] is [null]. *)
Definition coerce_step (step : json) : option (option PresetStep) :=
  match step with
  | JObj props =>
      let raw := step in
      let enabled :=
        match prop "enabled" raw with Some (JBool false) => false | _ => true end in
      match prop "type" raw with
      | Some (JStr type) =>
          if String.eqb type "copy" then
            rel ← string_or_String (prop "payloadRel" raw) (prop "src" raw);
            Some (Some {| preset_enabled := enabled;
                          preset_fields := Copy
                            {| payloadSource := string_or (prop "payloadSource" raw) EmptyString;
                               payloadRel := rel;
                               dest := string_or (prop "dest" raw) EmptyString |} |})
          else if String.eqb type "patchBlock" then
            pairs ← mapM coerce_pair (replacementList (prop "replacements" raw));
            rel ← string_or_String (prop "contentRel" raw) (prop "contentFile" raw);
            Some (Some {| preset_enabled := enabled;
                          preset_fields := PatchBlock
                            {| patch_file := string_or (prop "file" raw) EmptyString;
                               startMarker := string_or (prop "startMarker" raw) EmptyString;
                               endMarker := string_or (prop "endMarker" raw) EmptyString;
                               contentSource := string_or (prop "contentSource" raw) EmptyString;
                               contentRel := rel;
                               replacements := pairs |} |})
          else if String.eqb type "setJsonValue" then
            value ←
              (if has "valueRaw" props || has "valueBool" props || has "valueType" props
               then
                 raw_text ← string_or_String (prop "valueRaw" raw) (prop "valueRaw" raw);
                 Some (coerce_valueType (prop "valueType" raw), raw_text,
                       truthy (prop "valueBool" raw))
               else if has "value" props then Some (valueToUi (prop "value" raw))
               else Some (coerce_valueType (prop "valueType" raw), EmptyString, false));
            let '(valueType, valueRaw, valueBool) := value in
            Some (Some {| preset_enabled := enabled;
                          preset_fields := SetJsonValue
                            {| json_file := string_or (prop "file" raw) EmptyString;
                               keyPath := string_or (prop "keyPath" raw) EmptyString;
                               valueType := valueType;
                               valueRaw := valueRaw;
                               valueBool := valueBool |} |})
          else if String.eqb type "base64Embed" then
            rel ← string_or_String (prop "inputRel" raw) (prop "inputFile" raw);
            Some (Some {| preset_enabled := enabled;
                          preset_fields := Base64Embed
                            {| embed_file := string_or (prop "file" raw) EmptyString;
                               placeholder := string_or (prop "placeholder" raw) EmptyString;
                               inputSource := string_or (prop "inputSource" raw) EmptyString;
                               inputRel := rel |} |})
          else if String.eqb type "runCommand" then
            args ←
              match prop "args" raw with
              | Some (JArr items) =>
                  texts ← mapM (ToString NumberToString) items;
                  Some (join ", " texts)
              | Some (JStr s) => Some s
              | _ => Some EmptyString
              end;
            Some (Some {| preset_enabled := enabled;
                          preset_fields := RunCommand
                            {| command := string_or (prop "command" raw) EmptyString;
                               args := args |} |})
          else Some None
      | _ => Some None
      end
  | _ => Some None
  end.

(** [coercePresetSteps(steps)]; [None] is a [TypeError] raised on the
    way. *)
Definition coercePresetSteps (steps : option json) : option (list PresetStep) :=
  match steps with
  | Some (JArr items) =>
      coerced ← mapM coerce_step items;
      Some (omap (fun x => x) coerced)
  | _ => Some []
  end.

(** [normalizePresetData(raw)]; [None] is a [TypeError] raised on the
    way. *)
Definition normalizePresetData (raw : json) : option PresetData.t :=
  steps ← coercePresetSteps (prop "steps" raw);
  Some {| PresetData.appName := string_or (prop "appName" raw) "My App";
          PresetData.version := string_or (prop "version" raw) "1.0.0";
          PresetData.publisher := string_or (prop "publisher" raw) "Misfit";
          PresetData.description :=
            string_or (prop "description" raw) "Created with Misfit Studio";
          PresetData.advancedMode := truthy (prop "advancedMode" raw);
          PresetData.payloadDir :=
            match prop "payloadDir" raw with
            | Some (JStr s) => Some s
            | _ => None
            end;
          PresetData.steps := steps |}.

End Importing.

(** *** Validation (the [validation] memo) *)

Record Validation : Type :=
  { issueMap : gmap string (list StepIssue);
    errorCount : nat;
    warningCount : nat }.

Definition pushIssue (id : string) (level : IssueLevel) (message : string)
    (v : Validation) : Validation :=
  let list := default [] (issueMap v !! id) in
  {| issueMap :=
       <[id := list ++ [{| level := level; message := message |}]]> (issueMap v);
     errorCount :=
       match level with error => errorCount v + 1 | warning => errorCount v end;
     warningCount :=
       match level with error => warningCount v | warning => warningCount v + 1 end |}.

(** [if (cond) pushIssue(...)] *)
Definition issue_if (cond : bool) (id : string) (level : IssueLevel)
    (message : string) (v : Validation) : Validation :=
  if cond then pushIssue id level message v else v.

(** One turn of the loop of [validation]. *)
Definition validate_step (v : Validation) (step : UiStep) : Validation :=
  if negb (enabled step) then v
  else
    let i := id step in
    match fields step with
    | Copy c =>
        let v := issue_if (is_empty (trim (payloadSource c))) i error
                   "Copy decree is missing a source." v in
        let v := issue_if (is_empty (trim (dest c))) i error
                   "Copy decree is missing a destination path." v in
        issue_if (placeholderPattern_test (dest c)) i warning
          "Destination path contains a placeholder." v
    | PatchBlock p =>
        let v := issue_if (is_empty (trim (patch_file p))) i error
                   "Patch decree is missing the target file." v in
        let v := issue_if (is_empty (trim (startMarker p))
                           || is_empty (trim (endMarker p))) i error
                   "Patch decree needs both start/end markers." v in
        let v := issue_if (is_empty (trim (contentSource p))) i error
                   "Patch decree is missing a content file." v in
        issue_if (placeholderPattern_test (patch_file p)) i warning
          "Target file contains a placeholder." v
    | SetJsonValue j =>
        let v := issue_if (is_empty (trim (json_file j))) i error
                   "JSON decree is missing the target file." v in
        let v := issue_if (negb (is_empty (json_file j))
                           && negb (endsWith (toLowerCase (trim (json_file j))) ".json"))
                   i warning "JSON decree target does not end in .json." v in
        let v := issue_if (is_empty (trim (keyPath j))) i error
                   "JSON decree is missing the key path." v in
        let v := match valueType j with
                 | vt_number =>
                     issue_if (Number_isNaN (Number (valueRaw j))) i error
                       "JSON number value is invalid." v
                 | _ => v
                 end in
        let v := match valueType j with
                 | vt_json =>
                     match JSON_parse (or_else (valueRaw j) "null") with
                     | Some _ => v
                     | None => pushIssue i error "JSON value is not valid JSON." v
                     end
                 | _ => v
                 end in
        issue_if (placeholderPattern_test (json_file j)) i warning
          "JSON target file contains a placeholder." v
    | Base64Embed b =>
        let v := issue_if (is_empty (trim (embed_file b))) i error
                   "Seal embed is missing the target file." v in
        let v := issue_if (is_empty (trim (placeholder b))) i error
                   "Seal embed is missing the placeholder." v in
        let v := issue_if (is_empty (trim (inputSource b))) i error
                   "Seal embed is missing the input file." v in
        issue_if (placeholderPattern_test (embed_file b)) i warning
          "Embed target file contains a placeholder." v
    | RunCommand r =>
        issue_if (is_empty (trim (command r))) i error
          "Command decree is missing the command." v
    end.

Definition validation (steps : list UiStep) : Validation :=
  fold_left validate_step steps
    {| issueMap := ∅; errorCount := 0; warningCount := 0 |}.

(** *** The build flow ([handleBuild]) *)

(** The three accumulators of the loop: [payloadMap] (a [Map], in
    insertion order), [installSteps] and [errors]. *)
Record Plan : Type :=
  { payloadMap : list (string * string);
    plan_installSteps : list InstallStep;
    errors : list string }.

Definition push_error (e : string) (p : Plan) : Plan :=
  {| payloadMap := payloadMap p;
     plan_installSteps := plan_installSteps p;
     errors := errors p ++ [e] |}.

Definition push_step (s : InstallStep) (p : Plan) : Plan :=
  {| payloadMap := payloadMap p;
     plan_installSteps := plan_installSteps p ++ [s];
     errors := errors p |}.

(** [map.set(k, v)]: a present key keeps its place, a new one goes last. *)
Definition map_set (k v : string) (m : list (string * string))
  : list (string * string) :=
  if has k m then replace_value k v m else m ++ [(k, v)].

Definition addPayload (rel source : string) (p : Plan) : Plan :=
  let cleaned := trim rel in
  if is_empty cleaned then push_error "A payload path cannot be empty." p
  else
    match get cleaned (payloadMap p) with
    | Some claimed =>
        if negb (String.eqb claimed source)
        then push_error ("A payload path is already claimed: " +:+ cleaned) p
        else {| payloadMap := map_set cleaned source (payloadMap p);
                plan_installSteps := plan_installSteps p;
                errors := errors p |}
    | None =>
        {| payloadMap := map_set cleaned source (payloadMap p);
           plan_installSteps := plan_installSteps p;
           errors := errors p |}
    end.

(** One turn of the loop of [handleBuild]. *)
Definition plan_step (p : Plan) (step : UiStep) : Plan :=
  if negb (enabled step) then p
  else
    match fields step with
    | Copy c =>
        let source := trim (payloadSource c) in
        let dest := trim (dest c) in
        if is_empty source
        then push_error "A copy decree is missing a source file or folder." p
        else if is_empty dest
        then push_error "A copy decree is missing a destination path." p
        else
          let rel := or_else (trim (payloadRel c)) (toBaseName source) in
          push_step (step_copy (Some rel) (Some dest)) (addPayload rel source p)
    | PatchBlock b =>
        let target := trim (patch_file b) in
        let startMarker := trim (startMarker b) in
        let endMarker := trim (endMarker b) in
        let contentSource := trim (contentSource b) in
        if is_empty target
        then push_error "A patch decree is missing the target file." p
        else if is_empty startMarker
        then push_error "A patch decree is missing a start marker." p
        else if is_empty endMarker
        then push_error "A patch decree is missing an end marker." p
        else if is_empty contentSource
        then push_error "A patch decree is missing a content file." p
        else
          let rel := or_else (trim (contentRel b)) (toBaseName contentSource) in
          push_step
            (step_patchBlock (Some target) (Some startMarker) (Some endMarker)
               (Some rel) (nonempty_object (replacements_object (replacements b))))
            (addPayload rel contentSource p)
    | SetJsonValue j =>
        let target := trim (json_file j) in
        let keyPath := trim (keyPath j) in
        if is_empty target
        then push_error "A JSON decree is missing the target file." p
        else if is_empty keyPath
        then push_error "A JSON decree is missing the key path." p
        else
          match valueType j with
          | vt_number =>
              let parsed := Number (valueRaw j) in
              if Number_isNaN parsed
              then push_error "A JSON decree number is invalid." p
              else push_step (step_setJsonValue (Some target) (Some keyPath)
                                (Some (JNum parsed))) p
          | vt_boolean =>
              push_step (step_setJsonValue (Some target) (Some keyPath)
                           (Some (JBool (valueBool j)))) p
          | vt_json =>
              match JSON_parse (or_else (valueRaw j) "null") with
              | Some v =>
                  push_step (step_setJsonValue (Some target) (Some keyPath) (Some v)) p
              | None => push_error "A JSON decree is not valid JSON." p
              end
          | vt_string =>
              push_step (step_setJsonValue (Some target) (Some keyPath)
                           (Some (JStr (valueRaw j)))) p
          end
    | Base64Embed b =>
        let target := trim (embed_file b) in
        let placeholder := trim (placeholder b) in
        let inputSource := trim (inputSource b) in
        if is_empty target
        then push_error "A seal embed decree is missing the target file." p
        else if is_empty placeholder
        then push_error "A seal embed decree is missing the placeholder." p
        else if is_empty inputSource
        then push_error "A seal embed decree is missing the input file." p
        else
          let rel := or_else (trim (inputRel b)) (toBaseName inputSource) in
          push_step (step_base64Embed (Some target) (Some placeholder) (Some rel))
            (addPayload rel inputSource p)
    | RunCommand r =>
        let command := trim (command r) in
        if is_empty command
        then push_error "A command decree is missing the command." p
        else push_step (step_runCommand (Some command) (Some (parse_args (args r)))) p
    end.

Definition build_plan (steps : list UiStep) : Plan :=
  fold_left plan_step steps
    {| payloadMap := []; plan_installSteps := []; errors := [] |}.

(** [handleBuild] as the tree of its interactions: state updates
    ([setBuilding], a line added by [setLogs]), the two backend commands
    and the [confirm] dialogs, each with what happens on every answer. *)
Inductive Proc : Type :=
| Return
| SetBuilding (b : bool) (k : Proc)
| Log (line : string) (k : Proc)
| Invoke_inspect_build_target (request : BuildRequest)
    (k : Settled BuildTargetInfo -> Proc)
| Confirm (message title : string) (k : bool -> Proc)
| Invoke_build_project (request : BuildRequest) (k : Settled string -> Proc).

(** The [catch] and [finally] blocks. *)
Definition forge_failed (e : string) : Proc :=
  Log ("Forge failed: " +:+ e) (SetBuilding false Return).

(** [setBuilding(false); return;] inside the [try], then [finally]. *)
Definition declined : Proc := SetBuilding false (SetBuilding false Return).

Definition forge (req : BuildRequest) : Proc :=
  Invoke_build_project req
    (fun r =>
       match r with
       | Resolved path =>
           Log ("Decree forged. Output at: " +:+ path) (SetBuilding false Return)
       | Rejected e => forge_failed e
       end).

Definition with_force (req : BuildRequest) (force : bool) : BuildRequest :=
  {| req_projectName := req_projectName req;
     req_manifest := req_manifest req;
     payloadFiles := payloadFiles req;
     forceOverwrite := Some force |}.

(** The part of [handleBuild] after [inspect_build_target] has resolved. *)
Definition confirm_overwrite (req : BuildRequest) (target : BuildTargetInfo)
  : Proc :=
  if exists_ target then
    if isAbsolute target && negb (hasMarker target) then
      Confirm
        ("The output folder exists but does not contain a .misfit-studio marker:"
         +:+ lf +:+ path target +:+ lf +:+ lf +:+ "Do you want to continue?")
        "No marker found"
        (fun warn =>
           if negb warn then declined
           else
             Confirm
               "This will delete the entire folder and its contents before building the new installer. Continue?"
               "Delete existing folder?"
               (fun confirmDelete =>
                  if negb confirmDelete then declined
                  else forge (with_force req true)))
    else
      Confirm
        ("The output folder already exists:" +:+ lf +:+ path target +:+ lf +:+ lf
         +:+ "Do you want to replace it?")
        "Overwrite existing build?"
        (fun confirmDelete =>
           if negb confirmDelete then declined
           else forge (with_force req true))
  else forge (with_force req false).

(** The manifest and the [inspectReq] request of a plan without errors. *)
Definition build_manifest (st : Dashboard) (plan : Plan) : InstallManifest.t :=
  {| InstallManifest.appName := appName st;
     InstallManifest.version := version st;
     InstallManifest.publisher := publisher st;
     InstallManifest.description := description st;
     InstallManifest.advancedMode := advancedMode st;
     InstallManifest.targets := [];
     InstallManifest.payloadDir := payloadDirValue st;
     InstallManifest.installSteps := plan_installSteps plan |}.

Definition inspectReq (st : Dashboard) (plan : Plan) : BuildRequest :=
  {| req_projectName := projectName st;
     req_manifest := build_manifest st plan;
     payloadFiles := List.map (fun e => (snd e, fst e)) (payloadMap plan);
     forceOverwrite := None |}.

Definition handleBuild (st : Dashboard) : Proc :=
  SetBuilding true
    (Log "Summoning the forge..."
       (let plan := build_plan (steps st) in
        match errors plan with
        | _ :: _ => forge_failed ("Error: " +:+ join " " (errors plan))
        | [] =>
            Invoke_inspect_build_target (inspectReq st plan)
              (fun r =>
                 match r with
                 | Resolved target => confirm_overwrite (inspectReq st plan) target
                 | Rejected e => forge_failed e
                 end)
        end)).

(** Running the tree against an environment: what each backend command
    settles with and what the user answers to the [n]-th dialog.  The
    result is the sequence of things done. *)
Inductive Event : Type :=
| did_setBuilding (b : bool)
| did_log (line : string)
| did_inspect_build_target (request : BuildRequest)
| did_confirm (title : string) (answer : bool)
| did_build_project (request : BuildRequest).

Record World : Type :=
  { inspect_build_target : BuildRequest -> Settled BuildTargetInfo;
    build_project : BuildRequest -> Settled string;
    answer : nat -> bool }.

Fixpoint run (w : World) (asked : nat) (p : Proc) : list Event :=
  match p with
  | Return => []
  | SetBuilding b k => did_setBuilding b :: run w asked k
  | Log line k => did_log line :: run w asked k
  | Invoke_inspect_build_target req k =>
      did_inspect_build_target req :: run w asked (k (inspect_build_target w req))
  | Confirm _ title k =>
      did_confirm title (answer w asked) :: run w (S asked) (k (answer w asked))
  | Invoke_build_project req k =>
      did_build_project req :: run w asked (k (build_project w req))
  end.

Definition confirmations (trace : list Event) : list (string * bool) :=
  omap (fun e => match e with did_confirm t a => Some (t, a) | _ => None end) trace.

Definition builds (trace : list Event) : list BuildRequest :=
  omap (fun e => match e with did_build_project r => Some r | _ => None end) trace.

Definition backend_calls (trace : list Event) : nat :=
  List.length
    (List.filter (fun e => match e with
                      | did_inspect_build_target _ | did_build_project _ => true
                      | _ => false
                      end) trace).

(** *** Observations used to state properties of the build flow *)

(** The error [addPayload] records for a staged name that is taken. *)
Definition claimed (cleaned : string) : string :=
  "A payload path is already claimed: " +:+ cleaned.

(** The name and the source an enabled step hands to [addPayload], when
    it gets that far ([None]: disabled, a required field is missing, or
    the step has no payload). *)
Definition payload_claim (step : UiStep) : option (string * string) :=
  if negb (enabled step) then None
  else
    match fields step with
    | Copy c =>
        let source := trim (payloadSource c) in
        if is_empty source || is_empty (trim (dest c)) then None
        else Some (or_else (trim (payloadRel c)) (toBaseName source), source)
    | PatchBlock b =>
        let source := trim (contentSource b) in
        if is_empty (trim (patch_file b)) || is_empty (trim (startMarker b))
           || is_empty (trim (endMarker b)) || is_empty source
        then None
        else Some (or_else (trim (contentRel b)) (toBaseName source), source)
    | Base64Embed b =>
        let source := trim (inputSource b) in
        if is_empty (trim (embed_file b)) || is_empty (trim (placeholder b))
           || is_empty source
        then None
        else Some (or_else (trim (inputRel b)) (toBaseName source), source)
    | SetJsonValue _ | RunCommand _ => None
    end.

(** The validation memo holds issue [x] for the step with identifier
    [i]. *)
Definition has_issue (v : Validation) (i : string) (x : StepIssue) : Prop :=
  exists issues, issueMap v !! i = Some issues /\ In x issues.

Definition invalid_number : StepIssue :=
  {| level := error; message := "JSON number value is invalid." |}.



(** *** Observations used to state properties of preset normalisation *)


(** No object of the value, at any depth, has a property named
    [toString]. *)
Fixpoint printable (v : json) : bool :=
  match v with
  | JArr items => forallb printable items
  | JObj props =>
      negb (has "toString" props) && forallb (fun kv => printable (snd kv)) props
  | _ => true
  end.

Definition step_type_of_name (name : string) : option StepType :=
  if String.eqb name "copy" then Some copy
  else if String.eqb name "patchBlock" then Some patchBlock
  else if String.eqb name "setJsonValue" then Some setJsonValue
  else if String.eqb name "base64Embed" then Some base64Embed
  else if String.eqb name "runCommand" then Some runCommand
  else None.

(** The step type an entry of a preset's [steps] array announces: an
    object whose [type] is one of the five names. *)
Definition known_type (entry : json) : option StepType :=
  match entry with
  | JObj props =>
      match get "type" props with
      | Some (JStr name) => step_type_of_name name
      | _ => None
      end
  | _ => None
  end.

(** The entries of [raw.steps] when it is an array. *)
Definition step_entries (raw : json) : list json :=
  match prop "steps" raw with
  | Some (JArr items) => items
  | _ => []
  end.

(** *** The payload folder as a boundary, in the words of the specification *)

(** The separator-delimited fields of a path (at least one). *)
Fixpoint path_fields (s : string) : list string :=
  match s with
  | EmptyString => [EmptyString]
  | String c t =>
      if is_sep c then EmptyString :: path_fields t
      else match path_fields t with
           | [] => [String c EmptyString]
           | f :: fs => String c f :: fs
           end
  end.

(** The segments of a path: its fields other than the empty one and
    [.]. *)
Definition segments (s : string) : list string :=
  List.filter (fun f => negb (is_empty f) && negb (String.eqb f "."))
    (path_fields s).

(** Follow the segments from a folder, given innermost first; [..]
    leaves a folder, and [None] means leaving the starting point. *)
Fixpoint walk (stack segs : list string) : option (list string) :=
  match segs with
  | [] => Some stack
  | seg :: rest =>
      if String.eqb seg ".." then
        match stack with
        | [] => None
        | _ :: up => walk up rest
        end
      else walk (seg :: stack) rest
  end.

(** Where a path leads, innermost folder first. *)
Definition location (p : string) : option (list string) := walk [] (segments p).

(** "Resolves inside [payloadDir]": the place [p] leads to lies in the
    folder [dir] leads to. *)
Definition inside (dir p : string) : bool :=
  match location dir, location p with
  | Some d, Some q => bool_decide (d `suffix_of` q)
  | _, _ => false
  end.

Definition has_dotdot (p : string) : bool := existsb (String.eqb "..") (segments p).

(** *** Observations used to state the round trip of export and import *)



Definition trimmed (s : string) : Prop := trim s = s.


(** An argument as the args field lists it: trimmed, not empty, without
    a comma. *)
Definition plain_arg (a : string) : Prop :=
  trim a = a /\ a <> EmptyString /\ mem_char "," a = false.


(** The same authored fields: everything but the identifier and the
    payload source ([payloadSource], [contentSource], [inputSource]). *)
Definition same_authored (a b : StepFields) : Prop :=
  match a, b with
  | Copy x, Copy y => payloadRel y = payloadRel x /\ dest y = dest x
  | PatchBlock x, PatchBlock y =>
      patch_file y = patch_file x /\ startMarker y = startMarker x
      /\ endMarker y = endMarker x /\ contentRel y = contentRel x
      /\ replacements y = replacements x
  | SetJsonValue x, SetJsonValue y => y = x
  | Base64Embed x, Base64Embed y =>
      embed_file y = embed_file x /\ placeholder y = placeholder x
      /\ inputRel y = inputRel x
  | RunCommand x, RunCommand y => y = x
  | _, _ => False
  end.

(** The property of a replacement pair. *)
Definition entry (pair : ReplacementPair) : string * string :=
  (key pair, value pair).

Section ImportAll.
Variable NumberToString : string -> string.

(** The steps [applyManifest] puts into the form for a list of manifest
    steps. *)
Definition import_all (fresh : nat -> string) (dir : option string)
    (ms : list InstallStep) : list UiStep :=
  omap (fun x => x)
    (imap (fun i m => manifestStepToUi NumberToString (fresh i) m dir) ms).

End ImportAll.

(** *** New steps and file names *)

(** [createStep(type)]; [fresh] is the identifier [makeId()] returns. *)
Definition createStep (fresh : string) (type : StepType) : UiStep :=
  {| id := fresh; enabled := true;
     fields :=
       match type with
       | copy =>
           Copy {| payloadSource := EmptyString; payloadRel := EmptyString;
                   dest := EmptyString |}
       | patchBlock =>
           PatchBlock {| patch_file := EmptyString; startMarker := EmptyString;
                         endMarker := EmptyString; contentSource := EmptyString;
                         contentRel := EmptyString; replacements := [] |}
       | setJsonValue =>
           SetJsonValue {| json_file := EmptyString; keyPath := EmptyString;
                           valueType := vt_string; valueRaw := EmptyString;
                           valueBool := false |}
       | base64Embed =>
           Base64Embed {| embed_file := EmptyString; placeholder := EmptyString;
                          inputSource := EmptyString; inputRel := EmptyString |}
       | runCommand =>
           RunCommand {| command := EmptyString; args := EmptyString |}
       end |}.

(** The character class [[a-zA-Z0-9-_]]. *)
Definition is_name_char (c : ascii) : bool :=
  is_letter c || is_digit c || Ascii.eqb c "-" || Ascii.eqb c "_".

(** [s.replace(/[^a-zA-Z0-9-_]+/g, '-')]: every maximal run of other
    characters becomes one dash; [in_run] tells that the run the current
    character belongs to has been replaced already. *)
Fixpoint dash_runs (in_run : bool) (s : string) : string :=
  match s with
  | EmptyString => EmptyString
  | String c t =>
      if is_name_char c then String c (dash_runs false t)
      else if in_run then dash_runs true t
      else String "-" (dash_runs true t)
  end.

Definition is_dash (c : ascii) : bool := Ascii.eqb c "-".

(** Remove the characters satisfying [p] from the end of a text. *)
Fixpoint drop_while_end (p : ascii -> bool) (s : string) : string :=
  match s with
  | EmptyString => EmptyString
  | String c t =>
      match drop_while_end p t with
      | EmptyString => if p c then EmptyString else String c EmptyString
      | t' => String c t'
      end
  end.

(** [s.replace(/^-+|-+$/g, '')]: the dashes at the start and the dashes
    at the end go. *)
Definition strip_dashes (s : string) : string :=
  drop_while_end is_dash (drop_while is_dash s).

Definition presetFileName (name : string) : string :=
  let safe := strip_dashes (dash_runs false name) in
  or_else safe "misfit-preset".

(** *** Presets *)

Module Preset.
Record t : Type := { name : string; data : PresetData.t }.
End Preset.

(** [uiStepsToPresetSteps(steps)]: each step without its [id]. *)
Definition uiStepsToPresetSteps (steps : list UiStep) : list PresetStep :=
  List.map (fun step => {| preset_enabled := enabled step;
                           preset_fields := fields step |}) steps.

(** The source a preset step gets in the form.  With
    [raw = (step.source ?? '').trim()]:
    [shouldResolve ? resolvePayloadSource(payloadDir, rel)
                   : (raw || resolvePayloadSource(payloadDir, rel))], where
    [shouldResolve = payloadDir && isAbsolutePath(payloadDir)
                     && (!raw || !isAbsolutePath(raw))].
    The callback spells this out three times, for [payloadSource],
    [contentSource] and [inputSource]. *)
Definition preset_source (payloadDir : option string) (stored rel : string)
  : string :=
  let raw := trim stored in
  let dir := default EmptyString payloadDir in
  let shouldResolve :=
    negb (is_empty dir) && isAbsolutePath dir
    && (is_empty raw || negb (isAbsolutePath raw)) in
  if shouldResolve then resolvePayloadSource payloadDir (Some rel)
  else or_else raw (resolvePayloadSource payloadDir (Some rel)).

(** The callback of [steps.map] in [presetStepsToUi]; the steps come from
    [coercePresetSteps], so every field is present and the [??] defaults
    of the source are never taken. *)
Definition presetStepToUi (fresh : string) (payloadDir : option string)
    (step : PresetStep) : UiStep :=
  {| id := fresh; enabled := preset_enabled step;
     fields :=
       match preset_fields step with
       | Copy c =>
           Copy {| payloadSource :=
                     preset_source payloadDir (payloadSource c) (payloadRel c);
                   payloadRel := payloadRel c;
                   dest := dest c |}
       | PatchBlock p =>
           PatchBlock {| patch_file := patch_file p;
                         startMarker := startMarker p;
                         endMarker := endMarker p;
                         contentSource :=
                           preset_source payloadDir (contentSource p) (contentRel p);
                         contentRel := contentRel p;
                         replacements :=
                           List.map (fun pair => {| key := key pair;
                                                    value := value pair |})
                             (replacements p) |}
       | SetJsonValue j =>
           SetJsonValue {| json_file := json_file j; keyPath := keyPath j;
                           valueType := valueType j; valueRaw := valueRaw j;
                           valueBool := valueBool j |}
       | Base64Embed b =>
           Base64Embed {| embed_file := embed_file b;
                          placeholder := placeholder b;
                          inputSource :=
                            preset_source payloadDir (inputSource b) (inputRel b);
                          inputRel := inputRel b |}
       | RunCommand r =>
           RunCommand {| command := command r; args := args r |}
       end |}.

(** [presetStepsToUi(steps, payloadDir)]; [fresh i] is the identifier
    drawn for the [i]-th step. *)
Definition presetStepsToUi (fresh : nat -> string) (steps : list PresetStep)
    (payloadDir : option string) : list UiStep :=
  imap (fun i step => presetStepToUi (fresh i) payloadDir step) steps.

(** *** Preset steps as the objects they are at run time *)

Definition valueType_name (t : ValueType) : string :=
  match t with
  | vt_string => "string"
  | vt_number => "number"
  | vt_boolean => "boolean"
  | vt_json => "json"
  end.

Definition pair_object (pair : ReplacementPair) : json :=
  JObj [("key", JStr (key pair)); ("value", JStr (value pair))].

(** The own properties of the object a [PresetStep] is, in the order
    [uiStepsToPresetSteps] leaves them in. *)
Definition preset_step_props (step : PresetStep) : list (string * json) :=
  ("enabled", JBool (preset_enabled step)) ::
  match preset_fields step with
  | Copy c =>
      [("type", JStr "copy"); ("payloadSource", JStr (payloadSource c));
       ("payloadRel", JStr (payloadRel c)); ("dest", JStr (dest c))]
  | PatchBlock p =>
      [("type", JStr "patchBlock"); ("file", JStr (patch_file p));
       ("startMarker", JStr (startMarker p)); ("endMarker", JStr (endMarker p));
       ("contentSource", JStr (contentSource p));
       ("contentRel", JStr (contentRel p));
       ("replacements", JArr (List.map pair_object (replacements p)))]
  | SetJsonValue j =>
      [("type", JStr "setJsonValue"); ("file", JStr (json_file j));
       ("keyPath", JStr (keyPath j));
       ("valueType", JStr (valueType_name (valueType j)));
       ("valueRaw", JStr (valueRaw j)); ("valueBool", JBool (valueBool j))]
  | Base64Embed b =>
      [("type", JStr "base64Embed"); ("file", JStr (embed_file b));
       ("placeholder", JStr (placeholder b));
       ("inputSource", JStr (inputSource b)); ("inputRel", JStr (inputRel b))]
  | RunCommand r =>
      [("type", JStr "runCommand"); ("command", JStr (command r));
       ("args", JStr (args r))]
  end.

(** An object holds given properties when it has exactly these, in some
    order: [coercePresetSteps] writes [type] before [enabled], the steps
    of the form have [enabled] first. *)
Definition holds (o : json) (props : list (string * json)) : Prop :=
  exists own, o = JObj own /\ Permutation own props.

(** The own properties of the object a [PresetData] is; a [payloadDir]
    that is [undefined] is no property once the data has gone through
    [JSON.stringify]. *)
Definition preset_data_props (steps : list json) (d : PresetData.t)
  : list (string * json) :=
  [("appName", JStr (PresetData.appName d));
   ("version", JStr (PresetData.version d));
   ("publisher", JStr (PresetData.publisher d));
   ("description", JStr (PresetData.description d));
   ("advancedMode", JBool (PresetData.advancedMode d))]
  ++ match PresetData.payloadDir d with
     | Some dir => [("payloadDir", JStr dir)]
     | None => []
     end
  ++ [("steps", JArr steps)].

(** [o] is a preset data object holding [d]: its [steps] array holds the
    steps of [d], one object each. *)
Definition holds_data (o : json) (d : PresetData.t) : Prop :=
  exists steps,
    Forall2 (fun s step => holds s (preset_step_props step)) steps
      (PresetData.steps d)
    /\ holds o (preset_data_props steps d).

(** *** The built-in presets *)

Definition extensions_dest (name : string) : string :=
  "%USERPROFILE%\.antigravity\extensions\" +:+ name.

Definition copy_extension (name : string) : InstallStep :=
  step_copy (Some ("extensions/" +:+ name)) (Some (extensions_dest name)).

Definition settings_json : string := "%APPDATA%\Antigravity\User\settings.json".

Definition colorCustomizations : json :=
  JObj [("editor.background", JStr "#05050500");
        ("terminal.background", JStr "#05050500");
        ("panel.background", JStr "#05050500");
        ("sideBar.background", JStr "#05050500");
        ("activityBar.background", JStr "#05050500");
        ("statusBar.background", JStr "#05050500");
        ("titleBar.activeBackground", JStr "#05050500");
        ("titleBar.inactiveBackground", JStr "#05050500");
        ("tab.activeBackground", JStr "#05050540");
        ("tab.inactiveBackground", JStr "#05050520");
        ("tab.unfocusedActiveBackground", JStr "#05050530");
        ("tab.unfocusedInactiveBackground", JStr "#05050518");
        ("tab.hoverBackground", JStr "#0a120a33");
        ("tab.border", JStr "#7DFB3920");
        ("tab.activeBorder", JStr "#7DFB3940");
        ("tab.activeBorderTop", JStr "#7DFB3966");
        ("tab.unfocusedActiveBorder", JStr "#7DFB3933");
        ("tab.unfocusedActiveBorderTop", JStr "#7DFB3940")].

Definition ANTIGRAVITY_FULL_STEPS : list InstallStep :=
  [ copy_extension "antigravity-carbon";
    copy_extension "antigravity-carbon-v4";
    copy_extension "antigravity-glass-icons";
    copy_extension "MisfitSanctuaryAnimations";
    copy_extension "MisfitSanctuaryTheme";
    copy_extension "Plnderer.misfitsanctuary-art-ui";
    step_patchBlock
      (Some "%LOCALAPPDATA%\Programs\Antigravity\resources\app\out\vs\workbench\workbench.desktop.main.css")
      (Some "/* MisfitSanctuary.Art UI START */")
      (Some "/* MisfitSanctuary.Art UI END */")
      (Some "overlays/workbench.overlay.css") None;
    step_patchBlock
      (Some "%LOCALAPPDATA%\Programs\Antigravity\resources\app\out\jetskiMain.tailwind.css")
      (Some "/* MisfitSanctuary.Art UI JETSKI START */")
      (Some "/* MisfitSanctuary.Art UI JETSKI END */")
      (Some "overlays/jetski.overlay.css") None;
    step_setJsonValue (Some settings_json) (Some "workbench\.colorTheme")
      (Some (JStr "MisfitSanctuary.Art UI"));
    step_setJsonValue (Some settings_json) (Some "workbench\.iconTheme")
      (Some (JStr "misfit-glass"));
    step_setJsonValue (Some settings_json) (Some "workbench\.productIconTheme")
      (Some (JStr "misfit-carbon"));
    step_setJsonValue (Some settings_json) (Some "workbench\.colorCustomizations")
      (Some colorCustomizations) ].

Definition is_copy_step (step : InstallStep) : bool :=
  match step with step_copy _ _ => true | _ => false end.

Definition ANTIGRAVITY_LITE_STEPS : list InstallStep :=
  [ copy_extension "antigravity-carbon";
    copy_extension "antigravity-glass-icons";
    copy_extension "MisfitSanctuaryTheme" ]
  ++ List.filter (fun step => negb (is_copy_step step)) ANTIGRAVITY_FULL_STEPS.

Section Library.

Variable NumberToString : string -> string.

(** [createDefaultPresets()]; the identifiers [makeId()] draws are
    dropped again by [uiStepsToPresetSteps]. *)
Definition default_steps (fresh : nat -> string) (steps : list InstallStep)
  : list PresetStep :=
  uiStepsToPresetSteps
    (import_all NumberToString fresh (Some "payloads/antigravity") steps).

Definition antigravity_data (steps : list PresetStep) : PresetData.t :=
  {| PresetData.appName := "Misfit Vibe Installer";
     PresetData.version := "1.0.0";
     PresetData.publisher := "MisfitSanctuary.Art";
     PresetData.description :=
       "Installs the Misfit Vibe extension suite and applies the Antigravity UI overlays.";
     PresetData.advancedMode := false;
     PresetData.payloadDir := Some "payloads/antigravity";
     PresetData.steps := steps |}.

Definition createDefaultPresets (fresh : nat -> string) : list Preset.t :=
  [ {| Preset.name := "Antigravity Full";
       Preset.data := antigravity_data (default_steps fresh ANTIGRAVITY_FULL_STEPS) |};
    {| Preset.name := "Antigravity Lite";
       Preset.data := antigravity_data (default_steps fresh ANTIGRAVITY_LITE_STEPS) |};
    {| Preset.name := "Custom";
       Preset.data :=
         {| PresetData.appName := "My App";
            PresetData.version := "1.0.0";
            PresetData.publisher := "Misfit";
            PresetData.description := "Created with Misfit Studio";
            PresetData.advancedMode := false;
            PresetData.payloadDir := None;
            PresetData.steps := [] |} |} ].

(** [raw.data ?? {}] *)
Definition data_or_empty (raw : json) : json :=
  match prop "data" raw with
  | None | Some JNull => JObj []
  | Some d => d
  end.

(** [typeof raw.name === 'string' ? raw.name.trim() : ''] *)
Definition name_of (raw : json) : string :=
  match prop "name" raw with
  | Some (JStr s) => trim s
  | _ => EmptyString
  end.

(** The callback of [parsed.map] in [loadPresetLibrary]: the outer [None]
    is a [TypeError] raised by [normalizePresetData], [Some None] is
    [null]. *)
Definition stored_preset (preset : json) : option (option Preset.t) :=
  let name := name_of preset in
  if is_empty name then Some None
  else
    data ← normalizePresetData NumberToString (data_or_empty preset);
    Some (Some {| Preset.name := name; Preset.data := data |}).

(** [loadPresetLibrary()]; [stored] is what
    [localStorage.getItem(PRESET_STORAGE_KEY)] gives, [None] when there
    is no such item or no [localStorage].  Whatever is thrown on the way
    ends in the [catch], which returns the built-in presets. *)
Definition loadPresetLibrary (fresh : nat -> string) (stored : option string)
  : list Preset.t :=
  match stored with
  | None => createDefaultPresets fresh
  | Some text =>
      if is_empty text then createDefaultPresets fresh
      else
        match JSON_parse text with
        | Some (JArr parsed) =>
            match mapM stored_preset parsed with
            | Some entries =>
                match omap (fun x => x) entries with
                | [] => createDefaultPresets fresh
                | normalized => normalized
                end
            | None => createDefaultPresets fresh
            end
        | _ => createDefaultPresets fresh
        end
  end.

(** *** The preset library of the Dashboard *)

(** The state cells [presets] and [selectedPresetName]. *)
Record Library : Type :=
  { presets : list Preset.t; selectedPresetName : string }.

(** [presets.find(preset => preset.name === name)] *)
Definition find_preset (name : string) (l : list Preset.t) : option Preset.t :=
  List.find (fun preset => String.eqb (Preset.name preset) name) l.

Definition selectedPreset (lib : Library) : option Preset.t :=
  find_preset (selectedPresetName lib) (presets lib).

(** The effect that keeps the selection inside the library: when no
    preset has the selected name, the first one is selected. *)
Definition reselect (lib : Library) : Library :=
  match presets lib with
  | [] => lib
  | first :: _ =>
      if existsb (fun preset => String.eqb (Preset.name preset)
                                  (selectedPresetName lib)) (presets lib)
      then lib
      else {| presets := presets lib; selectedPresetName := Preset.name first |}
  end.

(** What a [catch] block may receive. *)
Inductive Thrown : Type :=
| SyntaxError                    (* from [JSON.parse] *)
| TypeError                      (* from [String] *)
| Error_ (message : string)      (* [new Error(message)] *)
| Rejection (e : string).        (* a rejected [invoke] *)

(** The handlers of the preset library as trees of their interactions:
    the dialogs ([window.prompt], [confirm], the file picker), the backend
    command [read_text_file] and the state updates. *)
Inductive Task : Type :=
| Finish
| Prompt (message suggested : string) (k : option string -> Task)
| Ask (message title : string) (k : bool -> Task)
| OpenFile (k : option string -> Task)
| Invoke_read_text_file (path : string) (k : Settled string -> Task)
| SetPresets (update : list Preset.t -> list Preset.t) (k : Task)
| SetSelectedPresetName (name : string) (k : Task)
| AddLine (line : string) (k : Task)
| AddFailure (context : string) (e : Thrown) (k : Task).

Definition dq : string := String "034" EmptyString.

(** [prev => [...prev.filter(preset => preset.name !== name), { name, data }]] *)
Definition put_preset (preset : Preset.t) (prev : list Preset.t)
  : list Preset.t :=
  List.filter (fun other => negb (String.eqb (Preset.name other)
                                   (Preset.name preset))) prev
  ++ [preset].

(** The end of [handleSavePreset] and of [handleImportPreset]: ask
    before replacing a preset of the same name, then store and select
    the new one. *)
Definition keep_preset (lib : Library) (preset : Preset.t) (done : string)
  : Task :=
  let store :=
    SetPresets (put_preset preset)
      (SetSelectedPresetName (Preset.name preset)
         (AddLine (done +:+ Preset.name preset) Finish)) in
  match find_preset (Preset.name preset) (presets lib) with
  | Some _ =>
      Ask ("A preset named " +:+ dq +:+ Preset.name preset +:+ dq
           +:+ " already exists. Replace it?")
        "Replace preset?"
        (fun overwrite => if negb overwrite then Finish else store)
  | None => store
  end.

(** The preset [handleSavePreset] makes of the form. *)
Definition form_preset (st : Dashboard) (name : string) : Preset.t :=
  {| Preset.name := name;
     Preset.data :=
       {| PresetData.appName := appName st;
          PresetData.version := version st;
          PresetData.publisher := publisher st;
          PresetData.description := description st;
          PresetData.advancedMode := advancedMode st;
          PresetData.payloadDir := Some (payloadDirValue st);
          PresetData.steps := uiStepsToPresetSteps (steps st) |} |}.

Definition handleSavePreset (st : Dashboard) (lib : Library) : Task :=
  let suggested :=
    match selectedPreset lib with
    | Some preset => Preset.name preset
    | None => EmptyString
    end in
  Prompt "Name this preset for the royal library." suggested
    (fun nameInput =>
       let name := trim (default EmptyString nameInput) in
       if is_empty name then Finish
       else keep_preset lib (form_preset st name) "Preset saved: ").

Definition handleDeletePreset (lib : Library) : Task :=
  match selectedPreset lib with
  | None => AddLine "No preset selected." Finish
  | Some selected =>
      if List.length (presets lib) <=? 1
      then AddLine "The library needs at least one preset." Finish
      else
        Ask ("Dismiss the preset " +:+ dq +:+ Preset.name selected +:+ dq
             +:+ " from the library?")
          "Delete preset?"
          (fun confirmDelete =>
             if negb confirmDelete then Finish
             else
               SetPresets
                 (List.filter (fun preset =>
                                 negb (String.eqb (Preset.name preset)
                                         (Preset.name selected))))
                 (AddLine ("Preset deleted: " +:+ Preset.name selected) Finish))
  end.

(** The text of a preset file read by [handleImportPreset]: [JSON.parse],
    the name check and [normalizePresetData], with what each may throw. *)
Definition read_preset (text : string) : Thrown + Preset.t :=
  match JSON_parse text with
  | None => inl SyntaxError
  | Some parsed =>
      let name := name_of parsed in
      if is_empty name then inl (Error_ "Preset name is missing.")
      else
        match normalizePresetData NumberToString (data_or_empty parsed) with
        | None => inl TypeError
        | Some data => inr {| Preset.name := name; Preset.data := data |}
        end
  end.

Definition handleImportPreset (lib : Library) : Task :=
  OpenFile
    (fun selected =>
       match selected with
       | None => Finish
       | Some path =>
           if is_empty path then Finish
           else
             Invoke_read_text_file path
               (fun r =>
                  match r with
                  | Rejected e =>
                      AddFailure "Preset import failed: " (Rejection e) Finish
                  | Resolved text =>
                      match read_preset text with
                      | inl e => AddFailure "Preset import failed: " e Finish
                      | inr preset => keep_preset lib preset "Preset imported: "
                      end
                  end)
       end).

(** [JSON.stringify({ name, data }, null, 2)], the text
    [handleExportPreset] writes, for the object [data] of the selected
    preset. *)
Definition preset_file_text (name : string) (data : json) : string :=
  JSON_stringify2 NumberToString (JObj [("name", JStr name); ("data", data)]).

(** Running a handler: the user's answers and the file system are the
    environment, the library is the state. *)
Record Desk : Type :=
  { typed : option string;                 (* the answer to [window.prompt] *)
    agreed : nat -> bool;                  (* the answer to the [n]-th [confirm] *)
    picked : option string;                (* the file chosen in the picker *)
    read_text_file : string -> Settled string }.

Inductive Noted : Type :=
| noted_prompt (suggested : string)
| noted_ask (title : string) (answer : bool)
| noted_line (line : string)
| noted_failure (context : string) (e : Thrown).

Fixpoint perform (d : Desk) (asked : nat) (lib : Library) (t : Task)
  : Library * list Noted :=
  match t with
  | Finish => (lib, [])
  | Prompt _ suggested k =>
      let '(lib', notes) := perform d asked lib (k (typed d)) in
      (lib', noted_prompt suggested :: notes)
  | Ask _ title k =>
      let '(lib', notes) := perform d (S asked) lib (k (agreed d asked)) in
      (lib', noted_ask title (agreed d asked) :: notes)
  | OpenFile k => perform d asked lib (k (picked d))
  | Invoke_read_text_file path k => perform d asked lib (k (read_text_file d path))
  | SetPresets update k =>
      perform d asked
        {| presets := update (presets lib);
           selectedPresetName := selectedPresetName lib |} k
  | SetSelectedPresetName name k =>
      perform d asked {| presets := presets lib; selectedPresetName := name |} k
  | AddLine line k =>
      let '(lib', notes) := perform d asked lib k in
      (lib', noted_line line :: notes)
  | AddFailure context e k =>
      let '(lib', notes) := perform d asked lib k in
      (lib', noted_failure context e :: notes)
  end.

(** *** Import warnings *)

(** [Object.entries(v)] for an object or an array. *)
Definition object_entries (v : json) : list (string * json) :=
  match v with
  | JObj props => props
  | JArr items => imap (fun i item => (pretty i, item)) items
  | _ => []
  end.

Definition is_string (v : json) : bool :=
  match v with JStr _ => true | _ => false end.

(** [step.type === 'patchBlock'] *)
Definition is_patchBlock (step : json) : bool :=
  match prop "type" step with
  | Some (JStr type) => String.eqb type "patchBlock"
  | _ => false
  end.

(** The callback of [installSteps.forEach] in
    [collectReplacementWarnings]: the warnings one step adds.  [None] is
    a [TypeError]: reading [type] of [null], or printing a [file] that
    has no usable [toString]. *)
Definition step_warnings (index : nat) (step : json) : option (list string) :=
  match step with
  | JNull => None
  | _ =>
      if negb (is_patchBlock step) then Some []
      else
        match prop "replacements" step with
        | Some ((JObj _ | JArr _) as replacements) =>
            mapM (fun kv =>
                    label ←
                      (if truthy NumberToString (prop "file" step)
                       then text ← ToString_or_empty NumberToString (prop "file" step);
                            Some (" for " +:+ text)
                       else Some EmptyString);
                    Some ("Replacement " +:+ dq +:+ fst kv +:+ dq +:+ label
                          +:+ " in patch decree " +:+ pretty (index + 1)
                          +:+ " was not a string and was converted."))
              (List.filter (fun kv => negb (is_string (snd kv)))
                 (object_entries replacements))
        | _ => Some []
        end
  end.

(** [collectReplacementWarnings(manifest)] on the value [JSON.parse]
    returned. *)
Definition collectReplacementWarnings (manifest : json) : option (list string) :=
  match prop "installSteps" manifest with
  | Some (JArr installSteps) =>
      lists ← mapM (fun x => x) (imap step_warnings installSteps);
      Some (concat lists)
  | _ => Some []
  end.

End Library.

(** *** Observations used to state properties of staging and export *)

(** The errors [addPayload] records. *)
Definition payload_error (e : string) : Prop :=
  e = "A payload path cannot be empty." \/ exists cleaned, e = claimed cleaned.

(** The staged name of the step does not hang on blanks around its
    source: the payload name is filled in, or the source has no blanks
    around it. *)
Definition source_tidy (s : UiStep) : Prop :=
  match fields s with
  | Copy c => trim (payloadRel c) <> EmptyString \/ trimmed (payloadSource c)
  | PatchBlock p => trim (contentRel p) <> EmptyString \/ trimmed (contentSource p)
  | Base64Embed b => trim (inputRel b) <> EmptyString \/ trimmed (inputSource b)
  | SetJsonValue _ | RunCommand _ => True
  end.

(** The value of the last row with key [k], if there is one. *)
Definition last_value (k : string) (pairs : list ReplacementPair) : option string :=
  fold_left (fun acc pair => if String.eqb (key pair) k then Some (value pair) else acc)
    pairs None.

(** The invariant of [payloadMap]: names are distinct, not empty and
    free of surrounding blanks, and each entry was handed in by a step
    seen so far. *)
Definition staged_well (seen : list UiStep) (m : list (string * string)) : Prop :=
  NoDup (List.map fst m)
  /\ Forall (fun e => fst e <> EmptyString /\ trimmed (fst e)
                      /\ exists step rel, In step seen
                           /\ payload_claim step = Some (rel, snd e)
                           /\ trim rel = fst e) m.


(** What one step adds to the exported manifest. *)
Definition exported_list (step : UiStep) : list InstallStep :=
  match export_step step with Some m => [m] | None => [] end.


(** The payload source of a step that has one, with its payload-relative
    name. *)
Definition payload_source (f : StepFields) : option (string * string) :=
  match f with
  | Copy c => Some (payloadSource c, payloadRel c)
  | PatchBlock p => Some (contentSource p, contentRel p)
  | Base64Embed b => Some (inputSource b, inputRel b)
  | SetJsonValue _ | RunCommand _ => None
  end.

(** *** Observations used to state properties of the preset library *)

(** The libraries the handlers may be started on, and must leave. *)
Definition orderly (lib : Library) : Prop :=
  presets lib <> [] /\ NoDup (List.map Preset.name (presets lib)).


(** *** Observations used to state properties of the import warnings *)

(** The [installSteps] array of a parsed manifest. *)
Definition manifest_steps (manifest : json) : list json :=
  match prop "installSteps" manifest with
  | Some (JArr installSteps) => installSteps
  | _ => []
  end.

(** The replacement values of a step that [manifestStepToUi] converts
    with [String]: those of a [patchBlock] step that are no strings. *)
Definition converted (step : json) : nat :=
  if is_patchBlock step then
    match prop "replacements" step with
    | Some ((JObj _ | JArr _) as replacements) =>
        List.length (List.filter (fun kv => negb (is_string (snd kv)))
                       (object_entries replacements))
    | _ => 0
    end
  else 0.

(** *** Observations used to state the round trip of preset files *)

(** Values as the application writes them into a preset file: strings,
    booleans, [null], arrays and objects, without numbers; the keys of
    an object are distinct and none is an array index. *)
Fixpoint written (v : json) : bool :=
  match v with
  | JNum _ => false
  | JArr items => forallb written items
  | JObj props =>
      bool_decide (NoDup (List.map fst props))
      && forallb (fun kv => match array_index (fst kv) with
                            | None => written (snd kv)
                            | Some _ => false
                            end) props
  | JNull | JBool _ | JStr _ => true
  end.

(** A bound on the depth of calls [JSON.parse] needs for the text of a
    value. *)
Fixpoint weight (v : json) : nat :=
  match v with
  | JArr items => S (list_sum (List.map (fun item => S (weight item)) items))
  | JObj props => S (list_sum (List.map (fun kv => S (weight (snd kv))) props))
  | JNull | JBool _ | JNum _ | JStr _ => 1
  end.

(** The text opens a printed value: its first character is no white space
    and closes neither an array nor an object. *)
Definition opens (s : string) : Prop :=
  exists c t, s = String c t /\ is_json_ws c = false
              /\ Ascii.eqb c "]" = false /\ Ascii.eqb c "}" = false.

(** The printed text of a value reads back as the value, whatever
    follows it. *)
Definition reads_back (NumberToString : string -> string) (v : json) : Prop :=
  written v = true ->
  forall indent rest fuel,
    all_chars is_json_ws indent = true -> weight v <= fuel ->
    parse_value fuel (stringify NumberToString indent v +:+ rest) = Some (v, rest).

(** An element of a printed array and a member of a printed object, at
    their indentation. *)
Definition item_text (NumberToString : string -> string) (indent : string)
    (item : json) : string :=
  indent +:+ stringify NumberToString indent item.

Definition member_text (NumberToString : string -> string) (indent : string)
    (kv : string * json) : string :=
  indent +:+ quote (fst kv) +:+ ": " +:+ stringify NumberToString indent (snd kv).

End Studio.

(** ** The Installer component ([components/Installer.tsx]) *)

Module Installer.
Import Text Js.

(** [InstallStep]: a type tag and arbitrary further properties. *)
Record InstallStep : Type :=
  { type : string; props : list (string * json) }.

Record InstallManifest : Type :=
  { appName : string; version : string; publisher : string;
    description : string; logoPath : option string;
    advancedMode : option bool; targets : list string;
    payloadDir : string; installSteps : list InstallStep }.

Inductive Status : Type :=
| loading | ready | installing | complete | failed.   (* 'error' *)

(** [handleInstall] as the tree of its interactions.  [AddLog msg] is
    [addLog(msg)], which stamps the line with the time of day. *)
Inductive Proc : Type :=
| Return
| SetStatus (s : Status) (k : Proc)
| SetErrorMsg (msg : string) (k : Proc)
| AddLog (msg : string) (k : Proc)
| Confirm (message title : string) (k : bool -> Proc)
| Invoke_run_install (manifest : InstallManifest) (k : Settled unit -> Proc).

(** [commandSteps.map(step => step.command).filter(cmd => typeof cmd ===
    'string' && cmd.trim().length > 0)] *)
Definition command_texts (commandSteps : list InstallStep) : list string :=
  omap (fun step =>
          match get "command" (props step) with
          | Some (JStr cmd) =>
              if 0 <? String.length (trim cmd) then Some cmd else None
          | _ => None
          end) commandSteps.

Definition commands_summary (commandSteps : list InstallStep) : string :=
  let commands := command_texts commandSteps in
  let sample := firstn 5 commands in
  let extra :=
    if 5 <? List.length commands
    then lf +:+ "...and " +:+ pretty (List.length commands - 5) +:+ " more"
    else EmptyString in
  match sample with
  | [] => EmptyString
  | _ => lf +:+ join lf sample +:+ extra
  end.

Definition enact (manifest : InstallManifest) : Proc :=
  SetStatus installing
    (AddLog "Enacting installation..."
       (Invoke_run_install manifest
          (fun r =>
             match r with
             | Resolved _ => SetStatus complete (AddLog "Decree enacted." Return)
             | Rejected e =>
                 SetStatus failed
                   (SetErrorMsg ("Enactment failed: " +:+ e)
                      (AddLog ("Error: " +:+ e) Return))
             end))).

(** [handleInstall]; the argument is the [manifest] state cell ([None]
    while no manifest is loaded). *)
Definition handleInstall (manifest : option InstallManifest) : Proc :=
  match manifest with
  | None => Return
  | Some manifest =>
      let commandSteps :=
        List.filter (fun step => String.eqb (type step) "runCommand")
          (installSteps manifest) in
      if 0 <? List.length commandSteps then
        Confirm
          ("This installer will run system commands."
           +:+ commands_summary commandSteps +:+ lf +:+ lf +:+ "Continue?")
          "Run commands?"
          (fun proceed =>
             if negb proceed
             then AddLog "Installation cancelled by user." Return
             else enact manifest)
      else enact manifest
  end.

Inductive Event : Type :=
| did_setStatus (s : Status)
| did_setErrorMsg (msg : string)
| did_addLog (msg : string)
| did_confirm (title : string) (answer : bool)
| did_run_install (manifest : InstallManifest).

Record World : Type :=
  { run_install : InstallManifest -> Settled unit;
    answer : nat -> bool }.

Fixpoint run (w : World) (asked : nat) (p : Proc) : list Event :=
  match p with
  | Return => []
  | SetStatus s k => did_setStatus s :: run w asked k
  | SetErrorMsg msg k => did_setErrorMsg msg :: run w asked k
  | AddLog msg k => did_addLog msg :: run w asked k
  | Confirm _ title k =>
      did_confirm title (answer w asked) :: run w (S asked) (k (answer w asked))
  | Invoke_run_install m k =>
      did_run_install m :: run w asked (k (run_install w m))
  end.

Definition installs (trace : list Event) : list InstallManifest :=
  omap (fun e => match e with did_run_install m => Some m | _ => None end) trace.

(** The values [setStatus] is called with, in order. *)
Definition statuses (trace : list Event) : list Status :=
  omap (fun e => match e with did_setStatus s => Some s | _ => None end) trace.

Definition confirmations (trace : list Event) : list (string * bool) :=
  omap (fun e => match e with did_confirm t a => Some (t, a) | _ => None end) trace.

End Installer.

(** ** Sample data for the examples *)

Module Samples.
Import Text Js.

Module Install.
Import Installer.

Definition sample_manifest : InstallManifest :=
  {| appName := "Misfit Vibe Installer"; version := "1.0.0";
     publisher := "MisfitSanctuary.Art"; description := "";
     logoPath := None; advancedMode := None; targets := [];
     payloadDir := "payload";
     installSteps :=
       [ {| type := "copy"; props := [("src", JStr "a"); ("dest", JStr "b")] |};
         {| type := "runCommand";
            props := [("command", JStr "code"); ("args", JArr [JStr "--version"])] |} ] |}.

Definition declining : World :=
  {| run_install := fun _ => Resolved tt; answer := fun _ => false |}.

End Install.

Module Presets.
Import Studio.

(** A stand-in for [Number::toString] in closed examples: it prints a
    literal as written, which is what JavaScript prints for a plain
    decimal integer below 2^53 without sign or leading zeros; the
    examples hold no other number. *)
Definition literal_text (lit : string) : string := lit.

(** [{"steps": [{"type": "copy", "src": {"toString": 1}}]}] *)
Definition hostile_preset : json :=
  JObj [("steps",
         JArr [JObj [("type", JStr "copy");
                     ("src", JObj [("toString", JNum (Num "1"))])]])].

(** [{"appName": 7, "steps": [3, {"type": "copy", "src": "a.css"},
      {"type": "wipe"}, null, {"type": "runCommand", "args": ["-v", 2]}]}] *)
Definition untidy_preset : json :=
  JObj [("appName", JNum (Num "7"));
        ("steps",
         JArr [JNum (Num "3");
               JObj [("type", JStr "copy"); ("src", JStr "a.css")];
               JObj [("type", JStr "wipe")];
               JNull;
               JObj [("type", JStr "runCommand");
                     ("args", JArr [JStr "-v"; JNum (Num "2")])]])].

End Presets.

Module Forge.
Import Studio Presets.

Definition studio (l : list UiStep) : Dashboard :=
  {| projectName := "MyNewInstaller"; appName := "My App"; version := "1.0.0";
     publisher := "Misfit"; description := "Created with Misfit Studio";
     advancedMode := false; payloadDir := "payloads"; steps := l |}.

Definition copy_step (i source rel dest : string) : UiStep :=
  {| id := i; enabled := true;
     fields := Copy {| payloadSource := source; payloadRel := rel; dest := dest |} |}.

Definition json_step (i file keyPath : string) (vt : ValueType) (raw : string)
  : UiStep :=
  {| id := i; enabled := true;
     fields := SetJsonValue
       {| json_file := file; keyPath := keyPath; valueType := vt;
          valueRaw := raw; valueBool := false |} |}.

(** Two copy decrees that stage different files under one name. *)
Definition colliding : Dashboard :=
  studio [copy_step "1" "C:\themes\a.css" "a.css" "themes/a.css";
          copy_step "2" "C:\other\a.css" "a.css" "other/a.css"].

(** Two copy decrees whose sources end in a folder named by one blank. *)
Definition blank_names : Dashboard :=
  studio [copy_step "1" "/a/ /" "" "out/a"; copy_step "2" "/b/ /" "" "out/b"].

(** A number decree whose value is not a number. *)
Definition bad_number : Dashboard :=
  studio [json_step "1" "out/settings.json" "fontSize" vt_number "large"].

(** The number decree of [bad_number], switched off. *)
Definition idle_number : Dashboard :=
  studio [{| id := "1"; enabled := false;
             fields := SetJsonValue
               {| json_file := "out/settings.json"; keyPath := "fontSize";
                  valueType := vt_number; valueRaw := "large";
                  valueBool := false |} |}].

(** A JSON decree whose value does not parse. *)
Definition bad_json : Dashboard :=
  studio [json_step "1" "out/settings.json" "colors" vt_json "{oops"].


Definition one_copy : Dashboard :=
  studio [copy_step "1" "C:\themes\a.css" "a.css" "themes/a.css"].

(** An unrelated absolute folder stands at the output path; the user
    accepts the first dialog and declines the second. *)
Definition unmarked_target : BuildTargetInfo :=
  {| path := "C:\work"; exists_ := true; hasMarker := false; isAbsolute := true |}.

Definition hesitant : World :=
  {| inspect_build_target := fun _ => Resolved unmarked_target;
     build_project := fun _ => Resolved "C:\work";
     answer := fun n => Nat.eqb n 0 |}.

(** The same folder, with a user who accepts every dialog. *)
Definition resolute : World :=
  {| inspect_build_target := fun _ => Resolved unmarked_target;
     build_project := fun _ => Resolved "C:\work";
     answer := fun _ => true |}.

(** Nothing stands at the output path. *)
Definition vacant_target : BuildTargetInfo :=
  {| path := "C:\work"; exists_ := false; hasMarker := false; isAbsolute := true |}.

Definition unhindered : World :=
  {| inspect_build_target := fun _ => Resolved vacant_target;
     build_project := fun _ => Resolved "C:\work";
     answer := fun _ => false |}.

(** Identifiers for imported steps, in place of [makeId]'s random ones. *)
Definition numbered (i : nat) : string := "step-" +:+ pretty i.

(** A manifest without [advancedMode] whose copy decrees name an absolute
    path and a path that climbs out of the payload folder. *)
Definition escaping_manifest : InstallManifest.t :=
  {| InstallManifest.appName := "My App"; InstallManifest.version := "1.0.0";
     InstallManifest.publisher := "Misfit"; InstallManifest.description := "";
     InstallManifest.advancedMode := false; InstallManifest.targets := [];
     InstallManifest.payloadDir := "payloads";
     InstallManifest.installSteps :=
       [step_copy (Some "/etc/passwd") (Some "out/passwd");
        step_copy (Some "../secret.txt") (Some "out/secret.txt")] |}.


Definition command_step (i command args : string) : UiStep :=
  {| id := i; enabled := true;
     fields := RunCommand {| command := command; args := args |} |}.

(** Three decrees as authored in the form: a picked file, a switched-off
    decree, and a JSON value typed as text [true]. *)
Definition authored : Dashboard :=
  studio [copy_step "1" "C:\themes\a.css" "a.css" "themes/a.css";
          {| id := "2"; enabled := false;
             fields := Copy {| payloadSource := "C:\themes\b.css";
                               payloadRel := "b.css"; dest := "themes/b.css" |} |};
          json_step "3" "settings.json" "editor.minimap" vt_json "true"].

(** Decrees with nothing left to tidy. *)
Definition tidy : Dashboard :=
  studio [copy_step "1" "C:\themes\a.css" "a.css" "themes/a.css";
          json_step "2" "settings.json" "theme" vt_string "dark";
          command_step "3" "code" "--install-extension, misfit.vsix"].

End Forge.

End Samples.

(** ** Sample data for the preset library *)

Module Shelf.
Import Text Js Studio Samples.Presets Samples.Forge.

(** The library as it starts, with the last built-in preset selected. *)
Definition shelf : Library :=
  {| presets := createDefaultPresets literal_text numbered;
     selectedPresetName := "Custom" |}.

(** A user who types a name, agrees to everything and picks no file. *)
Definition desk : Desk :=
  {| typed := Some " Night shift ";
     agreed := fun _ => true;
     picked := None;
     read_text_file := fun _ => Rejected "no such file" |}.

(** A parsed manifest whose patch decree has a number among its
    replacement values. *)
Definition parsed_manifest : json :=
  JObj [("installSteps",
         JArr [JObj [("type", JStr "copy"); ("src", JNum (Num "1"))];
               JObj [("type", JStr "patchBlock"); ("file", JStr "a.css");
                     ("replacements",
                      JObj [("{{size}}", JNum (Num "12"));
                            ("{{font}}", JStr "Fira")])]])].

Definition size_warning : string :=
  "Replacement " +:+ dq +:+ "{{size}}" +:+ dq
  +:+ " for a.css in patch decree 2 was not a string and was converted.".

(** The data of a preset as the library holds it, and the object it is. *)
Definition night_data : PresetData.t :=
  {| PresetData.appName := "My App"; PresetData.version := "1.0.0";
     PresetData.publisher := "Misfit"; PresetData.description := "";
     PresetData.advancedMode := true; PresetData.payloadDir := None;
     PresetData.steps :=
       [{| preset_enabled := false;
           preset_fields := RunCommand {| command := "code"; args := "-v" |} |}] |}.

Definition night_object : json :=
  JObj [("appName", JStr "My App"); ("version", JStr "1.0.0");
        ("publisher", JStr "Misfit"); ("description", JStr "");
        ("advancedMode", JBool true);
        ("steps",
         JArr [JObj [("type", JStr "runCommand"); ("enabled", JBool false);
                     ("command", JStr "code"); ("args", JStr "-v")]])].

End Shelf.
(* ===================================================================== *)
(** * Part II: theorems                                                   *)
(* ===================================================================== *)

#[local] Arguments String.append !s1 s2 : simpl nomatch.

(** ** Facts about texts *)

Module TextFacts.
Import Text.

Lemma append_assoc (a b c : string) : (a +:+ b) +:+ c = a +:+ (b +:+ c).
Proof. induction a as [|x a IH]; simpl; [reflexivity | now rewrite IH]. Qed.

Lemma append_nil_r (s : string) : s +:+ "" = s.
Proof. induction s as [|x s IH]; simpl; [reflexivity | now rewrite IH]. Qed.

Lemma length_append (a b : string) :
String.length (a +:+ b) = String.length a + String.length b.
Proof. induction a as [|x a IH]; simpl; [reflexivity | now rewrite IH]. Qed.

Lemma append_inv_head (a b c : string) : a +:+ b = a +:+ c -> b = c.
Proof. induction a as [|x a IH]; simpl; intros H; [exact H | injection H; auto]. Qed.

Lemma prefix_append (p t : string) : String.prefix p (p +:+ t) = true.
Proof.
induction p as [|x p IH]; simpl.
- now destruct t.
- destruct (ascii_dec x x); [exact IH | congruence].
Qed.

Lemma prefix_inv (p s : string) :
String.prefix p s = true -> exists t, s = p +:+ t.
Proof.
revert s; induction p as [|x p IH]; intros s H.
- exists s; reflexivity.
- destruct s as [|y s]; simpl in H; [discriminate |].
  destruct (ascii_dec x y) as [->|]; [| discriminate].
  destruct (IH _ H) as [t ->]. now exists t.
Qed.

Lemma prefix_iff (p s : string) :
String.prefix p s = true <-> exists t, s = p +:+ t.
Proof.
split; [apply prefix_inv | intros [t ->]; apply prefix_append].
Qed.

Lemma drop_append (p t : string) : drop (String.length p) (p +:+ t) = t.
Proof. induction p as [|x p IH]; simpl; [now destruct t | exact IH]. Qed.


Lemma prefix_shorter (pat u z : string) :
String.prefix pat (u +:+ z) = true ->
String.length pat <= String.length u ->
String.prefix pat u = true.
Proof.
revert pat; induction u as [|d u IH]; intros pat H Hlen.
- destruct pat; [reflexivity | simpl in Hlen; lia].
- destruct pat as [|e pat]; [reflexivity |].
  simpl in H |- *. destruct (ascii_dec e d); [| discriminate].
  apply IH; [exact H | simpl in Hlen; lia].
Qed.

(** A pattern that lacks the character [c] cannot straddle it. *)
Lemma prefix_no_straddle (pat a b : string) (c : ascii) :
mem_char c pat = false ->
String.prefix pat (a +:+ String c b) = true ->
String.prefix pat a = true.
Proof.
revert pat; induction a as [|d a IH]; intros pat Hc H.
- destruct pat as [|e pat]; [reflexivity |].
  simpl in H, Hc. destruct (ascii_dec e c) as [->|]; [| discriminate].
  now rewrite Ascii.eqb_refl in Hc.
- destruct pat as [|e pat]; [reflexivity |].
  simpl in H, Hc |- *. destruct (ascii_dec e d); [| discriminate].
  destruct (Ascii.eqb c e); [discriminate |]. now apply IH.
Qed.

#[local] Arguments split_at_first : simpl never.
#[local] Arguments String.prefix : simpl never.

Lemma split_at_first_eq (pat s : string) :
split_at_first pat s =
if String.prefix pat s then Some (EmptyString, drop (String.length pat) s)
else match s with
     | EmptyString => None
     | String c t =>
         match split_at_first pat t with
         | Some (before, after) => Some (String c before, after)
         | None => None
         end
     end.
Proof. destruct s; reflexivity. Qed.


Lemma split_at_first_sound (pat s a b : string) :
split_at_first pat s = Some (a, b) -> s = a +:+ pat +:+ b.
Proof.
revert a b; induction s as [|c s IH]; intros a b; rewrite split_at_first_eq.
- destruct (String.prefix pat "") eqn:Hp; [| discriminate].
  intros [= <- <-]. destruct (prefix_inv _ _ Hp) as [t Ht].
  destruct pat; [reflexivity | discriminate].
- destruct (String.prefix pat (String c s)) eqn:Hp.
  + intros [= <- <-]. destruct (prefix_inv _ _ Hp) as [t Ht].
    rewrite Ht, drop_append. reflexivity.
  + destruct (split_at_first pat s) as [[x y]|] eqn:Hs; [| discriminate].
    intros [= <- <-]. simpl. f_equal. now apply IH.
Qed.

Lemma split_at_first_complete (pat s : string) :
split_at_first pat s = None -> forall a b, s <> a +:+ pat +:+ b.
Proof.
induction s as [|c s IH]; rewrite split_at_first_eq.
- destruct (String.prefix pat "") eqn:Hp; [discriminate |].
  intros _ a b H. destruct a; [| discriminate]. simpl in H.
  rewrite H in Hp. now rewrite prefix_append in Hp.
- destruct (String.prefix pat (String c s)) eqn:Hp; [discriminate |].
  destruct (split_at_first pat s) as [[x y]|] eqn:Hs; [discriminate |].
  intros _ a b H. destruct a as [|d a]; simpl in H.
  + rewrite H in Hp. now rewrite prefix_append in Hp.
  + injection H as -> H. now apply (IH eq_refl a b).
Qed.

Lemma split_at_first_leftmost (pat s a b : string) :
split_at_first pat s = Some (a, b) ->
forall a' b', s = a' +:+ pat +:+ b' -> String.length a <= String.length a'.
Proof.
revert a b; induction s as [|c s IH]; intros a b; rewrite split_at_first_eq.
- destruct (String.prefix pat ""); [| discriminate].
  intros [= <- <-] a' b' _. simpl. lia.
- destruct (String.prefix pat (String c s)) eqn:Hp.
  + intros [= <- <-] a' b' _. simpl. lia.
  + destruct (split_at_first pat s) as [[x y]|] eqn:Hs; [| discriminate].
    intros [= <- <-] a' b' H. destruct a' as [|d a']; simpl in H.
    * rewrite H in Hp. now rewrite prefix_append in Hp.
    * injection H as -> H. simpl. specialize (IH _ _ eq_refl _ _ H). lia.
Qed.

Lemma contains_iff (pat s : string) :
contains pat s = true <-> exists a b, s = a +:+ pat +:+ b.
Proof.
unfold contains. destruct (split_at_first pat s) as [[a b]|] eqn:H.
- split; [intros _ | reflexivity]. exists a, b. now apply split_at_first_sound.
- split; [discriminate |]. intros (a & b & Hab).
  exfalso. exact (split_at_first_complete _ _ H a b Hab).
Qed.

Lemma contains_false_iff (pat s : string) :
contains pat s = false <-> forall a b, s <> a +:+ pat +:+ b.
Proof.
split.
- intros H a b Hs. assert (contains pat s = true) by (apply contains_iff; eauto).
  congruence.
- intros H. destruct (contains pat s) eqn:Hc; [| reflexivity].
  apply contains_iff in Hc as (a & b & Hab). now destruct (H a b).
Qed.

Lemma split_at_first_append (pat s z a b : string) :
split_at_first pat s = Some (a, b) ->
split_at_first pat (s +:+ z) = Some (a, b +:+ z).
Proof.
revert a b; induction s as [|c s IH]; intros a b; rewrite split_at_first_eq.
- destruct (String.prefix pat "") eqn:Hp; [| discriminate].
  intros [= <- <-]. destruct pat; [| now destruct (prefix_inv _ _ Hp)].
  simpl. now destruct z.
- destruct (String.prefix pat (String c s)) eqn:Hp.
  + intros [= <- <-]. destruct (prefix_inv _ _ Hp) as [t Ht].
    rewrite split_at_first_eq.
    rewrite Ht, append_assoc, prefix_append, !drop_append. reflexivity.
  + destruct (split_at_first pat s) as [[x y]|] eqn:Hs; [| discriminate].
    intros [= <- <-]. rewrite split_at_first_eq.
    destruct (String.prefix pat (String c s +:+ z)) eqn:Hp'.
    * exfalso. apply split_at_first_sound in Hs.
      assert (Hlen : String.length pat <= String.length (String c s)).
      { rewrite Hs. simpl. rewrite !length_append. lia. }
      rewrite (prefix_shorter _ _ _ Hp' Hlen) in Hp. discriminate.
    * simpl. now rewrite (IH _ _ eq_refl).
Qed.


Lemma split_at_first_skip (pat a b : string) (c : ascii) :
mem_char c pat = false ->
contains pat a = false ->
split_at_first pat (a +:+ String c b) =
match split_at_first pat b with
| Some (x, y) => Some (a +:+ String c x, y)
| None => None
end.
Proof.
intros Hc. induction a as [|d a IH]; intros Ha.
- simpl. rewrite split_at_first_eq.
  destruct (String.prefix pat (String c b)) eqn:Hp.
  + exfalso. apply (prefix_no_straddle pat "" b c Hc) in Hp.
    unfold contains in Ha. rewrite split_at_first_eq, Hp in Ha. discriminate.
  + now destruct (split_at_first pat b) as [[x y]|].
- unfold contains in Ha. rewrite split_at_first_eq in Ha.
  destruct (String.prefix pat (String d a)) eqn:Hp; [discriminate |].
  rewrite split_at_first_eq.
  destruct (String.prefix pat (String d a +:+ String c b)) eqn:Hp'.
  + apply (prefix_no_straddle pat (String d a) b c Hc) in Hp'. congruence.
  + simpl. rewrite IH.
    * now destruct (split_at_first pat b) as [[x y]|].
    * unfold contains. now destruct (split_at_first pat a) as [[? ?]|].
Qed.

Lemma lower_append (a b : string) : lower (a +:+ b) = lower a +:+ lower b.
Proof. induction a as [|x a IH]; simpl; [reflexivity | now rewrite IH]. Qed.

Lemma contains_lower (pat s : string) :
contains pat s = true -> contains (lower pat) (lower s) = true.
Proof.
rewrite !contains_iff. intros (a & b & ->).
exists (lower a), (lower b). now rewrite !lower_append.
Qed.

End TextFacts.

(** ** Facts about the marker patchers *)

Module PatchFacts.
Import Text Patch TextFacts.
#[local] Arguments split_at_first : simpl never.
#[local] Arguments String.prefix : simpl never.

Lemma contains_cons (pat : string) (c : ascii) (t : string) :
contains pat (String c t) = String.prefix pat (String c t) || contains pat t.
Proof.
unfold contains. rewrite split_at_first_eq.
destruct (String.prefix pat (String c t)); [reflexivity |].
now destruct (split_at_first pat t) as [[? ?]|].
Qed.

Lemma contains_empty_text (pat : string) :
pat <> EmptyString -> contains pat EmptyString = false.
Proof. destruct pat; [congruence | reflexivity]. Qed.

Lemma prefix_head_absent (pat : string) (c : ascii) (t : string) :
pat <> EmptyString -> mem_char c pat = false ->
String.prefix pat (String c t) = false.
Proof.
intros Hne Hc. destruct pat as [|e pat]; [congruence |].
unfold String.prefix; fold String.prefix.
simpl in Hc. destruct (ascii_dec e c) as [->|]; [| reflexivity].
now rewrite Ascii.eqb_refl in Hc.
Qed.

Lemma lines_nil (t : string) : lines t = [] -> t = EmptyString.
Proof.
destruct t as [|c t]; [reflexivity |]. simpl.
destruct (Ascii.eqb c LF); [discriminate |]. now destruct (lines t).
Qed.

Lemma lines_first (t l : string) (ls : list string) :
lines t = l :: ls ->
t = l \/ exists r, t = l +:+ String LF r.
Proof.
revert l ls; induction t as [|c t IH]; intros l ls; simpl; [discriminate |].
destruct (Ascii.eqb c LF) eqn:Hc.
- apply Ascii.eqb_eq in Hc as ->. intros [= <- <-]. right. now exists t.
- destruct (lines t) as [|l' ls'] eqn:Hl.
  + intros [= <- <-]. left. now rewrite (lines_nil _ Hl).
  + intros [= <- <-]. destruct (IH _ _ eq_refl) as [->|[r ->]].
    * now left.
    * right. now exists r.
Qed.

Lemma grep_lines_contains (pat file : string) :
pat <> EmptyString -> mem_char LF pat = false ->
existsb (contains pat) (lines file) = contains pat file.
Proof.
intros Hne Hlf. induction file as [|c t IH]; simpl.
- now rewrite contains_empty_text.
- rewrite contains_cons. destruct (Ascii.eqb c LF) eqn:Hc.
  + apply Ascii.eqb_eq in Hc as ->. simpl.
    now rewrite contains_empty_text, prefix_head_absent, IH.
  + destruct (lines t) as [|l ls] eqn:Hl.
    * rewrite (lines_nil _ Hl). simpl. now rewrite contains_cons, orb_false_r.
    * simpl in IH |- *. rewrite <- IH, contains_cons, <- orb_assoc. f_equal.
      destruct (lines_first _ _ _ Hl) as [->|[r ->]]; [reflexivity |].
      destruct (String.prefix pat (String c l)) eqn:Hp.
      -- symmetry. apply prefix_inv in Hp as [u Hu].
         change (String c (l +:+ String LF r)) with (String c l +:+ String LF r).
         rewrite Hu, append_assoc. apply prefix_append.
      -- destruct (String.prefix pat (String c (l +:+ String LF r))) eqn:Hp';
           [| reflexivity].
         apply (prefix_no_straddle pat (String c l) r LF Hlf) in Hp'. congruence.
Qed.

Lemma fields_single (pat : string) :
mem_char LF pat = false -> fields pat = [pat].
Proof.
induction pat as [|c pat IH]; cbn [mem_char fields]; [reflexivity |].
rewrite (Ascii.eqb_sym c LF).
destruct (Ascii.eqb LF c); [discriminate |]. intros H. now rewrite (IH H).
Qed.

(** On a single-line, non-empty marker, [grep -qF] is substring search. *)
Lemma grep_qF_contains (pat file : string) :
pat <> EmptyString -> mem_char LF pat = false ->
grep_qF pat file = contains pat file.
Proof.
intros Hne Hlf. unfold grep_qF. rewrite (fields_single _ Hlf).
rewrite <- (grep_lines_contains pat file Hne Hlf).
set (F := fun line => existsb (fun p => contains p line) [pat]).
induction (lines file) as [|l ls IH]; [reflexivity |].
change (F l || existsb F ls = contains pat l || existsb (contains pat) ls).
rewrite IH. unfold F. simpl. now rewrite orb_false_r.
Qed.

Lemma regex_first_sound (s e x pre m post : string) :
regex_first s e x = Some (pre, m, post) ->
exists mid rest,
  split_at_first s x = Some (pre, rest) /\
  split_at_first e rest = Some (mid, post) /\
  m = s +:+ mid +:+ e /\ x = pre +:+ m +:+ post.
Proof.
unfold regex_first.
destruct (split_at_first s x) as [[pre' rest]|] eqn:H1; [| discriminate].
destruct (split_at_first e rest) as [[mid post']|] eqn:H2; [| discriminate].
intros [= <- <- <-]. exists mid, rest.
split; [reflexivity |]. split; [exact H2 |]. split; [reflexivity |].
apply split_at_first_sound in H1, H2. subst.
now rewrite !append_assoc.
Qed.

Lemma regex_first_length (s e x pre m post : string) :
regex_first s e x = Some (pre, m, post) ->
String.length x = String.length pre + String.length m + String.length post.
Proof.
intros H. apply regex_first_sound in H as (mid & rest & _ & _ & _ & ->).
rewrite !length_append. lia.
Qed.

Lemma regex_replace_fuel_enough (s e b : string) (n m : nat) (x : string) :
String.length x < n -> String.length x < m ->
regex_replace_fuel n s e b x = regex_replace_fuel m s e b x.
Proof.
revert m x; induction n as [|n IH]; intros m x Hn Hm; [lia |].
destruct m as [|m]; [lia |]. simpl.
destruct (regex_first s e x) as [[[pre mt] post]|] eqn:Hr; [| reflexivity].
apply regex_first_length in Hr. f_equal. f_equal.
destruct mt as [|c mt].
- destruct post as [|d post]; [reflexivity |]. f_equal.
  simpl in Hr. apply IH; lia.
- simpl in Hr. apply IH; lia.
Qed.

(** The unfolding equation of [regex_replace_all]: the fuel never runs out. *)
Lemma regex_replace_all_eq (s e b x : string) :
regex_replace_all s e b x =
match regex_first s e x with
| None => x
| Some (pre, matched, post) =>
    pre +:+ b +:+
      match matched with
      | EmptyString =>
          match post with
          | EmptyString => EmptyString
          | String c t => String c (regex_replace_all s e b t)
          end
      | String _ _ => regex_replace_all s e b post
      end
end.
Proof.
unfold regex_replace_all at 1. simpl.
destruct (regex_first s e x) as [[[pre mt] post]|] eqn:Hr; [| reflexivity].
apply regex_first_length in Hr. f_equal. f_equal.
destruct mt as [|c mt].
- destruct post as [|d post]; [reflexivity |]. f_equal.
  simpl in Hr. apply regex_replace_fuel_enough; lia.
- simpl in Hr. apply regex_replace_fuel_enough; lia.
Qed.


Lemma suffix_of_longer (u r v tail : string) :
u +:+ r = v +:+ tail -> String.length u <= String.length v ->
exists w, r = w +:+ tail.
Proof.
revert v; induction u as [|c u IH]; intros v H Hlen.
- exists v. exact H.
- destruct v as [|d v]; [simpl in Hlen; lia |].
  simpl in H. injection H as _ H. apply (IH v H). simpl in Hlen. lia.
Qed.

(** Any occurrence of the start marker that is followed by an end marker
  makes the pattern match. *)
Lemma regex_first_exists (s e x a m p : string) :
x = a +:+ s +:+ m +:+ e +:+ p ->
exists pre matched post, regex_first s e x = Some (pre, matched, post).
Proof.
intros Hx. unfold regex_first.
destruct (split_at_first s x) as [[pre rest]|] eqn:H1.
- pose proof (split_at_first_leftmost _ _ _ _ H1 _ _ Hx) as Hlen.
  apply split_at_first_sound in H1. rewrite Hx in H1.
  assert (Hsuf : exists w, rest = w +:+ e +:+ p).
  { destruct (suffix_of_longer (pre +:+ s) rest (a +:+ s +:+ m) (e +:+ p)) as [w Hw].
    - rewrite !append_assoc. now rewrite <- H1.
    - rewrite !length_append. lia.
    - now exists w. }
  destruct Hsuf as [w ->].
  destruct (split_at_first e (w +:+ e +:+ p)) as [[mid post]|] eqn:H2; [eauto |].
  exfalso. exact (split_at_first_complete _ _ H2 w p eq_refl).
- exfalso. exact (split_at_first_complete _ _ H1 a _ Hx).
Qed.

Lemma regex_first_contains (s e x pre m post : string) :
regex_first s e x = Some (pre, m, post) -> contains s x = true.
Proof.
unfold regex_first, contains.
now destruct (split_at_first s x) as [[? ?]|].
Qed.

Lemma regex_first_absent (s e x : string) :
contains s x = false -> regex_first s e x = None.
Proof.
unfold regex_first, contains.
now destruct (split_at_first s x) as [[? ?]|].
Qed.

Lemma regex_first_ps_match (s e x pre m post : string) :
regex_first s e x = Some (pre, m, post) -> ps_match s e x = true.
Proof.
intros H. apply regex_first_sound in H as (mid & rest & _ & _ & -> & ->).
unfold ps_match.
destruct (regex_first_exists (lower s) (lower e)
            (lower (pre +:+ (s +:+ mid +:+ e) +:+ post))
            (lower pre) (lower mid) (lower post)) as (a & b & c & ->);
  [| reflexivity].
now rewrite !lower_append, !append_assoc.
Qed.

Lemma contains_lower_absent (pat s : string) :
contains (lower pat) (lower s) = false -> contains pat s = false.
Proof.
intros H. destruct (contains pat s) eqn:Hc; [| reflexivity].
apply contains_lower in Hc. congruence.
Qed.

(** The match inside text appended after marker-free text. *)
Lemma regex_first_after (s e file block z pre m post : string) (c : ascii) :
mem_char c s = false -> contains s file = false ->
regex_first s e block = Some (pre, m, post) ->
regex_first s e (file +:+ String c (block +:+ z)) =
Some (file +:+ String c pre, m, post +:+ z).
Proof.
intros Hc Hf H. apply regex_first_sound in H as (mid & rest & H1 & H2 & -> & _).
unfold regex_first. rewrite (split_at_first_skip _ _ _ _ Hc Hf).
rewrite (split_at_first_append _ _ z _ _ H1).
now rewrite (split_at_first_append _ _ z _ _ H2).
Qed.

(** Text that lacks the start marker, closed by a character the marker
    does not have, can be skipped when looking for a block. *)
Lemma regex_first_skip (s e file x : string) (c : ascii) :
mem_char c s = false -> contains s file = false ->
regex_first s e (file +:+ String c x) =
match regex_first s e x with
| Some (pre, m, post) => Some (file +:+ String c pre, m, post)
| None => None
end.
Proof.
intros Hc Hf. unfold regex_first. rewrite (split_at_first_skip _ _ _ _ Hc Hf).
destruct (split_at_first s x) as [[a b]|]; [| reflexivity].
now destruct (split_at_first e b) as [[mid post]|].
Qed.

Lemma contains_skip (pat file x : string) (c : ascii) :
mem_char c pat = false -> contains pat file = false ->
contains pat (file +:+ String c x) = contains pat x.
Proof.
intros Hc Hf. unfold contains. rewrite (split_at_first_skip _ _ _ _ Hc Hf).
now destruct (split_at_first pat x) as [[a b]|].
Qed.

Lemma contains_closed (pat x : string) (c : ascii) :
pat <> EmptyString -> mem_char c pat = false ->
contains pat (x +:+ String c EmptyString) = contains pat x.
Proof.
intros Hne Hc. destruct (contains pat x) eqn:Hx.
- unfold contains in Hx |- *.
  destruct (split_at_first pat x) as [[a b]|] eqn:Hs; [| discriminate].
  now rewrite (split_at_first_append _ _ (String c EmptyString) _ _ Hs).
- rewrite (contains_skip _ _ _ _ Hc Hx). now apply contains_empty_text.
Qed.

Lemma eqb_LF_lower (d : ascii) : Ascii.eqb LF (lower_ascii d) = Ascii.eqb LF d.
Proof. destruct d as [[] [] [] [] [] [] [] []]; reflexivity. Qed.

Lemma eqb_CR_lower (d : ascii) : Ascii.eqb CR (lower_ascii d) = Ascii.eqb CR d.
Proof. destruct d as [[] [] [] [] [] [] [] []]; reflexivity. Qed.

Lemma mem_LF_lower (s : string) : mem_char LF (lower s) = mem_char LF s.
Proof.
induction s as [|d s IH]; [reflexivity |].
cbn [lower mem_char]. now rewrite eqb_LF_lower, IH.
Qed.

Lemma mem_CR_lower (s : string) : mem_char CR (lower s) = mem_char CR s.
Proof.
induction s as [|d s IH]; [reflexivity |].
cbn [lower mem_char]. now rewrite eqb_CR_lower, IH.
Qed.

Lemma lower_nonempty (s : string) : s <> EmptyString -> lower s <> EmptyString.
Proof. destruct s; [congruence | discriminate]. Qed.

(** In a text appended (with CR LF before and after) to text that lacks
    the start marker in every letter case, [-match] finds what it finds
    in the appended text and its closing CR LF. *)
Lemma ps_match_appended (s e file block : string) :
s <> EmptyString -> mem_char LF s = false -> mem_char CR s = false ->
contains (lower s) (lower file) = false ->
ps_match s e (file +:+ CRLF +:+ block +:+ CRLF) = ps_match s e (block +:+ CRLF).
Proof.
intros Hne Hlf Hcr Hf. unfold ps_match.
rewrite !lower_append. change (lower CRLF) with CRLF.
unfold CRLF at 1. cbn [String.append].
rewrite <- mem_LF_lower in Hlf. rewrite <- mem_CR_lower in Hcr.
rewrite (regex_first_skip _ _ _ _ CR Hcr Hf).
pose proof (regex_first_skip (lower s) (lower e) EmptyString
              (lower block +:+ CRLF) LF Hlf
              (contains_empty_text _ (lower_nonempty _ Hne))) as H.
cbn [String.append] in H. rewrite H.
now destruct (regex_first (lower s) (lower e) (lower block +:+ CRLF))
  as [[[pre m] post]|].
Qed.

Lemma match_nonempty {A : Type} (s t : string) (a b : A) :
  s <> EmptyString ->
  match s +:+ t with EmptyString => a | String _ _ => b end = b.
Proof. destruct s; [congruence | reflexivity]. Qed.

Section Scripts.
Variables start_marker end_marker : string.
Hypothesis start_nonempty : start_marker <> EmptyString.
Hypothesis start_no_LF : mem_char LF start_marker = false.

Let nl := String LF EmptyString.

(** apply-macos.sh, marker present and closed: only the first block is
    replaced; the text after it, later blocks included, is kept. *)
Lemma update_file_block_replaces_first (block content pre m post : string) :
  regex_first start_marker end_marker content = Some (pre, m, post) ->
  update_file_block start_marker end_marker block (Some content)
  = Some (pre +:+ block +:+ post).
Proof.
  intros H. unfold update_file_block, update_file_block_text.
  rewrite grep_qF_contains by assumption.
  rewrite (regex_first_contains _ _ _ _ _ _ H).
  unfold perl_subst_once. now rewrite H.
Qed.

(** apply-macos.sh, start marker present but never closed: unchanged. *)
Lemma update_file_block_unclosed (block content : string) :
  contains start_marker content = true ->
  regex_first start_marker end_marker content = None ->
  update_file_block start_marker end_marker block (Some content) = Some content.
Proof.
  intros Hc H. unfold update_file_block, update_file_block_text.
  rewrite grep_qF_contains by assumption. rewrite Hc.
  unfold perl_subst_once. now rewrite H.
Qed.

Lemma update_file_block_appends (block content : string) :
  contains start_marker content = false ->
  update_file_block start_marker end_marker block (Some content)
  = Some (content +:+ nl +:+ block +:+ nl).
Proof.
  intros Hc. unfold update_file_block, update_file_block_text.
  rewrite grep_qF_contains by assumption. now rewrite Hc.
Qed.

Lemma Update_FileBlock_appends (block content : string) :
  contains (lower start_marker) (lower content) = false ->
  Update_FileBlock start_marker end_marker block (Some content)
  = Some (content +:+ CRLF +:+ block +:+ CRLF).
Proof using Type.
  intros Hc. unfold Update_FileBlock, Update_FileBlock_text, ps_match.
  now rewrite (regex_first_absent _ _ _ Hc).
Qed.

(** apply.ps1, marker present and closed: the replacement goes on in the
    text after the first block. *)
Lemma Update_FileBlock_replaces_all (block content pre m post : string) :
  regex_first start_marker end_marker content = Some (pre, m, post) ->
  Update_FileBlock start_marker end_marker block (Some content)
  = Some (pre +:+ block +:+ regex_replace_all start_marker end_marker block post).
Proof using start_nonempty.
  intros H. unfold Update_FileBlock, Update_FileBlock_text.
  rewrite (regex_first_ps_match _ _ _ _ _ _ H).
  rewrite regex_replace_all_eq, H.
  apply regex_first_sound in H as (mid & rest & _ & _ & -> & _).
  now rewrite match_nonempty.
Qed.
End Scripts.

End PatchFacts.

(** ** The specification's claims about the marker patchers *)

Module PatchClaims.
Import Text Patch TextFacts PatchFacts.

Definition nl : string := String LF EmptyString.

(** Claim C1.  The claim: when the start marker occurs, exactly the span
    from the start marker through the first following end marker is
    replaced, once, and later marker pairs are left alone.
    [apply-macos.sh] does this ([update_file_block_replaces_first]), but
    [apply.ps1] calls the static [[regex]::Replace], which replaces every
    match: on a file with two marker blocks it rewrites both, where the
    claim (and the macOS script) keep the second one. *)
Theorem Update_FileBlock_patches_every_block :
  Update_FileBlock "/* START */" "/* END */" "NEW"
    (Some "a /* START */ one /* END */ b /* START */ two /* END */ c")
  = Some "a NEW b NEW c"
  /\ update_file_block "/* START */" "/* END */" "NEW"
       (Some "a /* START */ one /* END */ b /* START */ two /* END */ c")
     = Some "a NEW b /* START */ two /* END */ c".
Proof. split; reflexivity. Qed.

(** Claim C5, as stated, fails: the scripts append the content as it is
    and add no markers, so with content that does not carry the start
    marker the second application appends once more. *)
Lemma append_twice_without_markers :
  contains "/* START */" "body {}" = false
  /\ update_file_block "/* START */" "/* END */" "p {}" (Some "body {}")
     = Some ("body {}" +:+ nl +:+ "p {}" +:+ nl)
  /\ grep_qF "/* START */" ("body {}" +:+ nl +:+ "p {}" +:+ nl) = false
  /\ update_file_block "/* START */" "/* END */" "p {}"
       (Some ("body {}" +:+ nl +:+ "p {}" +:+ nl))
     = Some ("body {}" +:+ nl +:+ "p {}" +:+ nl +:+ nl +:+ "p {}" +:+ nl).
Proof. repeat split; reflexivity. Qed.

(** Claim C5, amended.  For a non-empty single-line start marker that
    does not begin with a dash and does not occur in the file,
    [update_file_block] appends a line feed, the content and a line feed,
    keeping the old text as a prefix.  The script adds no markers, so the
    next application looks at the content: it takes the replace path
    exactly when the content holds the start marker, and appends once
    more when it does not; if the content holds the start marker followed
    by the end marker, that block is replaced inside the appended text;
    if the start marker is there but no end marker follows it up to the
    end of the file, the file is left as it is.
    [Update-FileBlock] (for markers, file and content in ASCII) appends
    with CR LF, provided the start marker does not occur in another
    letter case either (its [-match] test ignores case); the next
    application takes the replace path exactly when the content and its
    closing CR LF match the pattern in some letter case, and appends once
    more when they do not; if the content holds the start marker
    followed by the end marker, that block is replaced, and the
    replacement goes on through the rest of the text. *)
Theorem append_then_replace
    (start_marker end_marker block file : string) :
  start_marker <> EmptyString ->
  dashed start_marker = false ->
  mem_char LF start_marker = false ->
  mem_char CR start_marker = false ->
  contains start_marker file = false ->
  update_file_block start_marker end_marker block (Some file)
  = Some (file +:+ nl +:+ block +:+ nl)
  /\ grep_qF start_marker (file +:+ nl +:+ block +:+ nl)
     = contains start_marker block
  /\ (forall block2,
        contains start_marker block = false ->
        update_file_block start_marker end_marker block2
          (Some (file +:+ nl +:+ block +:+ nl))
        = Some ((file +:+ nl +:+ block +:+ nl) +:+ nl +:+ block2 +:+ nl))
  /\ (forall pre m post block2,
        regex_first start_marker end_marker block = Some (pre, m, post) ->
        grep_qF start_marker (file +:+ nl +:+ block +:+ nl) = true
        /\ update_file_block start_marker end_marker block2
             (Some (file +:+ nl +:+ block +:+ nl))
           = Some (file +:+ nl +:+ pre +:+ block2 +:+ post +:+ nl))
  /\ (forall block2,
        contains start_marker block = true ->
        regex_first start_marker end_marker (block +:+ nl) = None ->
        update_file_block start_marker end_marker block2
          (Some (file +:+ nl +:+ block +:+ nl))
        = Some (file +:+ nl +:+ block +:+ nl))
  /\ (ascii_text start_marker = true -> ascii_text end_marker = true ->
      ascii_text block = true -> ascii_text file = true ->
      contains (lower start_marker) (lower file) = false ->
      Update_FileBlock start_marker end_marker block (Some file)
      = Some (file +:+ CRLF +:+ block +:+ CRLF)
      /\ ps_match start_marker end_marker (file +:+ CRLF +:+ block +:+ CRLF)
         = ps_match start_marker end_marker (block +:+ CRLF)
      /\ (forall block2,
            ps_match start_marker end_marker (block +:+ CRLF) = false ->
            Update_FileBlock start_marker end_marker block2
              (Some (file +:+ CRLF +:+ block +:+ CRLF))
            = Some ((file +:+ CRLF +:+ block +:+ CRLF)
                    +:+ CRLF +:+ block2 +:+ CRLF))
      /\ forall pre m post block2,
           regex_first start_marker end_marker block = Some (pre, m, post) ->
           ps_match start_marker end_marker (file +:+ CRLF +:+ block +:+ CRLF) = true
           /\ Update_FileBlock start_marker end_marker block2
                (Some (file +:+ CRLF +:+ block +:+ CRLF))
              = Some (file +:+ CRLF +:+ pre +:+ block2 +:+
                      regex_replace_all start_marker end_marker block2
                        (post +:+ CRLF))).
Proof.
  intros Hne _ Hlf Hcr Habs.
  assert (Hgrep : contains start_marker (file +:+ nl +:+ block +:+ nl)
                  = contains start_marker block).
  { unfold nl. cbn [String.append].
    rewrite (contains_skip _ _ _ _ Hlf Habs).
    now apply contains_closed. }
  split; [now apply update_file_block_appends |].
  split; [now rewrite grep_qF_contains by assumption |].
  split; [| split; [| split]].
  - intros block2 Hb.
    apply update_file_block_appends; [assumption | assumption |].
    now rewrite Hgrep.
  - intros pre m post block2 Hb.
    pose proof (regex_first_after _ _ file block nl _ _ _ LF Hlf Habs Hb) as Hr.
    split.
    + rewrite grep_qF_contains by assumption.
      exact (regex_first_contains _ _ _ _ _ _ Hr).
    + unfold nl at 1 2. simpl String.append at 2.
      rewrite (update_file_block_replaces_first _ _ Hne Hlf _ _ _ _ _ Hr).
      f_equal. now rewrite !append_assoc.
  - intros block2 Hb Hopen.
    apply update_file_block_unclosed; [assumption | assumption | |].
    + now rewrite Hgrep.
    + unfold nl at 1. cbn [String.append].
      rewrite (regex_first_skip _ _ _ _ LF Hlf Habs).
      now rewrite Hopen.
  - intros _ _ _ _ Hci.
    pose proof (ps_match_appended _ end_marker _ block Hne Hlf Hcr Hci) as Hps.
    split; [now apply Update_FileBlock_appends |].
    split; [exact Hps |].
    split.
    { intros block2 Hno. unfold Update_FileBlock, Update_FileBlock_text.
      now rewrite Hps, Hno. }
    intros pre m post block2 Hb.
    assert (Hr : regex_first start_marker end_marker
                   (file +:+ CRLF +:+ block +:+ CRLF)
                 = Some (file +:+ CRLF +:+ pre, m, post +:+ CRLF)).
    { pose proof (regex_first_after _ _ EmptyString block CRLF _ _ _ LF Hlf
                    (contains_empty_text _ Hne) Hb) as H1.
      unfold regex_first in H1 |- *. unfold CRLF at 1 3.
      simpl String.append in H1 |- *.
      rewrite (split_at_first_skip _ file _ CR Hcr Habs).
      destruct (split_at_first start_marker (String LF (block +:+ CRLF)))
        as [[x y]|]; [| discriminate].
      destruct (split_at_first end_marker y) as [[u v]|]; [| discriminate].
      injection H1 as <- <- <-. reflexivity. }
    split; [exact (regex_first_ps_match _ _ _ _ _ _ Hr) |].
    rewrite (Update_FileBlock_replaces_all _ _ Hne _ _ _ _ _ Hr).
    f_equal. now rewrite !append_assoc.
Qed.

Lemma append_then_replace_witness :
  update_file_block "/* START */" "/* END */" "/* START */ one /* END */"
    (Some "body {}")
  = Some ("body {}" +:+ nl +:+ "/* START */ one /* END */" +:+ nl)
  /\ update_file_block "/* START */" "/* END */" "/* START */ two /* END */"
       (Some ("body {}" +:+ nl +:+ "/* START */ one /* END */" +:+ nl))
     = Some ("body {}" +:+ nl +:+ "" +:+ "/* START */ two /* END */" +:+ "" +:+ nl).
Proof.
  destruct (append_then_replace "/* START */" "/* END */"
              "/* START */ one /* END */" "body {}")
    as (H1 & _ & _ & H2 & _);
    [discriminate | reflexivity | reflexivity | reflexivity | reflexivity |].
  split; [exact H1 |].
  exact (proj2 (H2 "" "/* START */ one /* END */" "" "/* START */ two /* END */"
                  eq_refl)).
Defined.

End PatchClaims.
(** ** The JSON reader

    [JSON_parse] runs the three mutually recursive parsers on fuel; the
    lemmas below show that the fuel it starts with is always enough, so
    the fuel is no part of the function's meaning. *)

Module JsonFacts.
Import Text Js TextFacts.

Lemma drop_while_length (p : ascii -> bool) (s : string) :
  String.length (drop_while p s) <= String.length s.
Proof.
  induction s as [|c t IH]; simpl; [lia |].
  destruct (p c); simpl; lia.
Qed.

Lemma skip_ws_length (s : string) : String.length (skip_ws s) <= String.length s.
Proof. apply drop_while_length. Qed.

Lemma strip_char_length (c : ascii) (s t : string) :
  strip_char c s = Some t -> String.length s = S (String.length t).
Proof.
  destruct s as [|d s]; simpl; [discriminate |].
  destruct (Ascii.eqb d c); [intros [= ->]; reflexivity | discriminate].
Qed.

Lemma drop_length (n : nat) (s : string) :
  String.length (drop n s) <= String.length s.
Proof.
  revert s; induction n as [|n IH]; intros s; simpl; [lia |].
  destruct s as [|c t]; simpl; [lia |]. specialize (IH t). lia.
Qed.

Lemma prepend_some (p : string) (r : option (string * string)) (b rest : string) :
  prepend p r = Some (b, rest) -> exists b', r = Some (b', rest).
Proof. destruct r as [[b' rest']|]; simpl; [intros [= <- <-]; eauto | discriminate]. Qed.

Lemma parse_string_body_length (s str rest : string) :
  parse_string_body s = Some (str, rest) -> String.length rest < String.length s.
Proof.
  remember (String.length s) as n eqn:Hn. revert s str rest Hn.
  induction n as [n IH] using lt_wf_ind. intros s str rest Hn.
  destruct s as [|c t]; [discriminate |]. cbn [parse_string_body].
  destruct (Ascii.eqb c "034"); [intros [= <- <-]; simpl in *; lia |].
  destruct (Ascii.eqb c "\").
  - destruct t as [|e u]; [discriminate |].
    destruct (Ascii.eqb e "u").
    + destruct u as [|h1 [|h2 [|h3 [|h4 v]]]]; try discriminate.
      destruct (hex4 h1 h2 h3 h4); [| discriminate].
      intros H. apply prepend_some in H as [b' H].
      simpl in Hn. specialize (IH (String.length v) ltac:(lia) v b' rest eq_refl H).
      simpl in *. lia.
    + destruct (simple_escape e); [| discriminate].
      intros H. apply prepend_some in H as [b' H].
      simpl in Hn. specialize (IH (String.length u) ltac:(lia) u b' rest eq_refl H).
      simpl in *. lia.
  - destruct (nat_of_ascii c <? 32); [discriminate |].
    intros H. apply prepend_some in H as [b' H].
    simpl in Hn. specialize (IH (String.length t) ltac:(lia) t b' rest eq_refl H).
    simpl in *. lia.
Qed.

Lemma after_int_length (s r : string) :
  after_int s = Some r -> String.length r < String.length s.
Proof.
  destruct s as [|c t]; simpl; [discriminate |].
  destruct (Ascii.eqb c "0"); [intros [= <-]; lia |].
  destruct (is_digit c); [| discriminate].
  intros [= <-]. pose proof (drop_while_length is_digit t). lia.
Qed.

Lemma drop_sign_length (s : string) : String.length (drop_sign s) <= String.length s.
Proof.
  unfold drop_sign.
  destruct (strip_char "+" s) eqn:H1; [apply strip_char_length in H1; lia |].
  destruct (strip_char "-" s) eqn:H2; [apply strip_char_length in H2; lia | lia].
Qed.

Lemma after_frac_length (s r : string) :
  after_frac s = Some r -> String.length r <= String.length s.
Proof.
  unfold after_frac. destruct (strip_char "." s) as [f|] eqn:H.
  - apply strip_char_length in H. destruct (starts_with_digit f); [| discriminate].
    intros [= <-]. pose proof (drop_while_length is_digit f). lia.
  - intros [= <-]. lia.
Qed.

Lemma after_exp_length (s r : string) :
  after_exp s = Some r -> String.length r <= String.length s.
Proof.
  destruct s as [|c x]; simpl; [intros [= <-]; simpl; lia |].
  destruct (Ascii.eqb c "e" || Ascii.eqb c "E"); [| intros [= <-]; simpl; lia].
  destruct (starts_with_digit (drop_sign x)); [| discriminate].
  intros [= <-]. pose proof (drop_while_length is_digit (drop_sign x)).
  pose proof (drop_sign_length x). lia.
Qed.

Lemma after_json_number_length (s r : string) :
  after_json_number s = Some r -> String.length r < String.length s.
Proof.
  unfold after_json_number.
  set (body := match strip_char "-" s with Some t => t | None => s end).
  assert (Hb : String.length body <= String.length s).
  { subst body. destruct (strip_char "-" s) eqn:H; [| lia].
    apply strip_char_length in H. lia. }
  destruct (after_int body) as [a|] eqn:Ha; [| discriminate].
  apply after_int_length in Ha.
  destruct (after_frac a) as [b|] eqn:Hf; [| discriminate].
  apply after_frac_length in Hf.
  intros He. apply after_exp_length in He. lia.
Qed.

Lemma parse_number_length (s : string) (v : json) (r : string) :
  parse_number s = Some (v, r) -> String.length r < String.length s.
Proof.
  unfold parse_number. destruct (after_json_number s) as [rest|] eqn:H; [| discriminate].
  intros [= <- <-]. now apply after_json_number_length.
Qed.

Lemma parse_keyword_length (word : string) (v w : json) (s r : string) :
  word <> EmptyString ->
  parse_keyword word v s = Some (w, r) -> String.length r < String.length s.
Proof.
  intros Hne. unfold parse_keyword.
  destruct (String.prefix word s) eqn:Hp; [| discriminate].
  intros [= <- <-]. apply prefix_inv in Hp as [t ->].
  rewrite drop_append, length_append.
  destruct word; [congruence | simpl; lia].
Qed.

(** The unfolding equations of the three parsers. *)
Lemma parse_value_S (fuel : nat) (s : string) :
  parse_value (S fuel) s =
  match skip_ws s with
  | EmptyString => None
  | String c t =>
      if Ascii.eqb c "n" then parse_keyword "null" JNull (String c t)
      else if Ascii.eqb c "t" then parse_keyword "true" (JBool true) (String c t)
      else if Ascii.eqb c "f" then parse_keyword "false" (JBool false) (String c t)
      else if Ascii.eqb c "034" then
        match parse_string_body t with
        | Some (str, rest) => Some (JStr str, rest)
        | None => None
        end
      else if Ascii.eqb c "[" then
        match strip_char "]" (skip_ws t) with
        | Some rest => Some (JArr [], rest)
        | None => parse_items fuel t []
        end
      else if Ascii.eqb c "{" then
        match strip_char "}" (skip_ws t) with
        | Some rest => Some (JObj [], rest)
        | None => parse_members fuel t []
        end
      else parse_number (String c t)
  end.
Proof. reflexivity. Qed.

Lemma parse_items_S (fuel : nat) (s : string) (acc : list json) :
  parse_items (S fuel) s acc =
  match parse_value fuel s with
  | None => None
  | Some (v, rest) =>
      match strip_char "," (skip_ws rest) with
      | Some rest' => parse_items fuel rest' (acc ++ [v])
      | None =>
          match strip_char "]" (skip_ws rest) with
          | Some rest' => Some (JArr (acc ++ [v]), rest')
          | None => None
          end
      end
  end.
Proof. reflexivity. Qed.

Lemma parse_members_S (fuel : nat) (s : string) (acc : list (string * json)) :
  parse_members (S fuel) s acc =
  match strip_char "034" (skip_ws s) with
  | None => None
  | Some t =>
      match parse_string_body t with
      | None => None
      | Some (key, rest) =>
          match strip_char ":" (skip_ws rest) with
          | None => None
          | Some rest1 =>
              match parse_value fuel rest1 with
              | None => None
              | Some (v, rest2) =>
                  match strip_char "," (skip_ws rest2) with
                  | Some rest3 =>
                      parse_members fuel rest3 (define_property key v acc)
                  | None =>
                      match strip_char "}" (skip_ws rest2) with
                      | Some rest3 => Some (JObj (define_property key v acc), rest3)
                      | None => None
                      end
                  end
              end
          end
      end
  end.
Proof. reflexivity. Qed.

#[local] Opaque parse_value parse_items parse_members.

(** Every successful parse consumes input. *)
Lemma parse_consumes (fuel : nat) :
  (forall s v r, parse_value fuel s = Some (v, r) ->
                 String.length r < String.length s)
  /\ (forall s acc v r, parse_items fuel s acc = Some (v, r) ->
                        String.length r < String.length s)
  /\ (forall s acc v r, parse_members fuel s acc = Some (v, r) ->
                        String.length r < String.length s).
Proof.
  induction fuel as [|fuel (IHv & IHi & IHm)].
  - repeat split; intros; discriminate.
  - split; [| split].
    + intros s v r. rewrite parse_value_S.
      destruct (skip_ws s) as [|c t] eqn:Hs; [discriminate |].
      pose proof (skip_ws_length s) as Ls. rewrite Hs in Ls. simpl in Ls.
      destruct (Ascii.eqb c "n").
      { intros H. apply parse_keyword_length in H; [simpl in H; lia | discriminate]. }
      destruct (Ascii.eqb c "t").
      { intros H. apply parse_keyword_length in H; [simpl in H; lia | discriminate]. }
      destruct (Ascii.eqb c "f").
      { intros H. apply parse_keyword_length in H; [simpl in H; lia | discriminate]. }
      destruct (Ascii.eqb c "034").
      { destruct (parse_string_body t) as [[str rest]|] eqn:Hb; [| discriminate].
        intros [= <- <-]. apply parse_string_body_length in Hb. lia. }
      destruct (Ascii.eqb c "[").
      { destruct (strip_char "]" (skip_ws t)) as [rest|] eqn:Hc.
        - intros [= <- <-]. apply strip_char_length in Hc.
          pose proof (skip_ws_length t). lia.
        - intros H. apply IHi in H. lia. }
      destruct (Ascii.eqb c "{").
      { destruct (strip_char "}" (skip_ws t)) as [rest|] eqn:Hc.
        - intros [= <- <-]. apply strip_char_length in Hc.
          pose proof (skip_ws_length t). lia.
        - intros H. apply IHm in H. lia. }
      intros H. apply parse_number_length in H. simpl in H. lia.
    + intros s acc v r. rewrite parse_items_S.
      destruct (parse_value fuel s) as [[w rest]|] eqn:Hv; [| discriminate].
      apply IHv in Hv. pose proof (skip_ws_length rest).
      destruct (strip_char "," (skip_ws rest)) as [rest'|] eqn:Hc.
      * intros Hp. apply IHi in Hp. apply strip_char_length in Hc. lia.
      * destruct (strip_char "]" (skip_ws rest)) as [rest'|] eqn:Hd; [| discriminate].
        intros [= <- <-]. apply strip_char_length in Hd. lia.
    + intros s acc v r. rewrite parse_members_S.
      pose proof (skip_ws_length s).
      destruct (strip_char "034" (skip_ws s)) as [t|] eqn:Hq; [| discriminate].
      apply strip_char_length in Hq.
      destruct (parse_string_body t) as [[key rest]|] eqn:Hb; [| discriminate].
      apply parse_string_body_length in Hb. pose proof (skip_ws_length rest).
      destruct (strip_char ":" (skip_ws rest)) as [rest1|] eqn:Hc; [| discriminate].
      apply strip_char_length in Hc.
      destruct (parse_value fuel rest1) as [[w rest2]|] eqn:Hv; [| discriminate].
      apply IHv in Hv. pose proof (skip_ws_length rest2).
      destruct (strip_char "," (skip_ws rest2)) as [rest3|] eqn:Hd.
      * intros Hp. apply IHm in Hp. apply strip_char_length in Hd. lia.
      * destruct (strip_char "}" (skip_ws rest2)) as [rest3|] eqn:He; [| discriminate].
        intros [= <- <-]. apply strip_char_length in He. lia.
Qed.

(** Above twice the length of the input, more fuel changes nothing. *)
Lemma parse_fuel_enough (fuel : nat) :
  (forall s fuel', 2 * String.length s + 2 <= fuel -> fuel <= fuel' ->
                   parse_value fuel s = parse_value fuel' s)
  /\ (forall s acc fuel', 2 * String.length s + 3 <= fuel -> fuel <= fuel' ->
                          parse_items fuel s acc = parse_items fuel' s acc)
  /\ (forall s acc fuel', 2 * String.length s + 3 <= fuel -> fuel <= fuel' ->
                          parse_members fuel s acc = parse_members fuel' s acc).
Proof.
  induction fuel as [|fuel (IHv & IHi & IHm)].
  - repeat split; intros; lia.
  - destruct (parse_consumes fuel) as (Cv & _ & _).
    split; [| split].
    + intros s [|fuel'] Hb Hle; [lia |]. rewrite !parse_value_S.
      destruct (skip_ws s) as [|c t] eqn:Hs; [reflexivity |].
      pose proof (skip_ws_length s) as Ls. rewrite Hs in Ls. simpl in Ls.
      pose proof (skip_ws_length t).
      repeat match goal with
        | |- (if ?b then _ else _) = (if ?b then _ else _) =>
            destruct b; [try reflexivity |]
        end; try reflexivity.
      * destruct (strip_char "]" (skip_ws t)); [reflexivity |]. apply IHi; lia.
      * destruct (strip_char "}" (skip_ws t)); [reflexivity |]. apply IHm; lia.
    + intros s acc [|fuel'] Hb Hle; [lia |]. rewrite !parse_items_S.
      rewrite <- (IHv s fuel') by lia.
      destruct (parse_value fuel s) as [[w rest]|] eqn:Hv; [| reflexivity].
      apply Cv in Hv. pose proof (skip_ws_length rest).
      destruct (strip_char "," (skip_ws rest)) as [rest'|] eqn:Hc; [| reflexivity].
      apply strip_char_length in Hc. apply IHi; lia.
    + intros s acc [|fuel'] Hb Hle; [lia |]. rewrite !parse_members_S.
      pose proof (skip_ws_length s).
      destruct (strip_char "034" (skip_ws s)) as [t|] eqn:Hq; [| reflexivity].
      apply strip_char_length in Hq.
      destruct (parse_string_body t) as [[key rest]|] eqn:Hb'; [| reflexivity].
      apply parse_string_body_length in Hb'. pose proof (skip_ws_length rest).
      destruct (strip_char ":" (skip_ws rest)) as [rest1|] eqn:Hc; [| reflexivity].
      apply strip_char_length in Hc.
      rewrite <- (IHv rest1 fuel') by lia.
      destruct (parse_value fuel rest1) as [[w rest2]|] eqn:Hv; [| reflexivity].
      apply Cv in Hv. pose proof (skip_ws_length rest2).
      destruct (strip_char "," (skip_ws rest2)) as [rest3|] eqn:Hd; [| reflexivity].
      apply strip_char_length in Hd. apply IHm; lia.
Qed.

(** The fuel [JSON_parse] starts with never runs out: any larger amount
    gives the same answer. *)
Theorem JSON_parse_fuel (text : string) (fuel : nat) :
  2 * String.length text + 2 <= fuel ->
  match parse_value fuel text with
  | Some (v, rest) => if is_empty (skip_ws rest) then Some v else None
  | None => None
  end = JSON_parse text.
Proof.
  intros H. unfold JSON_parse.
  destruct (parse_fuel_enough (2 * String.length text + 2)) as (Hv & _ & _).
  now rewrite (Hv text fuel (Nat.le_refl _) H).
Qed.

End JsonFacts.


(** ** The install flow *)

Module InstallerClaims.
Import Text Js Installer Samples.Install.

Lemma filter_hit {A : Type} (f : A -> bool) (l : list A) (x : A) :
  In x l -> f x = true -> 0 < List.length (List.filter f l).
Proof.
  induction l as [|y l IH]; simpl; [tauto |].
  intros [->|Hin] Hf.
  - rewrite Hf. simpl. lia.
  - destruct (f y); simpl; [lia | auto].
Qed.

(** Claim C7.  When the loaded manifest has a [runCommand] step, the
    first thing [handleInstall] does is to ask for consent ("Run
    commands?"); if the user declines, the run consists of that dialog
    and the log line "Installation cancelled by user.": [run_install] is
    not invoked and no status changes. *)
Theorem handleInstall_asks_before_commands
    (manifest : InstallManifest) (w : World) (step : InstallStep) :
  In step (installSteps manifest) ->
  type step = "runCommand" ->
  head (run w 0 (handleInstall (Some manifest)))
  = Some (did_confirm "Run commands?" (answer w 0))
  /\ (answer w 0 = false ->
      run w 0 (handleInstall (Some manifest))
      = [did_confirm "Run commands?" false;
         did_addLog "Installation cancelled by user."]
      /\ installs (run w 0 (handleInstall (Some manifest))) = []).
Proof.
  intros Hin Hty. unfold handleInstall.
  assert (Hlen : (0 <? List.length
                   (List.filter (fun s => String.eqb (type s) "runCommand")
                      (installSteps manifest))) = true).
  { apply Nat.ltb_lt. apply (filter_hit _ _ step Hin).
    rewrite Hty. reflexivity. }
  rewrite Hlen. cbn [run head]. split; [reflexivity |].
  intros Hno. rewrite Hno. cbn. split; reflexivity.
Qed.



Lemma handleInstall_asks_before_commands_witness :
  run declining 0 (handleInstall (Some sample_manifest))
  = [did_confirm "Run commands?" false;
     did_addLog "Installation cancelled by user."].
Proof.
  refine (proj1 (proj2 (handleInstall_asks_before_commands sample_manifest declining
                   {| type := "runCommand";
                      props := [("command", JStr "code"); ("args", JArr [JStr "--version"])] |}
                   _ _) _)).
  - simpl. right. left. reflexivity.
  - reflexivity.
  - reflexivity.
Defined.

End InstallerClaims.

(** ** The build flow *)

Module BuildFlow.
Import Text Js Studio Samples.Forge.

(** With a plan that has errors the build stops before any backend
    command: the run is the two state updates and two log lines. *)
Lemma handleBuild_stops_on_errors (st : Dashboard) (w : World) :
  errors (build_plan (steps st)) <> [] ->
  run w 0 (handleBuild st)
  = [did_setBuilding true; did_log "Summoning the forge...";
     did_log ("Forge failed: Error: " +:+ join " " (errors (build_plan (steps st))));
     did_setBuilding false].
Proof.
  intros Hne. unfold handleBuild. cbn [run].
  destruct (errors (build_plan (steps st))) as [|e es] eqn:He; [congruence |].
  reflexivity.
Qed.

Lemma handleBuild_no_backend_call_on_errors (st : Dashboard) (w : World) :
  errors (build_plan (steps st)) <> [] ->
  backend_calls (run w 0 (handleBuild st)) = 0.
Proof. intros H. rewrite (handleBuild_stops_on_errors st w H). reflexivity. Qed.

(** Claim C4.  For a build whose plan has no errors and whose target
    [inspect_build_target] reports: a target that does not exist is built
    at once, with no dialog and [forceOverwrite = false]; an existing
    target that carries the marker or is not absolute takes exactly one
    dialog ("Overwrite existing build?"); an existing absolute target
    without marker takes two ("No marker found", then "Delete existing
    folder?"), both of which must be accepted.  [build_project] is invoked
    once, with the project name, manifest and payload files of the
    inspection request and [forceOverwrite = true], after the accepted
    dialogs, and is not invoked at all once a dialog is declined. *)
Theorem handleBuild_confirmations
    (st : Dashboard) (w : World) (target : BuildTargetInfo) :
  errors (build_plan (steps st)) = [] ->
  inspect_build_target w (inspectReq st (build_plan (steps st))) = Resolved target ->
  let req := inspectReq st (build_plan (steps st)) in
  let sent force :=
    {| req_projectName := projectName st;
       req_manifest := build_manifest st (build_plan (steps st));
       payloadFiles := payloadFiles req;
       forceOverwrite := Some force |} in
  let trace := run w 0 (handleBuild st) in
  (exists_ target = false ->
     confirmations trace = [] /\ builds trace = [sent false])
  /\ (exists_ target = true -> hasMarker target = true \/ isAbsolute target = false ->
        confirmations trace = [("Overwrite existing build?", answer w 0)]
        /\ builds trace = if answer w 0 then [sent true] else [])
  /\ (exists_ target = true -> isAbsolute target = true -> hasMarker target = false ->
        (answer w 0 = false ->
           confirmations trace = [("No marker found", false)] /\ builds trace = [])
        /\ (answer w 0 = true ->
              confirmations trace
              = [("No marker found", true); ("Delete existing folder?", answer w 1)]
              /\ builds trace = if answer w 1 then [sent true] else [])).
Proof.
  intros Herr Hinsp req sent trace. subst req sent trace.
  unfold handleBuild. cbn [run]. rewrite Herr. cbn [run]. rewrite Hinsp.
  unfold confirm_overwrite.
  split; [| split].
  - intros ->. cbn. destruct (build_project w _); split; reflexivity.
  - intros -> Hm.
    assert (Hc : isAbsolute target && negb (hasMarker target) = false).
    { destruct Hm as [-> | ->]; [now rewrite andb_false_r | reflexivity]. }
    rewrite Hc. cbn.
    destruct (answer w 0); cbn; [destruct (build_project w _) |]; split; reflexivity.
  - intros -> -> ->. cbn. split.
    + intros ->. cbn. split; reflexivity.
    + intros ->. cbn.
      destruct (answer w 1); cbn; [destruct (build_project w _) |]; split; reflexivity.
Qed.

Lemma handleBuild_confirmations_witness :
  (confirmations (run hesitant 0 (handleBuild one_copy))
   = [("No marker found", true); ("Delete existing folder?", false)]
   /\ builds (run hesitant 0 (handleBuild one_copy)) = [])
  /\ (confirmations (run resolute 0 (handleBuild one_copy))
      = [("No marker found", true); ("Delete existing folder?", true)]
      /\ List.map forceOverwrite (builds (run resolute 0 (handleBuild one_copy)))
         = [Some true]).
Proof.
  split.
  - destruct (handleBuild_confirmations one_copy hesitant unmarked_target
                eq_refl eq_refl) as (_ & _ & H).
    destruct (H eq_refl eq_refl eq_refl) as [_ H2].
    exact (H2 eq_refl).
  - destruct (handleBuild_confirmations one_copy resolute unmarked_target
                eq_refl eq_refl) as (_ & _ & H).
    destruct (H eq_refl eq_refl eq_refl) as [_ H2].
    destruct (H2 eq_refl) as [H3 H4].
    split; [exact H3 |]. cbv zeta in H4. rewrite H4. reflexivity.
Defined.

End BuildFlow.

(** ** The plan of a build: staged payloads and errors *)

Module PlanFacts.
Import Text Js Studio.

Lemma is_empty_true (s : string) : is_empty s = true <-> s = EmptyString.
Proof. destruct s; simpl; split; congruence. Qed.

Lemma is_empty_false (s : string) : is_empty s = false <-> s <> EmptyString.
Proof. destruct s; simpl; split; congruence. Qed.

(** **** The [payloadMap] *)

Lemma get_replace_value_same (k v : string) (m : list (string * string)) :
  has k m = true -> get k (replace_value k v m) = Some v.
Proof.
  unfold has. induction m as [|[k' v'] m IH]; simpl; [discriminate |].
  destruct (String.eqb k k') eqn:E; simpl; rewrite E; [reflexivity | exact IH].
Qed.

Lemma get_replace_value_other (k k' v : string) (m : list (string * string)) :
  k' <> k -> get k' (replace_value k v m) = get k' m.
Proof.
  intros Hne. induction m as [|[k2 v2] m IH]; simpl; [reflexivity |].
  destruct (String.eqb k k2) eqn:E; simpl.
  - apply String.eqb_eq in E as <-.
    apply String.eqb_neq in Hne. now rewrite Hne.
  - destruct (String.eqb k' k2); [reflexivity | exact IH].
Qed.

Lemma get_app_last (k k' v : string) (m : list (string * string)) :
  get k' (m ++ [(k, v)])
  = match get k' m with
    | Some x => Some x
    | None => if String.eqb k' k then Some v else None
    end.
Proof.
  induction m as [|[k2 v2] m IH]; simpl; [reflexivity |].
  destruct (String.eqb k' k2); [reflexivity | exact IH].
Qed.

Lemma get_map_set_same (k v : string) (m : list (string * string)) :
  get k (map_set k v m) = Some v.
Proof.
  unfold map_set. destruct (has k m) eqn:H.
  - now apply get_replace_value_same.
  - rewrite get_app_last. unfold has in H.
    destruct (get k m); [discriminate |]. now rewrite String.eqb_refl.
Qed.

Lemma get_map_set_other (k k' v : string) (m : list (string * string)) :
  k' <> k -> get k' (map_set k v m) = get k' m.
Proof.
  intros Hne. unfold map_set. destruct (has k m).
  - now apply get_replace_value_other.
  - rewrite get_app_last. destruct (get k' m); [reflexivity |].
    destruct (String.eqb k' k) eqn:E; [| reflexivity].
    apply String.eqb_eq in E. congruence.
Qed.

(** **** [addPayload] *)


(** A staged name, once claimed, keeps its source. *)
Lemma addPayload_keeps (rel source k v : string) (p : Plan) :
  get k (payloadMap p) = Some v ->
  get k (payloadMap (addPayload rel source p)) = Some v.
Proof.
  intros Hk. unfold addPayload.
  destruct (is_empty (trim rel)); [exact Hk |].
  destruct (get (trim rel) (payloadMap p)) as [c|] eqn:Hc.
  - destruct (String.eqb c source) eqn:E; simpl; [| exact Hk].
    apply String.eqb_eq in E as ->.
    destruct (string_dec k (trim rel)) as [->|Hne].
    + rewrite get_map_set_same. congruence.
    + now rewrite get_map_set_other.
  - simpl. destruct (string_dec k (trim rel)) as [->|Hne]; [congruence |].
    now rewrite get_map_set_other.
Qed.

Lemma addPayload_errors (rel source : string) (p : Plan) :
  exists es, errors (addPayload rel source p) = errors p ++ es.
Proof.
  unfold addPayload.
  destruct (is_empty (trim rel)); [now exists ["A payload path cannot be empty."] |].
  destruct (get (trim rel) (payloadMap p)) as [c|].
  - destruct (String.eqb c source); simpl; [exists []; now rewrite app_nil_r |].
    now eexists.
  - exists []. simpl. now rewrite app_nil_r.
Qed.

(** After [addPayload] for a non-empty name, either the name is staged
    with this source or the collision has been recorded. *)
Lemma addPayload_outcome (rel source : string) (p : Plan) :
  trim rel <> EmptyString ->
  get (trim rel) (payloadMap (addPayload rel source p)) = Some source
  \/ In (claimed (trim rel)) (errors (addPayload rel source p)).
Proof.
  intros Hne. unfold addPayload.
  apply is_empty_false in Hne. rewrite Hne.
  destruct (get (trim rel) (payloadMap p)) as [c|] eqn:Hc.
  - destruct (String.eqb c source) eqn:E; simpl.
    + left. apply get_map_set_same.
    + right. apply in_or_app. right. now left.
  - left. simpl. apply get_map_set_same.
Qed.

Lemma addPayload_collision (rel source other : string) (p : Plan) :
  trim rel <> EmptyString ->
  get (trim rel) (payloadMap p) = Some other -> other <> source ->
  In (claimed (trim rel)) (errors (addPayload rel source p)).
Proof.
  intros Hne Hget Hdiff. unfold addPayload.
  apply is_empty_false in Hne. rewrite Hne, Hget.
  apply String.eqb_neq in Hdiff. rewrite Hdiff. simpl.
  apply in_or_app. right. now left.
Qed.

(** **** One turn of the loop *)


Lemma plan_step_claim (p : Plan) (step : UiStep) (rel source : string) :
  payload_claim step = Some (rel, source) ->
  exists s, plan_step p step = push_step s (addPayload rel source p).
Proof.
  unfold payload_claim, plan_step.
  destruct (enabled step); simpl; [| discriminate].
  destruct (fields step) as [c|b|j|b|r]; try discriminate.
  - destruct (is_empty (trim (payloadSource c))); simpl; [discriminate |].
    destruct (is_empty (trim (dest c))); simpl; [discriminate |].
    intros [= <- <-]. eauto.
  - destruct (is_empty (trim (patch_file b))); simpl; [discriminate |].
    destruct (is_empty (trim (startMarker b))); simpl; [discriminate |].
    destruct (is_empty (trim (endMarker b))); simpl; [discriminate |].
    destruct (is_empty (trim (contentSource b))); simpl; [discriminate |].
    intros [= <- <-]. eauto.
  - destruct (is_empty (trim (embed_file b))); simpl; [discriminate |].
    destruct (is_empty (trim (placeholder b))); simpl; [discriminate |].
    destruct (is_empty (trim (inputSource b))); simpl; [discriminate |].
    intros [= <- <-]. eauto.
Qed.

Ltac plan_cases :=
  repeat match goal with
    | |- context [if ?b then _ else _] => destruct b
    | |- context [match ?x with vt_string => _ | _ => _ end] => destruct x
    | |- context [match JSON_parse ?x with _ => _ end] => destruct (JSON_parse x)
    end.

Lemma plan_step_keeps (p : Plan) (step : UiStep) (k v : string) :
  get k (payloadMap p) = Some v ->
  get k (payloadMap (plan_step p step)) = Some v.
Proof.
  intros Hk. unfold plan_step.
  destruct (enabled step); simpl; [| exact Hk].
  destruct (fields step) as [c|b|j|b|r]; plan_cases; simpl;
    auto using addPayload_keeps.
Qed.

Lemma plan_step_errors (p : Plan) (step : UiStep) :
  exists es, errors (plan_step p step) = errors p ++ es.
Proof.
  unfold plan_step.
  destruct (enabled step); simpl; [| exists []; now rewrite app_nil_r].
  destruct (fields step) as [c|b|j|b|r]; plan_cases; simpl;
    try (eexists; reflexivity);
    try apply addPayload_errors;
    try (exists []; now rewrite app_nil_r).
Qed.

Lemma fold_plan_keeps (l : list UiStep) (p : Plan) (k v : string) :
  get k (payloadMap p) = Some v ->
  get k (payloadMap (fold_left plan_step l p)) = Some v.
Proof.
  revert p; induction l as [|s l IH]; intros p H; simpl; [exact H |].
  apply IH. now apply plan_step_keeps.
Qed.

Lemma fold_plan_errors (l : list UiStep) (p : Plan) (e : string) :
  In e (errors p) -> In e (errors (fold_left plan_step l p)).
Proof.
  revert p; induction l as [|s l IH]; intros p H; simpl; [exact H |].
  apply IH. destruct (plan_step_errors p s) as [es ->].
  apply in_or_app. now left.
Qed.

Lemma fold_left_app_step {A B : Type} (f : A -> B -> A) (l1 l2 : list B) (x : B) (a : A) :
  fold_left f (l1 ++ x :: l2) a = fold_left f l2 (f (fold_left f l1 a) x).
Proof. now rewrite fold_left_app. Qed.

End PlanFacts.

(** ** Validation *)

Module ValidationFacts.
Import Text Js Studio PlanFacts BuildFlow Samples.Forge.


Lemma has_issue_push (v : Validation) (i : string) (l : IssueLevel) (m : string) :
  has_issue (pushIssue i l m v) i {| level := l; message := m |}.
Proof.
  unfold has_issue, pushIssue. simpl. eexists. split.
  - apply lookup_insert_eq.
  - apply in_or_app. right. now left.
Qed.

Lemma has_issue_push_keeps (v : Validation) (i j : string) (x : StepIssue)
    (l : IssueLevel) (m : string) :
  has_issue v i x -> has_issue (pushIssue j l m v) i x.
Proof.
  intros (issues & Hl & Hin). unfold has_issue, pushIssue. simpl.
  destruct (decide (j = i)) as [->|Hne].
  - eexists. split; [apply lookup_insert_eq |].
    rewrite Hl. simpl. apply in_or_app. now left.
  - exists issues. split; [| exact Hin]. now rewrite lookup_insert_ne.
Qed.

Lemma has_issue_if_keeps (b : bool) (v : Validation) (i j : string) (x : StepIssue)
    (l : IssueLevel) (m : string) :
  has_issue v i x -> has_issue (issue_if b j l m v) i x.
Proof. unfold issue_if. destruct b; [apply has_issue_push_keeps | auto]. Qed.

Lemma errorCount_push (v : Validation) (i : string) (l : IssueLevel) (m : string) :
  errorCount v <= errorCount (pushIssue i l m v).
Proof. destruct l; simpl; lia. Qed.

Lemma errorCount_if (b : bool) (v : Validation) (i : string) (l : IssueLevel) (m : string) :
  errorCount v <= errorCount (issue_if b i l m v).
Proof. unfold issue_if. destruct b; [apply errorCount_push | lia]. Qed.

Ltac validate_cases :=
  repeat match goal with
    | |- context [match ?x with vt_string => _ | _ => _ end] => destruct x
    | |- context [match JSON_parse ?x with _ => _ end] => destruct (JSON_parse x)
    end.

Lemma validate_step_keeps (v : Validation) (step : UiStep) (i : string) (x : StepIssue) :
  has_issue v i x -> has_issue (validate_step v step) i x.
Proof.
  intros H. unfold validate_step.
  destruct (enabled step); simpl; [| exact H].
  destruct (fields step) as [c|b|j|b|r]; validate_cases;
    repeat first [apply has_issue_if_keeps | apply has_issue_push_keeps]; exact H.
Qed.

Lemma validate_step_errorCount (v : Validation) (step : UiStep) :
  errorCount v <= errorCount (validate_step v step).
Proof.
  unfold validate_step.
  destruct (enabled step); simpl; [| lia].
  destruct (fields step) as [c|b|j|b|r]; validate_cases;
    repeat first
      [ apply Nat.le_refl
      | (eapply Nat.le_trans; [| apply errorCount_if])
      | (eapply Nat.le_trans; [| apply errorCount_push]) ].
Qed.

Lemma fold_validate_keeps (l : list UiStep) (v : Validation) (i : string) (x : StepIssue) :
  has_issue v i x -> has_issue (fold_left validate_step l v) i x.
Proof.
  revert v; induction l as [|s l IH]; intros v H; simpl; [exact H |].
  apply IH. now apply validate_step_keeps.
Qed.

Lemma fold_validate_errorCount (l : list UiStep) (v : Validation) :
  errorCount v <= errorCount (fold_left validate_step l v).
Proof.
  revert v; induction l as [|s l IH]; intros v; simpl; [lia |].
  eapply Nat.le_trans; [apply validate_step_errorCount | apply IH].
Qed.


(** The turn of an enabled number step with an unparsable value. *)
Lemma validate_step_invalid_number (v : Validation) (step : UiStep)
    (j : SetJsonValueStep) :
  enabled step = true -> fields step = SetJsonValue j ->
  valueType j = vt_number -> Number_isNaN (Number (valueRaw j)) = true ->
  has_issue (validate_step v step) (id step) invalid_number
  /\ errorCount v < errorCount (validate_step v step).
Proof.
  intros He Hf Ht Hn. unfold validate_step. rewrite He, Hf, Ht, Hn. simpl.
  unfold issue_if at 1. split.
  - apply has_issue_if_keeps. apply has_issue_push.
  - match goal with
    | |- _ < errorCount (issue_if _ _ _ _ (pushIssue _ _ _ ?w)) =>
        assert (H2 : errorCount v <= errorCount w)
          by (repeat first [ apply Nat.le_refl
                           | eapply Nat.le_trans; [| apply errorCount_if] ]);
        eapply Nat.lt_le_trans; [| apply errorCount_if];
        unfold pushIssue; simpl; lia
    end.
Qed.

(** A step that is switched off is passed over by the validation memo
    and by the loop of [handleBuild] alike. *)
Lemma validate_step_disabled (v : Validation) (step : UiStep) :
  enabled step = false -> validate_step v step = v.
Proof. intros H. unfold validate_step. now rewrite H. Qed.

Lemma plan_step_disabled (p : Plan) (step : UiStep) :
  enabled step = false -> plan_step p step = p.
Proof. intros H. unfold plan_step. now rewrite H. Qed.

(** Claim C3, as stated, fails for a step that is switched off.  The
    form holds one [setJsonValue] step of type [number] whose value
    ["large"] is not a number, and the step is disabled: validation counts
    no error and records no issue for it, the plan of [handleBuild] has no
    error, and the build goes through, with one call of
    [inspect_build_target] and one of [build_project]. *)
Lemma disabled_number_step_builds :
  List.map enabled (steps idle_number) = [false]
  /\ List.map fields (steps idle_number)
     = [SetJsonValue {| json_file := "out/settings.json"; keyPath := "fontSize";
                        valueType := vt_number; valueRaw := "large";
                        valueBool := false |}]
  /\ Number_isNaN (Number "large") = true
  /\ errorCount (validation (steps idle_number)) = 0
  /\ issueMap (validation (steps idle_number)) = ∅
  /\ errors (build_plan (steps idle_number)) = []
  /\ backend_calls (run unhindered 0 (handleBuild idle_number)) = 2
  /\ List.length (builds (run unhindered 0 (handleBuild idle_number))) = 1.
Proof. repeat split; reflexivity. Qed.

(** Claim C3, amended.  For an enabled [setJsonValue] step of type
    [number] whose [valueRaw] is not a number ([Number(valueRaw)] is
    [NaN]): the validation memo reports the error "JSON number value is
    invalid." for the step, and [handleBuild] throws before any backend
    command: its run is the start-up updates, the "Forge failed" log line
    and [setBuilding(false)]; neither [inspect_build_target] nor
    [build_project] is invoked.  The same step switched off is passed
    over: it changes neither the validation memo nor the plan of the
    build. *)
Theorem invalid_number_fails_before_build
    (st : Dashboard) (w : World) (step : UiStep) (j : SetJsonValueStep) :
  In step (steps st) ->
  fields step = SetJsonValue j ->
  valueType j = vt_number ->
  Number_isNaN (Number (valueRaw j)) = true ->
  (enabled step = true ->
     has_issue (validation (steps st)) (id step) invalid_number
     /\ 0 < errorCount (validation (steps st))
     /\ errors (build_plan (steps st)) <> []
     /\ run w 0 (handleBuild st)
        = [did_setBuilding true; did_log "Summoning the forge...";
           did_log ("Forge failed: Error: "
                    +:+ join " " (errors (build_plan (steps st))));
           did_setBuilding false]
     /\ backend_calls (run w 0 (handleBuild st)) = 0)
  /\ (enabled step = false ->
        (forall v, validate_step v step = v)
        /\ (forall p, plan_step p step = p)).
Proof.
  intros Hin Hf Ht Hn. split.
  2: { intros He. split; intros x;
         [now apply validate_step_disabled | now apply plan_step_disabled]. }
  intros He.
  apply in_split in Hin as (l1 & l2 & Hsteps).
  assert (Herr : errors (build_plan (steps st)) <> []).
  { unfold build_plan. rewrite Hsteps, fold_left_app_step.
    set (p := fold_left plan_step l1 _).
    assert (Hstep : exists e, In e (errors (plan_step p step))).
    { unfold plan_step. rewrite He, Hf, Ht, Hn. simpl.
      destruct (is_empty (trim (json_file j)));
        [| destruct (is_empty (trim (keyPath j)))];
        eexists; apply in_or_app; right; left; reflexivity. }
    destruct Hstep as [e Hine].
    pose proof (fold_plan_errors l2 _ e Hine) as Hfin.
    intros Hnil. rewrite Hnil in Hfin. exact Hfin. }
  unfold validation. rewrite Hsteps, fold_left_app_step.
  set (v := fold_left validate_step l1 _).
  destruct (validate_step_invalid_number v step j He Hf Ht Hn) as [Hi Hc].
  split; [now apply fold_validate_keeps |].
  split.
  { eapply Nat.lt_le_trans; [| apply fold_validate_errorCount]. lia. }
  split; [rewrite <- Hsteps; exact Herr |].
  rewrite <- Hsteps.
  split; [now apply handleBuild_stops_on_errors
         | now apply handleBuild_no_backend_call_on_errors].
Qed.

Lemma invalid_number_fails_before_build_witness :
  has_issue (validation (steps bad_number)) "1" invalid_number
  /\ backend_calls (run hesitant 0 (handleBuild bad_number)) = 0.
Proof.
  destruct (invalid_number_fails_before_build bad_number hesitant
              (json_step "1" "out/settings.json" "fontSize" vt_number "large")
              {| json_file := "out/settings.json"; keyPath := "fontSize";
                 valueType := vt_number; valueRaw := "large"; valueBool := false |})
    as [H _];
    [now left | reflexivity | reflexivity | reflexivity |].
  destruct (H eq_refl) as (H1 & _ & _ & _ & H5).
  split; [exact H1 | exact H5].
Defined.

End ValidationFacts.

Module PlanClaims.
Import Text Js Studio PlanFacts BuildFlow Samples.Forge.

Lemma plan_step_staged_or_claimed (p : Plan) (step : UiStep) (rel source : string) :
  payload_claim step = Some (rel, source) -> trim rel <> EmptyString ->
  get (trim rel) (payloadMap (plan_step p step)) = Some source
  \/ In (claimed (trim rel)) (errors (plan_step p step)).
Proof.
  intros Hc Hne. destruct (plan_step_claim p step rel source Hc) as [s ->].
  exact (addPayload_outcome rel source p Hne).
Qed.

Lemma plan_step_collision (p : Plan) (step : UiStep) (rel source other : string) :
  payload_claim step = Some (rel, source) -> trim rel <> EmptyString ->
  get (trim rel) (payloadMap p) = Some other -> other <> source ->
  In (claimed (trim rel)) (errors (plan_step p step)).
Proof.
  intros Hc Hne Hget Hdiff. destruct (plan_step_claim p step rel source Hc) as [s ->].
  exact (addPayload_collision rel source other p Hne Hget Hdiff).
Qed.

(** Claim C2, amended.  Take two steps of a build, the first before the
    second, that both reach [addPayload] (they are enabled [copy],
    [patchBlock] or [base64Embed] steps whose required fields are
    filled in) with the same non-empty trimmed staged name and with
    different trimmed sources.  Then [handleBuild] records
    "A payload path is already claimed: <name>" and stops with "Forge
    failed" before any backend command: no build request is sent, so the
    later source never replaces the earlier one. *)
Theorem colliding_payloads_abort
    (st : Dashboard) (w : World) (i j : nat) (si sj : UiStep)
    (rel_i source_i rel_j source_j : string) :
  i < j ->
  steps st !! i = Some si ->
  steps st !! j = Some sj ->
  payload_claim si = Some (rel_i, source_i) ->
  payload_claim sj = Some (rel_j, source_j) ->
  trim rel_i = trim rel_j ->
  trim rel_i <> EmptyString ->
  source_i <> source_j ->
  In (claimed (trim rel_i)) (errors (build_plan (steps st)))
  /\ run w 0 (handleBuild st)
     = [did_setBuilding true; did_log "Summoning the forge...";
        did_log ("Forge failed: Error: " +:+ join " " (errors (build_plan (steps st))));
        did_setBuilding false]
  /\ backend_calls (run w 0 (handleBuild st)) = 0.
Proof.
  intros Hij Hi Hj Hci Hcj Hrel Hne Hsrc.
  assert (Hin : In (claimed (trim rel_i)) (errors (build_plan (steps st)))).
  { (* cut the list of steps at the two positions *)
    pose proof (take_drop_middle _ _ _ Hj) as Hcut.
    assert (Hi' : take j (steps st) !! i = Some si)
      by (rewrite lookup_take_lt by exact Hij; exact Hi).
    pose proof (take_drop_middle _ _ _ Hi') as Hcut'.
    unfold build_plan. rewrite <- Hcut, <- Hcut'.
    rewrite fold_left_app_step.
    apply fold_plan_errors.
    rewrite fold_left_app_step.
    set (p1 := fold_left plan_step (take i (take j (steps st))) _).
    destruct (plan_step_staged_or_claimed p1 si rel_i source_i Hci Hne)
      as [Hstaged | Hclaimed].
    - rewrite Hrel. eapply plan_step_collision; [exact Hcj | | | exact Hsrc].
      + now rewrite <- Hrel.
      + rewrite <- Hrel. now apply fold_plan_keeps.
    - destruct (plan_step_errors
                  (fold_left plan_step (list.drop (S i) (take j (steps st)))
                     (plan_step p1 si)) sj) as [es ->].
      apply in_or_app. left. now apply fold_plan_errors. }
  assert (Hne' : errors (build_plan (steps st)) <> []).
  { intros Hnil. rewrite Hnil in Hin. exact Hin. }
  split; [exact Hin |].
  split; [now apply handleBuild_stops_on_errors
         | now apply handleBuild_no_backend_call_on_errors].
Qed.


Lemma colliding_payloads_abort_witness :
  In (claimed "a.css") (errors (build_plan (steps colliding)))
  /\ backend_calls (run hesitant 0 (handleBuild colliding)) = 0.
Proof.
  destruct (colliding_payloads_abort colliding hesitant 0 1
              (copy_step "1" "C:\themes\a.css" "a.css" "themes/a.css")
              (copy_step "2" "C:\other\a.css" "a.css" "other/a.css")
              "a.css" "C:\themes\a.css" "a.css" "C:\other\a.css")
    as (H1 & _ & H3);
    [lia | reflexivity | reflexivity | reflexivity | reflexivity | reflexivity
    | discriminate | discriminate |].
  split; [exact H1 | exact H3].
Defined.

(** Claim C2, as stated, fails on the recorded error: two enabled copy
    decrees with different sources whose staged names are equal once
    trimmed, but empty.  [addPayload] refuses each name as empty and
    never gets to the collision test, so no "already claimed" error is
    recorded (the build stops all the same). *)
Lemma blank_names_not_claimed :
  payload_claim (copy_step "1" "/a/ /" "" "out/a") = Some (" ", "/a/ /")
  /\ payload_claim (copy_step "2" "/b/ /" "" "out/b") = Some (" ", "/b/ /")
  /\ trim " " = EmptyString
  /\ errors (build_plan (steps blank_names))
     = ["A payload path cannot be empty."; "A payload path cannot be empty."]
  /\ ~ In (claimed (trim " ")) (errors (build_plan (steps blank_names))).
Proof.
  repeat split; try reflexivity.
  intros [H | [H | []]]; discriminate H.
Qed.

End PlanClaims.

Module ExportClaims.
Import Text Js Studio PlanFacts BuildFlow Samples.Forge.










End ExportClaims.

(** ** Preset normalisation *)

Module PresetFacts.
Import Text Js Studio.

Section JsonInduction.
Variable P : json -> Prop.
Hypothesis Hnull : P JNull.
Hypothesis Hbool : forall b, P (JBool b).
Hypothesis Hnum : forall n, P (JNum n).
Hypothesis Hstr : forall s, P (JStr s).
Hypothesis Harr : forall items, Forall P items -> P (JArr items).
Hypothesis Hobj : forall props, Forall (fun kv => P (snd kv)) props -> P (JObj props).

Fixpoint json_nested_ind (v : json) : P v :=
  match v with
  | JNull => Hnull
  | JBool b => Hbool b
  | JNum n => Hnum n
  | JStr s => Hstr s
  | JArr items =>
      Harr items
        ((fix each (l : list json) : Forall P l :=
            match l with
            | [] => List.Forall_nil P
            | x :: r => List.Forall_cons P x r (json_nested_ind x) (each r)
            end) items)
  | JObj props =>
      Hobj props
        ((fix each (l : list (string * json)) : Forall (fun kv => P (snd kv)) l :=
            match l with
            | [] => List.Forall_nil _
            | x :: r => List.Forall_cons _ x r (json_nested_ind (snd x)) (each r)
            end) props)
  end.
End JsonInduction.

Section Total.
Variable NumberToString : string -> string.

Lemma ToString_printable (v : json) :
  printable v = true -> is_Some (ToString NumberToString v).
Proof.
  induction v as [| b | n | s | items IH | props IH] using json_nested_ind;
    intros Hp; simpl.
  - eauto.
  - destruct b; eauto.
  - eauto.
  - eauto.
  - simpl in Hp.
    match goal with
    | |- is_Some (match ?e with _ => _ end) =>
        assert (He : is_Some e); [| destruct He as [texts ->]; eauto]
    end.
    induction items as [|i items IHitems]; [eauto |].
    simpl in Hp. apply andb_true_iff in Hp as [Hi Hrest].
    inversion IH as [|? ? IHi IHr]; subst.
    destruct (IHitems IHr Hrest) as [xs ->].
    assert (Hx : is_Some (match i with
                          | JNull => Some EmptyString
                          | _ => ToString NumberToString i
                          end)).
    { destruct i; eauto. }
    destruct Hx as [x ->]. eauto.
  - simpl in Hp. apply andb_true_iff in Hp as [Hno _].
    apply negb_true_iff in Hno. rewrite Hno. eauto.
Qed.

Lemma get_printable (k : string) (props : list (string * json)) (v : json) :
  forallb (fun kv => printable (snd kv)) props = true ->
  get k props = Some v -> printable v = true.
Proof.
  induction props as [|[k' v'] props IH]; simpl; [discriminate |].
  intros Hp. apply andb_true_iff in Hp as [Hv Hrest].
  destruct (String.eqb k k'); [intros [= <-]; exact Hv | now apply IH].
Qed.

Lemma prop_printable (k : string) (raw v : json) :
  printable raw = true -> prop k raw = Some v -> printable v = true.
Proof.
  destruct raw; simpl; try discriminate.
  intros Hp. apply andb_true_iff in Hp as [_ Hp]. now apply get_printable.
Qed.

Lemma ToString_or_empty_printable (k : string) (raw : json) :
  printable raw = true ->
  is_Some (ToString_or_empty NumberToString (prop k raw)).
Proof.
  intros Hp. unfold ToString_or_empty.
  destruct (prop k raw) as [v|] eqn:Hk; [| eauto].
  pose proof (prop_printable _ _ _ Hp Hk) as Hv.
  destruct v; eauto using ToString_printable.
Qed.

Lemma string_or_String_printable (v : option json) (k : string) (raw : json) :
  printable raw = true ->
  is_Some (string_or_String NumberToString v (prop k raw)).
Proof.
  intros Hp. unfold string_or_String.
  destruct v as [[]|]; eauto using ToString_or_empty_printable.
Qed.

Lemma replacementList_printable (raw : json) :
  printable raw = true ->
  Forall (fun pair => printable pair = true)
         (replacementList (prop "replacements" raw)).
Proof.
  intros Hp. unfold replacementList.
  destruct (prop "replacements" raw) as [v|] eqn:Hk; [| constructor].
  pose proof (prop_printable _ _ _ Hp Hk) as Hv.
  destruct v; try constructor.
  - simpl in Hv. apply Forall_forall. intros x Hx.
    rewrite forallb_forall in Hv. apply Hv. now apply list_elem_of_In.
  - simpl in Hv. apply andb_true_iff in Hv as [_ Hv].
    apply Forall_forall. intros x Hx. apply list_elem_of_In in Hx.
    apply in_map_iff in Hx as ([k v] & <- & Hin). simpl.
    rewrite forallb_forall in Hv. specialize (Hv _ Hin). simpl in Hv.
    now rewrite Hv.
Qed.

Lemma coerce_pair_printable (pair : json) :
  printable pair = true -> is_Some (coerce_pair NumberToString pair).
Proof.
  intros Hp. unfold coerce_pair.
  destruct (ToString_or_empty_printable "key" pair Hp) as [k ->].
  destruct (ToString_or_empty_printable "value" pair Hp) as [v ->].
  simpl. eauto.
Qed.

(** On a printable entry the callback of [coercePresetSteps] does not
    throw, and it keeps exactly the entries of a known type. *)
Lemma coerce_step_printable (entry : json) :
  printable entry = true ->
  exists r, coerce_step NumberToString entry = Some r
            /\ (fun s => type_of (preset_fields s)) <$> r = known_type entry.
Proof.
  intros Hp. destruct entry as [| | | | items | props];
    try (eexists; split; reflexivity).
  unfold coerce_step, known_type.
  change (prop "type" (JObj props)) with (get "type" props).
  destruct (get "type" props) as [[| | | name | |]|];
    try (eexists; split; reflexivity).
  unfold step_type_of_name.
  destruct (String.eqb name "copy").
  { destruct (string_or_String_printable (prop "payloadRel" (JObj props)) "src" _ Hp)
      as [rel ->].
    simpl. eexists; split; reflexivity. }
  destruct (String.eqb name "patchBlock").
  { assert (Hpairs : is_Some (mapM (coerce_pair NumberToString)
                                (replacementList (prop "replacements" (JObj props))))).
    { apply mapM_is_Some. eapply Forall_impl; [apply replacementList_printable, Hp |].
      intros pair Hpair. now apply coerce_pair_printable. }
    destruct Hpairs as [pairs ->].
    destruct (string_or_String_printable (prop "contentRel" (JObj props))
                "contentFile" _ Hp) as [rel ->].
    simpl. eexists; split; reflexivity. }
  destruct (String.eqb name "setJsonValue").
  { destruct (has "valueRaw" props || has "valueBool" props || has "valueType" props).
    - destruct (string_or_String_printable (prop "valueRaw" (JObj props))
                  "valueRaw" _ Hp) as [raw_text ->].
      simpl. eexists; split; reflexivity.
    - destruct (has "value" props).
      + simpl. destruct (valueToUi NumberToString _) as [[vt vr] vb].
        eexists; split; reflexivity.
      + simpl. eexists; split; reflexivity. }
  destruct (String.eqb name "base64Embed").
  { destruct (string_or_String_printable (prop "inputRel" (JObj props))
                "inputFile" _ Hp) as [rel ->].
    simpl. eexists; split; reflexivity. }
  destruct (String.eqb name "runCommand").
  { destruct (prop "args" (JObj props)) as [v|] eqn:Hargs;
      [| simpl; eexists; split; reflexivity].
    pose proof (prop_printable _ _ _ Hp Hargs) as Hv.
    destruct v as [| | | | items |]; try (simpl; eexists; split; reflexivity).
    assert (Htexts : is_Some (mapM (ToString NumberToString) items)).
    { apply mapM_is_Some. simpl in Hv. apply Forall_forall. intros x Hx.
      apply ToString_printable. rewrite forallb_forall in Hv.
      apply Hv. now apply list_elem_of_In. }
    destruct Htexts as [texts ->]. simpl. eexists; split; reflexivity. }
  eexists; split; reflexivity.
Qed.

Lemma coercePresetSteps_printable (items : list json) :
  forallb printable items = true ->
  exists steps,
    coercePresetSteps NumberToString (Some (JArr items)) = Some steps
    /\ List.map (fun s => type_of (preset_fields s)) steps = omap known_type items.
Proof.
  intros Hp. unfold coercePresetSteps.
  induction items as [|entry items IH]; [now exists [] |].
  simpl in Hp. apply andb_true_iff in Hp as [He Hrest].
  destruct (IH Hrest) as (steps & Hsteps & Htypes).
  destruct (coerce_step_printable entry He) as (r & Hr & Hty).
  destruct (mapM (coerce_step NumberToString) items) as [coerced|] eqn:Hm;
    [| discriminate].
  simpl in Hsteps. injection Hsteps as <-.
  cbn [mapM]. rewrite Hr. simpl. rewrite Hm. simpl.
  destruct r as [s|]; simpl in Hty |- *; rewrite <- Hty.
  - eexists. split; [reflexivity |]. simpl. f_equal. exact Htypes.
  - eexists. split; [reflexivity |]. exact Htypes.
Qed.

End Total.
End PresetFacts.

Module PresetClaims.
Import Text Js Studio PresetFacts Samples.Presets.

(** Claim C10, as stated, fails: the normalisation is not total.  For a
    field that is not a string it falls back on [String(...)], and
    [String] throws a [TypeError] on an object that has a [toString]
    property of its own. *)
Lemma normalizePresetData_throws :
  normalizePresetData literal_text hostile_preset = None
  /\ coercePresetSteps literal_text (prop "steps" hostile_preset) = None.
Proof. split; reflexivity. Qed.

(** Claim C10, amended.  On every JSON value none of whose objects has a
    property named [toString], [normalizePresetData] returns a
    [PresetData]: each identity field is the string found in the input,
    or its default when the property is missing or not a string, and the
    steps are, in order, one step for each entry of [steps] that is an
    object of one of the five known types; every other entry is dropped. *)
Theorem normalizePresetData_total_on_printable
    (NumberToString : string -> string) (raw : json) :
  printable raw = true ->
  exists data,
    normalizePresetData NumberToString raw = Some data
    /\ PresetData.appName data
       = match prop "appName" raw with Some (JStr s) => s | _ => "My App" end
    /\ PresetData.version data
       = match prop "version" raw with Some (JStr s) => s | _ => "1.0.0" end
    /\ PresetData.publisher data
       = match prop "publisher" raw with Some (JStr s) => s | _ => "Misfit" end
    /\ PresetData.description data
       = match prop "description" raw with
         | Some (JStr s) => s
         | _ => "Created with Misfit Studio"
         end
    /\ coercePresetSteps NumberToString (prop "steps" raw)
       = Some (PresetData.steps data)
    /\ List.map (fun s => type_of (preset_fields s)) (PresetData.steps data)
       = omap known_type (step_entries raw).
Proof.
  intros Hp.
  assert (Hsteps : exists steps,
             coercePresetSteps NumberToString (prop "steps" raw) = Some steps
             /\ List.map (fun s => type_of (preset_fields s)) steps
                = omap known_type (step_entries raw)).
  { unfold step_entries.
    destruct (prop "steps" raw) as [v|] eqn:Hk; [| now exists []].
    pose proof (prop_printable _ _ _ Hp Hk) as Hv.
    destruct v; try (now exists []).
    now apply coercePresetSteps_printable. }
  destruct Hsteps as (steps & Hc & Hty).
  unfold normalizePresetData. rewrite Hc. simpl.
  eexists. split; [reflexivity |]. simpl.
  repeat split; assumption.
Qed.

Lemma normalizePresetData_total_on_printable_witness :
  exists data,
    normalizePresetData literal_text untidy_preset = Some data
    /\ PresetData.appName data = "My App"
    /\ List.map (fun s => type_of (preset_fields s)) (PresetData.steps data)
       = [copy; runCommand].
Proof.
  destruct (normalizePresetData_total_on_printable literal_text untidy_preset)
    as (data & Hd & Happ & _ & _ & _ & _ & Hty); [reflexivity |].
  exists data. split; [exact Hd |]. split; [exact Happ | exact Hty].
Defined.

End PresetClaims.

(** ** Resolving payload references *)

Module BoundaryFacts.
Import Text Js Studio.

Lemma path_fields_nonempty (s : string) : path_fields s <> [].
Proof.
  destruct s as [|c t]; simpl; [discriminate |].
  destruct (is_sep c); [discriminate |]. now destruct (path_fields t).
Qed.

Lemma path_fields_sep (a b : string) (c : ascii) :
  is_sep c = true ->
  path_fields (a +:+ String c b) = path_fields a ++ path_fields b.
Proof.
  intros Hc. induction a as [|d a IH]; simpl.
  - now rewrite Hc.
  - rewrite IH. destruct (is_sep d); [reflexivity |].
    pose proof (path_fields_nonempty a) as Hne.
    now destruct (path_fields a).
Qed.

Lemma segments_sep (a b : string) (c : ascii) :
  is_sep c = true -> segments (a +:+ String c b) = segments a ++ segments b.
Proof.
  intros Hc. unfold segments. rewrite (path_fields_sep _ _ _ Hc).
  apply List.filter_app.
Qed.


Lemma path_fields_cons (c : ascii) (t : string) :
  path_fields (String c t)
  = if is_sep c then EmptyString :: path_fields t
    else match path_fields t with
         | [] => [String c EmptyString]
         | f :: fs => String c f :: fs
         end.
Proof. reflexivity. Qed.

Lemma strip_trailing_seps_cons (c : ascii) (t : string) :
  strip_trailing_seps (String c t)
  = match strip_trailing_seps t with
    | EmptyString => if is_sep c then EmptyString else String c EmptyString
    | t' => String c t'
    end.
Proof. reflexivity. Qed.

Lemma path_fields_strip_trailing (s : string) :
  exists n, path_fields s
            = path_fields (strip_trailing_seps s) ++ repeat EmptyString n.
Proof.
  induction s as [|c t [n IH]]; [now exists 0 |].
  rewrite strip_trailing_seps_cons, path_fields_cons, IH.
  destruct (strip_trailing_seps t) as [|d t'].
  - destruct (is_sep c) eqn:Hc.
    + now exists (S n).
    + exists n. rewrite path_fields_cons, Hc. reflexivity.
  - rewrite (path_fields_cons c (String d t')).
    exists n. destruct (is_sep c); [reflexivity |].
    pose proof (path_fields_nonempty (String d t')) as Hne.
    now destruct (path_fields (String d t')).
Qed.

Lemma segments_strip_trailing (s : string) :
  segments (strip_trailing_seps s) = segments s.
Proof.
  destruct (path_fields_strip_trailing s) as [n Hn].
  unfold segments. rewrite Hn, List.filter_app.
  replace (List.filter _ (repeat EmptyString n)) with (@nil string).
  - now rewrite app_nil_r.
  - clear Hn. induction n as [|n IH]; [reflexivity | exact IH].
Qed.

Lemma segments_strip_leading (s : string) :
  segments (strip_leading_seps s) = segments s.
Proof.
  unfold strip_leading_seps, segments.
  induction s as [|c t IH]; simpl; [reflexivity |].
  destruct (is_sep c) eqn:Hc; simpl; [exact IH |].
  now rewrite Hc.
Qed.

Lemma mem_backslash_sep (b : bool) :
  is_sep (if b then "\"%char else "/"%char) = true.
Proof. now destruct b. Qed.

(** Joining puts the segments of the reference after those of the
    folder. *)
Lemma segments_joinPathFragments (base rel : string) :
  segments (joinPathFragments base rel) = segments base ++ segments rel.
Proof.
  unfold joinPathFragments.
  rewrite <- (segments_strip_trailing base), <- (segments_strip_leading rel).
  destruct (strip_trailing_seps base) as [|c b] eqn:Hb; simpl is_empty; cbv iota.
  - reflexivity.
  - destruct (strip_leading_seps rel) as [|d r] eqn:Hr; simpl is_empty; cbv iota.
    + now rewrite app_nil_r.
    + destruct (mem_char "\" (String c b)).
      * change ("\" +:+ String d r) with (String "\"%char (String d r)).
        now rewrite segments_sep.
      * change ("/" +:+ String d r) with (String "/"%char (String d r)).
        now rewrite segments_sep.
Qed.

Lemma walk_app (stack a b : list string) :
  walk stack (a ++ b)
  = match walk stack a with
    | Some s => walk s b
    | None => None
    end.
Proof.
  revert stack; induction a as [|x a IH]; intros stack;
    cbn [walk app]; [reflexivity |].
  destruct (String.eqb x ".."); [destruct stack |]; auto.
Qed.

Lemma walk_down (stack segs : list string) :
  existsb (String.eqb "..") segs = false ->
  walk stack segs = Some (rev segs ++ stack).
Proof.
  revert stack; induction segs as [|x segs IH]; intros stack;
    cbn [walk existsb rev app]; [reflexivity |].
  intros H. apply orb_false_iff in H as [Hx Hrest].
  rewrite String.eqb_sym, Hx, (IH _ Hrest).
  now rewrite <- app_assoc.
Qed.

(** A reference without [..] joined to a folder stays inside it. *)
Lemma joinPathFragments_inside (base rel : string) :
  is_Some (location base) -> has_dotdot rel = false ->
  inside base (joinPathFragments base rel) = true.
Proof.
  intros [d Hd] Hrel. unfold inside, location in *.
  rewrite segments_joinPathFragments, walk_app, Hd, (walk_down _ _ Hrel).
  apply bool_decide_eq_true. now exists (rev (segments rel)).
Qed.

(** What [joinPathFragments] strips away entirely. *)
Lemma strip_trailing_seps_empty (s : string) :
  strip_trailing_seps s = EmptyString <-> all_chars is_sep s = true.
Proof.
  induction s as [|c t IH]; [now split |].
  rewrite strip_trailing_seps_cons. cbn [all_chars].
  destruct (strip_trailing_seps t) as [|d t'].
  - destruct (is_sep c); [| now split].
    split; [intros _; now apply IH | reflexivity].
  - split; [discriminate |]. intros H. apply andb_true_iff in H as [_ H].
    apply IH in H. discriminate.
Qed.

Lemma strip_leading_seps_empty (s : string) :
  strip_leading_seps s = EmptyString <-> all_chars is_sep s = true.
Proof.
  unfold strip_leading_seps.
  induction s as [|c t IH]; [now split |].
  cbn [drop_while all_chars]. destruct (is_sep c); [exact IH |].
  now split.
Qed.

Lemma joinPathFragments_empty (base rel : string) :
  joinPathFragments base rel = EmptyString
  <-> all_chars is_sep base = true /\ all_chars is_sep rel = true.
Proof.
  rewrite <- strip_trailing_seps_empty, <- strip_leading_seps_empty.
  unfold joinPathFragments.
  destruct (strip_trailing_seps base) as [|c b]; cbn [is_empty].
  - split; [now split | now intros [_ H]].
  - destruct (strip_leading_seps rel) as [|d r]; cbn [is_empty].
    + split; [discriminate | now intros [H _]].
    + split; [discriminate | now intros [H _]].
Qed.

End BoundaryFacts.

Module BoundaryClaims.
Import Text Js Studio BoundaryFacts Samples.Forge Samples.Presets.

(** Claim C8, as stated, fails: [resolvePayloadSource] rejects nothing
    for leaving [payloadDir].  It is not told [advancedMode] and returns
    an absolute reference as it is; it joins a reference that climbs with
    [..] to [payloadDir] without looking at it.  Importing a manifest
    whose [advancedMode] is off resolves both kinds of reference to
    places outside the payload folder. *)
Lemma resolvePayloadSource_leaves_payloadDir :
  resolvePayloadSource (Some "payloads") (Some "/etc/passwd") = "/etc/passwd"
  /\ inside "payloads" "/etc/passwd" = false
  /\ resolvePayloadSource (Some "payloads") (Some "../secret.txt")
     = "payloads/../secret.txt"
  /\ inside "payloads" "payloads/../secret.txt" = false
  /\ InstallManifest.advancedMode escaping_manifest = false
  /\ List.map fields
       (steps (applyManifest literal_text numbered escaping_manifest (studio [])))
     = [Copy {| payloadSource := "/etc/passwd"; payloadRel := "/etc/passwd";
                dest := "out/passwd" |};
        Copy {| payloadSource := "payloads/../secret.txt";
                payloadRel := "../secret.txt"; dest := "out/secret.txt" |}].
Proof. repeat split; vm_compute; reflexivity. Qed.

(** Claim C8, amended.  [resolvePayloadSource] gives the empty string
    (no source) in exactly four cases: an empty [payloadDir], a blank
    reference, a reference that holds a [<placeholder>], or a
    [payloadDir] and a reference that is not absolute which both consist
    of path separators only.  It returns an absolute reference unchanged,
    whatever [advancedMode] is; any other reference is joined to
    [payloadDir], and the result lies inside [payloadDir] when the
    reference has no [..] segment and [payloadDir] itself leads somewhere,
    that is, does not climb with [..] above the folder it starts from. *)
Theorem resolvePayloadSource_boundary (dir rel : string) :
  (resolvePayloadSource (Some dir) (Some rel) = EmptyString
   <-> dir = EmptyString \/ trim rel = EmptyString
       \/ placeholderPattern_test (trim rel) = true
       \/ (isAbsolutePath (trim rel) = false
           /\ all_chars is_sep dir = true /\ all_chars is_sep (trim rel) = true))
  /\ (dir <> EmptyString -> trim rel <> EmptyString ->
      placeholderPattern_test (trim rel) = false ->
      (isAbsolutePath (trim rel) = true ->
         resolvePayloadSource (Some dir) (Some rel) = trim rel)
      /\ (isAbsolutePath (trim rel) = false ->
            resolvePayloadSource (Some dir) (Some rel)
            = joinPathFragments dir (trim rel)
            /\ (is_Some (location dir) -> has_dotdot (trim rel) = false ->
                  inside dir (resolvePayloadSource (Some dir) (Some rel)) = true))).
Proof.
  unfold resolvePayloadSource, isAbsolutePath. simpl default. split.
  - split.
    + destruct (is_empty dir) eqn:Hd;
        [left; now destruct dir |].
      destruct (is_empty (trim rel)) eqn:Hr;
        [right; left; now destruct (trim rel) |].
      cbn [orb].
      destruct (placeholderPattern_test (trim rel)) eqn:Hp;
        [right; right; left; reflexivity |].
      destruct (drive_prefix (trim rel) || startsWith (trim rel) "\\"
                || startsWith (trim rel) "/") eqn:Ha.
      * intros H. rewrite H in Hr. discriminate.
      * intros H. apply joinPathFragments_empty in H.
        right; right; right. now split.
    + intros [-> | [-> | [-> | (Ha & Hd & Hr)]]]; [reflexivity | | | ].
      * now rewrite orb_true_r.
      * now destruct (is_empty dir || is_empty (trim rel)).
      * rewrite Ha.
        destruct (is_empty dir || is_empty (trim rel)); [reflexivity |].
        destruct (placeholderPattern_test (trim rel)); [reflexivity |].
        apply joinPathFragments_empty. now split.
  - intros Hd Hr Hp.
    apply PlanFacts.is_empty_false in Hd, Hr. rewrite Hd, Hr, Hp. simpl.
    split.
    + now intros ->.
    + intros ->. split; [reflexivity |].
      intros Hloc Hdd. now apply joinPathFragments_inside.
Qed.

Lemma resolvePayloadSource_boundary_witness :
  resolvePayloadSource (Some "payloads/antigravity")
    (Some "overlays/workbench.overlay.css")
  = "payloads/antigravity/overlays/workbench.overlay.css"
  /\ inside "payloads/antigravity"
       (resolvePayloadSource (Some "payloads/antigravity")
          (Some "overlays/workbench.overlay.css")) = true
  /\ resolvePayloadSource (Some "/") (Some "\") = EmptyString.
Proof.
  destruct (resolvePayloadSource_boundary "payloads/antigravity"
              "overlays/workbench.overlay.css") as [_ H].
  destruct (H ltac:(discriminate) ltac:(discriminate) eq_refl) as [_ H2].
  destruct (H2 eq_refl) as [H3 H4].
  split; [exact H3 |].
  split; [apply H4; [now eexists | reflexivity] |].
  apply (proj1 (resolvePayloadSource_boundary "/" "\")).
  right; right; right. repeat split; reflexivity.
Defined.

End BoundaryClaims.

(** ** Export and import of manifests *)

Module RoundTripFacts.
Import Text Js Studio.

(** **** Replacements *)

Lemma has_app_last {A : Type} (k k' : string) (v : A) (m : list (string * A)) :
  has k' (m ++ [(k, v)]) = has k' m || String.eqb k' k.
Proof.
  unfold has. induction m as [|[k2 v2] m IH]; simpl.
  - now destruct (String.eqb k' k).
  - destruct (String.eqb k' k2); [reflexivity | exact IH].
Qed.

Lemma insert_ordered_plain {A : Type} (k : string) (v : A) (m : list (string * A)) :
  array_index k = None -> insert_ordered k v m = m ++ [(k, v)].
Proof.
  intros Hk. induction m as [|[k' v'] m IH]; [reflexivity |].
  cbn [insert_ordered app]. rewrite Hk. now rewrite IH.
Qed.









(** **** Arguments *)

Lemma split_comma_nonempty (s : string) : split_comma s <> [].
Proof.
  destruct s as [|c t]; simpl; [discriminate |].
  destruct (Ascii.eqb c ","); [discriminate |]. now destruct (split_comma t).
Qed.

Lemma split_comma_cons (c : ascii) (t : string) :
  split_comma (String c t)
  = if Ascii.eqb c "," then EmptyString :: split_comma t
    else match split_comma t with
         | [] => [String c EmptyString]
         | f :: fs => String c f :: fs
         end.
Proof. reflexivity. Qed.

Lemma mem_char_cons (c d : ascii) (t : string) :
  mem_char c (String d t) = if Ascii.eqb c d then true else mem_char c t.
Proof. reflexivity. Qed.

Lemma split_comma_plain (a : string) :
  mem_char "," a = false -> split_comma a = [a].
Proof.
  induction a as [|c a IH]; [reflexivity |].
  rewrite mem_char_cons, split_comma_cons, (Ascii.eqb_sym c).
  destruct (Ascii.eqb "," c); [discriminate |]. intros H. now rewrite (IH H).
Qed.

Lemma split_comma_app (a r : string) :
  mem_char "," a = false ->
  split_comma (a +:+ String "," r) = a :: split_comma r.
Proof.
  induction a as [|c a IH]; [reflexivity |].
  rewrite mem_char_cons. simpl String.append.
  rewrite split_comma_cons, (Ascii.eqb_sym c).
  destruct (Ascii.eqb "," c); [discriminate |]. intros H. now rewrite (IH H).
Qed.

Lemma trim_after_space (s : string) : trim (String " " s) = trim s.
Proof. reflexivity. Qed.

Lemma parse_args_after_space (s : string) :
  parse_args (String " " s) = parse_args s.
Proof.
  unfold parse_args. rewrite split_comma_cons.
  change (Ascii.eqb " " ",") with false. cbv iota.
  pose proof (split_comma_nonempty s) as Hne.
  destruct (split_comma s) as [|f fs]; [congruence |].
  cbn [List.map]. now rewrite trim_after_space.
Qed.

Lemma join_cons2 (sep x y : string) (l : list string) :
  join sep (x :: y :: l) = x +:+ sep +:+ join sep (y :: l).
Proof. reflexivity. Qed.

Lemma parse_args_join (l : list string) :
  Forall plain_arg l -> parse_args (join ", " l) = l.
Proof.
  induction 1 as [|x l (Htrim & Hne & Hcomma) Hrest IH]; [reflexivity |].
  destruct l as [|y l].
  - unfold parse_args. simpl join. rewrite (split_comma_plain _ Hcomma).
    cbn [List.map List.filter]. rewrite Htrim.
    destruct x; [congruence | reflexivity].
  - rewrite join_cons2.
    change (", " +:+ join ", " (y :: l))
      with (String "," (String " " (join ", " (y :: l)))).
    unfold parse_args. rewrite (split_comma_app _ _ Hcomma).
    cbn [List.map List.filter]. rewrite Htrim.
    destruct x as [|c x]; [congruence |]. cbn [is_empty negb].
    f_equal. fold (parse_args (String " " (join ", " (y :: l)))).
    rewrite parse_args_after_space. exact IH.
Qed.

(** **** One step *)

Section OneStep.
Variable NumberToString : string -> string.


Lemma or_else_nonempty (a b : string) : a <> EmptyString -> or_else a b = a.
Proof. destruct a; [congruence | reflexivity]. Qed.


(** **** The list of steps *)





End OneStep.

End RoundTripFacts.

Module RoundTripClaims.
Import Text Js Studio RoundTripFacts Samples.Forge Samples.Presets.





End RoundTripClaims.
(** ** Staged names and file names *)

Module NameFacts.
Import Text Js Studio TextFacts PlanFacts RoundTripFacts.

Lemma last_segment_no_sep (s : string) : has_sep (last_segment s) = false.
Proof.
  induction s as [|c t IH]; simpl; [reflexivity |].
  destruct (is_sep c) eqn:Hc; [exact IH |].
  destruct (has_sep t) eqn:Ht; [exact IH |].
  simpl. now rewrite Hc, Ht.
Qed.

Lemma last_segment_plain (s : string) : has_sep s = false -> last_segment s = s.
Proof.
  destruct s as [|c t]; simpl; [reflexivity |].
  intros H. apply orb_false_iff in H as [Hc Ht]. now rewrite Hc, Ht.
Qed.

Lemma has_sep_append (a b : string) : has_sep (a +:+ b) = has_sep a || has_sep b.
Proof.
  induction a as [|c a IH]; simpl; [reflexivity |].
  now rewrite IH, orb_assoc.
Qed.

Lemma last_segment_after_sep (dir : string) (c : ascii) (name : string) :
  is_sep c = true -> has_sep name = false ->
  last_segment (dir +:+ String c name) = name.
Proof.
  intros Hc Hn. induction dir as [|d dir IH]; simpl.
  - rewrite Hc. now apply last_segment_plain.
  - destruct (is_sep d); [exact IH |].
    rewrite has_sep_append. simpl. rewrite Hc, orb_true_r. exact IH.
Qed.

Lemma strip_trailing_seps_keeps (x name : string) :
  name <> EmptyString -> has_sep name = false ->
  strip_trailing_seps (x +:+ name) = x +:+ name.
Proof.
  intros Hne Hn. induction x as [|d x IH]; simpl.
  - clear Hne. induction name as [|c t IHt]; simpl; [reflexivity |].
    simpl in Hn. apply orb_false_iff in Hn as [Hc Ht].
    rewrite (IHt Ht). destruct t; [now rewrite Hc | reflexivity].
  - rewrite IH. destruct (x +:+ name) eqn:E; [| reflexivity].
    destruct x; simpl in E; [congruence | discriminate].
Qed.

Lemma strip_trailing_seps_all (seps : string) :
  all_chars is_sep seps = true -> strip_trailing_seps seps = EmptyString.
Proof.
  induction seps as [|c t IH]; simpl; [reflexivity |].
  intros H. apply andb_true_iff in H as [Hc Ht]. now rewrite (IH Ht), Hc.
Qed.

Lemma strip_trailing_seps_append (x seps : string) :
  all_chars is_sep seps = true ->
  strip_trailing_seps (x +:+ seps) = strip_trailing_seps x.
Proof.
  intros H. induction x as [|d x IH]; simpl.
  - now apply strip_trailing_seps_all.
  - now rewrite IH.
Qed.

(** X1.  [toBaseName] never returns the empty text and never a text with
    a separator in it, whatever the path: the staged name it proposes is
    one plain file name. *)
Theorem toBaseName_plain (pathStr : string) :
  toBaseName pathStr <> EmptyString /\ has_sep (toBaseName pathStr) = false.
Proof.
  unfold toBaseName, or_else.
  pose proof (last_segment_no_sep (strip_trailing_seps pathStr)) as H.
  destruct (last_segment (strip_trailing_seps pathStr)) as [|c t]; simpl.
  - split; [discriminate | reflexivity].
  - split; [discriminate | exact H].
Qed.

(** X2.  [toBaseName] returns the last segment of a path: for a folder
    part [dir], a separator, a non-empty name without separators and any
    run of trailing separators, the result is the name; a path that is
    nothing but separators (or empty) gives ["file"]. *)
Theorem toBaseName_last_segment (dir name seps : string) (c : ascii) :
  is_sep c = true ->
  name <> EmptyString -> has_sep name = false ->
  all_chars is_sep seps = true ->
  toBaseName (dir +:+ String c name +:+ seps) = name
  /\ toBaseName (name +:+ seps) = name
  /\ toBaseName seps = "file".
Proof.
  intros Hc Hne Hn Hs. unfold toBaseName. split; [| split].
  - rewrite <- append_assoc, strip_trailing_seps_append by assumption.
    change (dir +:+ String c name) with (dir +:+ (String c EmptyString +:+ name)).
    rewrite <- append_assoc, strip_trailing_seps_keeps by assumption.
    rewrite append_assoc. simpl.
    rewrite last_segment_after_sep by assumption.
    now apply or_else_nonempty.
  - rewrite strip_trailing_seps_append by assumption.
    pose proof (strip_trailing_seps_keeps EmptyString name Hne Hn) as Hk.
    simpl in Hk. rewrite Hk, last_segment_plain by assumption.
    now apply or_else_nonempty.
  - now rewrite strip_trailing_seps_all.
Qed.

Lemma toBaseName_last_segment_witness :
  toBaseName "C:\themes\dark.css" = "dark.css"
  /\ toBaseName "extensions/MisfitSanctuaryTheme//" = "MisfitSanctuaryTheme"
  /\ toBaseName "dark.css\" = "dark.css"
  /\ toBaseName "//" = "file".
Proof.
  pose proof (toBaseName_last_segment "C:\themes" "dark.css" "" "\"
                eq_refl ltac:(discriminate) eq_refl eq_refl) as (H1 & _ & _).
  pose proof (toBaseName_last_segment "extensions" "MisfitSanctuaryTheme" "//" "/"
                eq_refl ltac:(discriminate) eq_refl eq_refl) as (H2 & _ & _).
  pose proof (toBaseName_last_segment "" "dark.css" "\" "/"
                eq_refl ltac:(discriminate) eq_refl eq_refl) as (_ & H3 & _).
  pose proof (toBaseName_last_segment "" "x" "//" "/"
                eq_refl ltac:(discriminate) eq_refl eq_refl) as (_ & _ & H4).
  repeat split; assumption.
Defined.

(** **** [presetFileName] *)

Lemma all_chars_drop_while (q p : ascii -> bool) (s : string) :
  all_chars q s = true -> all_chars q (drop_while p s) = true.
Proof.
  induction s as [|c t IH]; simpl; [reflexivity |].
  intros H. apply andb_true_iff in H as [Hc Ht].
  destruct (p c); [now apply IH | simpl; now rewrite Hc, Ht].
Qed.

Lemma all_chars_drop_while_end (q p : ascii -> bool) (s : string) :
  all_chars q s = true -> all_chars q (drop_while_end p s) = true.
Proof.
  induction s as [|c t IH]; simpl; [reflexivity |].
  intros H. apply andb_true_iff in H as [Hc Ht]. specialize (IH Ht).
  destruct (drop_while_end p t) as [|d r].
  - destruct (p c); simpl; [reflexivity | now rewrite Hc].
  - simpl in IH |- *. now rewrite Hc, IH.
Qed.

Lemma dash_runs_name_chars (in_run : bool) (s : string) :
  all_chars is_name_char (dash_runs in_run s) = true.
Proof.
  revert in_run; induction s as [|c t IH]; intros in_run; simpl; [reflexivity |].
  destruct (is_name_char c) eqn:Hc; simpl; [now rewrite Hc, IH |].
  destruct in_run; simpl; [apply IH | now rewrite IH].
Qed.

Lemma dash_runs_fixed (in_run : bool) (s : string) :
  all_chars is_name_char s = true -> dash_runs in_run s = s.
Proof.
  revert in_run; induction s as [|c t IH]; intros in_run; simpl; [reflexivity |].
  intros H. apply andb_true_iff in H as [Hc Ht]. now rewrite Hc, IH.
Qed.

Lemma drop_while_end_idem (p : ascii -> bool) (s : string) :
  drop_while_end p (drop_while_end p s) = drop_while_end p s.
Proof.
  induction s as [|c t IH]; simpl; [reflexivity |].
  destruct (drop_while_end p t) as [|d r] eqn:E.
  - destruct (p c) eqn:Hc; simpl; [reflexivity | now rewrite Hc].
  - change (drop_while_end p (String c (String d r)))
      with (match drop_while_end p (String d r) with
            | EmptyString => if p c then EmptyString else String c EmptyString
            | String e u => String c (String e u)
            end).
    now rewrite IH.
Qed.

Lemma drop_while_head (p : ascii -> bool) (s : string) :
  match drop_while p s with
  | EmptyString => True
  | String c _ => p c = false
  end.
Proof.
  induction s as [|c t IH]; simpl; [exact I |].
  destruct (p c) eqn:Hc; [exact IH | exact Hc].
Qed.

Lemma drop_while_end_head (p : ascii -> bool) (c : ascii) (t : string) :
  p c = false -> exists r, drop_while_end p (String c t) = String c r.
Proof.
  intros Hc. simpl. destruct (drop_while_end p t); [rewrite Hc |]; eauto.
Qed.

(** Stripping both ends a second time changes nothing. *)
Lemma drop_both_idem (p : ascii -> bool) (s : string) :
  drop_while_end p (drop_while p (drop_while_end p (drop_while p s)))
  = drop_while_end p (drop_while p s).
Proof.
  pose proof (drop_while_head p s) as Hh.
  destruct (drop_while p s) as [|c t]; [reflexivity |].
  destruct (drop_while_end_head p c t Hh) as [r Hr].
  rewrite Hr. cbn [drop_while]. rewrite Hh, <- Hr.
  apply drop_while_end_idem.
Qed.

Lemma strip_dashes_idem (s : string) : strip_dashes (strip_dashes s) = strip_dashes s.
Proof. apply drop_both_idem. Qed.

Lemma trimStart_drop_while (s : string) : trimStart s = drop_while is_ws s.
Proof. induction s as [|c t IH]; simpl; [reflexivity |]. now rewrite IH. Qed.

Lemma trimEnd_drop_while_end (s : string) : trimEnd s = drop_while_end is_ws s.
Proof. induction s as [|c t IH]; simpl; [reflexivity |]. now rewrite IH. Qed.

Lemma trim_idem (s : string) : trim (trim s) = trim s.
Proof.
  unfold trim. rewrite !trimEnd_drop_while_end, !trimStart_drop_while.
  apply drop_both_idem.
Qed.

Lemma mem_char_drop_while (c : ascii) (p : ascii -> bool) (s : string) :
  mem_char c s = false -> mem_char c (drop_while p s) = false.
Proof.
  induction s as [|d t IH]; simpl; [reflexivity |].
  destruct (Ascii.eqb c d) eqn:E; [discriminate |].
  intros H. destruct (p d); [now apply IH | simpl; now rewrite E].
Qed.

Lemma mem_char_drop_while_end (c : ascii) (p : ascii -> bool) (s : string) :
  mem_char c s = false -> mem_char c (drop_while_end p s) = false.
Proof.
  induction s as [|d t IH]; simpl; [reflexivity |].
  destruct (Ascii.eqb c d) eqn:E; [discriminate |].
  intros H. specialize (IH H).
  destruct (drop_while_end p t) as [|e r].
  - destruct (p d); simpl; [reflexivity | now rewrite E].
  - simpl in IH |- *. now rewrite E.
Qed.

Lemma mem_char_trim (c : ascii) (s : string) :
  mem_char c s = false -> mem_char c (trim s) = false.
Proof.
  intros H. unfold trim. rewrite trimEnd_drop_while_end, trimStart_drop_while.
  now apply mem_char_drop_while_end, mem_char_drop_while.
Qed.

Lemma strip_dashes_no_dash_first (s : string) :
  startsWith (strip_dashes s) "-" = false.
Proof.
  unfold strip_dashes, startsWith.
  pose proof (drop_while_head is_dash s) as Hh.
  destruct (drop_while is_dash s) as [|c t]; [reflexivity |].
  destruct (drop_while_end_head is_dash c t Hh) as [r ->].
  unfold is_dash in Hh. cbn [String.prefix].
  destruct (ascii_dec "-" c) as [<-|]; [discriminate | reflexivity].
Qed.

Lemma drop_while_end_no_dash_last (s : string) :
  endsWith (drop_while_end is_dash s) "-" = false.
Proof.
  induction s as [|c t IH]; simpl; [reflexivity |].
  destruct (drop_while_end is_dash t) as [|d r].
  - destruct (is_dash c) eqn:Hc; [reflexivity |].
    unfold is_dash in Hc. simpl. now rewrite Hc.
  - change (endsWith (String c (String d r)) "-")
      with (if String.eqb (String c (String d r)) "-" then true
            else endsWith (String d r) "-").
    rewrite IH. simpl. destruct (Ascii.eqb c "-"); reflexivity.
Qed.

(** X3.  [presetFileName] always yields a usable file name: it is not
    empty, every character is a letter, a digit, ['-'] or ['_'], and it
    neither begins nor ends with ['-']. *)
Theorem presetFileName_safe (name : string) :
  presetFileName name <> EmptyString
  /\ all_chars is_name_char (presetFileName name) = true
  /\ startsWith (presetFileName name) "-" = false
  /\ endsWith (presetFileName name) "-" = false.
Proof.
  unfold presetFileName, or_else.
  pose proof (dash_runs_name_chars false name) as Ha.
  pose proof (strip_dashes_no_dash_first (dash_runs false name)) as Hf.
  pose proof (drop_while_end_no_dash_last (drop_while is_dash (dash_runs false name)))
    as Hl.
  fold (strip_dashes (dash_runs false name)) in Hl.
  assert (Hc : all_chars is_name_char (strip_dashes (dash_runs false name)) = true).
  { unfold strip_dashes.
    now apply all_chars_drop_while_end, all_chars_drop_while. }
  destruct (strip_dashes (dash_runs false name)) as [|c t]; simpl is_empty; cbv iota.
  - repeat split; [discriminate | reflexivity..].
  - repeat split; [discriminate | assumption..].
Qed.

(** X4.  A name [presetFileName] has produced is left as it is: applying
    the function twice gives the same as applying it once. *)
Theorem presetFileName_idempotent (name : string) :
  presetFileName (presetFileName name) = presetFileName name.
Proof.
  unfold presetFileName at 2 3. unfold or_else.
  destruct (strip_dashes (dash_runs false name)) as [|c t] eqn:E; simpl is_empty;
    cbv iota; [reflexivity |].
  unfold presetFileName.
  assert (Hc : all_chars is_name_char (String c t) = true).
  { rewrite <- E. unfold strip_dashes.
    apply all_chars_drop_while_end, all_chars_drop_while, dash_runs_name_chars. }
  rewrite (dash_runs_fixed false _ Hc).
  rewrite <- E, strip_dashes_idem, E. reflexivity.
Qed.

End NameFacts.
(** ** Validation and the build plan side by side *)

Module BuildFacts.
Import Text Js Studio TextFacts PlanFacts BuildFlow ValidationFacts RoundTripFacts
  NameFacts.
Import Samples.Forge.

Lemma errorCount_if_warning (b : bool) (i m : string) (v : Validation) :
  errorCount (issue_if b i warning m v) = errorCount v.
Proof. destruct b; reflexivity. Qed.

Lemma errorCount_if_error (b : bool) (i m : string) (v : Validation) :
  errorCount (issue_if b i error m v) = errorCount v + (if b then 1 else 0).
Proof. destruct b; simpl; lia. Qed.

Lemma errorCount_push_error (i m : string) (v : Validation) :
  errorCount (pushIssue i error m v) = errorCount v + 1.
Proof. reflexivity. Qed.

Lemma app_one_neq {A : Type} (l : list A) (x : A) : l ++ [x] <> l.
Proof.
  intros H. apply (f_equal (@List.length A)) in H.
  rewrite length_app in H. simpl in H. lia.
Qed.

Lemma app_eq_self {A : Type} (l es : list A) : l ++ es = l -> es = [].
Proof.
  intros H. rewrite <- (app_nil_r l) in H at 2. now apply app_inv_head in H.
Qed.

(** The errors of [validation] and the required-field errors of
    [handleBuild] come together: a turn of the build loop that records
    no error belongs to a step validation finds no error in. *)
Lemma plan_step_clean_validates (p : Plan) (v : Validation) (step : UiStep) :
  errors (plan_step p step) = errors p ->
  errorCount (validate_step v step) = errorCount v.
Proof.
  unfold plan_step, validate_step.
  destruct (enabled step); simpl; [| reflexivity].
  destruct (fields step) as [c|b|j|b|r].
  - destruct (is_empty (trim (payloadSource c))); simpl;
      [intros H; now apply app_one_neq in H |].
    destruct (is_empty (trim (dest c))); simpl;
      [intros H; now apply app_one_neq in H |].
    intros _. now rewrite errorCount_if_warning.
  - destruct (is_empty (trim (patch_file b))); simpl;
      [intros H; now apply app_one_neq in H |].
    destruct (is_empty (trim (startMarker b))); simpl;
      [intros H; now apply app_one_neq in H |].
    destruct (is_empty (trim (endMarker b))); simpl;
      [intros H; now apply app_one_neq in H |].
    destruct (is_empty (trim (contentSource b))); simpl;
      [intros H; now apply app_one_neq in H |].
    intros _. now rewrite errorCount_if_warning.
  - destruct (is_empty (trim (json_file j))); simpl;
      [intros H; now apply app_one_neq in H |].
    destruct (is_empty (trim (keyPath j))); simpl;
      [intros H; now apply app_one_neq in H |].
    destruct (valueType j); simpl.
    + intros _. now rewrite !errorCount_if_warning.
    + destruct (Number_isNaN (Number (valueRaw j))); simpl;
        [intros H; now apply app_one_neq in H |].
      intros _. now rewrite !errorCount_if_warning.
    + intros _. now rewrite !errorCount_if_warning.
    + destruct (JSON_parse (or_else (valueRaw j) "null")); simpl;
        [| intros H; now apply app_one_neq in H].
      intros _. now rewrite !errorCount_if_warning.
  - destruct (is_empty (trim (embed_file b))); simpl;
      [intros H; now apply app_one_neq in H |].
    destruct (is_empty (trim (placeholder b))); simpl;
      [intros H; now apply app_one_neq in H |].
    destruct (is_empty (trim (inputSource b))); simpl;
      [intros H; now apply app_one_neq in H |].
    intros _. now rewrite errorCount_if_warning.
  - destruct (is_empty (trim (command r))); simpl;
      [intros H; now apply app_one_neq in H |].
    reflexivity.
Qed.

Lemma fold_plan_errors_app (l : list UiStep) (p : Plan) :
  exists es, errors (fold_left plan_step l p) = errors p ++ es.
Proof.
  revert p; induction l as [|s l IH]; intros p; simpl.
  - exists []. now rewrite app_nil_r.
  - destruct (IH (plan_step p s)) as [es2 ->].
    destruct (plan_step_errors p s) as [es1 ->].
    exists (es1 ++ es2). now rewrite app_assoc.
Qed.

Lemma fold_plan_clean_validates (l : list UiStep) (p : Plan) (v : Validation) :
  errors (fold_left plan_step l p) = errors p ->
  errorCount (fold_left validate_step l v) = errorCount v.
Proof.
  revert p v; induction l as [|s l IH]; intros p v H; simpl in *; [reflexivity |].
  destruct (fold_plan_errors_app l (plan_step p s)) as [es2 H2].
  destruct (plan_step_errors p s) as [es1 H1].
  rewrite H2, H1, <- app_assoc in H. apply app_eq_self in H.
  apply app_eq_nil in H as [-> ->]. rewrite app_nil_r in H1, H2.
  rewrite (IH (plan_step p s) (validate_step v s)) by congruence.
  now apply (plan_step_clean_validates p).
Qed.

(** X5.  Whenever the validation summary counts an error, the build is
    refused: [handleBuild] records an error of its own, logs "Forge
    failed" and invokes neither [inspect_build_target] nor
    [build_project]. *)
Theorem validation_errors_block_build (st : Dashboard) (w : World) :
  0 < errorCount (validation (steps st)) ->
  errors (build_plan (steps st)) <> []
  /\ backend_calls (run w 0 (handleBuild st)) = 0.
Proof.
  intros Hpos.
  assert (Hne : errors (build_plan (steps st)) <> []).
  { intros Hnil. unfold validation in Hpos.
    rewrite (fold_plan_clean_validates (steps st)
               {| payloadMap := []; plan_installSteps := []; errors := [] |})
      in Hpos by exact Hnil.
    simpl in Hpos. lia. }
  split; [exact Hne |]. now apply handleBuild_no_backend_call_on_errors.
Qed.

Lemma validation_errors_block_build_witness :
  backend_calls (run hesitant 0 (handleBuild bad_json)) = 0.
Proof.
  apply (validation_errors_block_build bad_json hesitant).
  vm_compute. lia.
Defined.

(** **** What validation does not see *)

Lemma addPayload_payload_errors (rel source : string) (p : Plan) :
  exists es, errors (addPayload rel source p) = errors p ++ es
             /\ Forall payload_error es.
Proof.
  unfold addPayload.
  destruct (is_empty (trim rel)).
  - eexists. split; [reflexivity |]. constructor; [now left | constructor].
  - destruct (get (trim rel) (payloadMap p)) as [c|].
    + destruct (String.eqb c source); simpl.
      * exists []. split; [now rewrite app_nil_r | constructor].
      * eexists. split; [reflexivity |].
        constructor; [right; now eexists | constructor].
    + exists []. split; [simpl; now rewrite app_nil_r | constructor].
Qed.

Ltac no_new_error :=
  exists []; split; [simpl; now rewrite app_nil_r | constructor].

Lemma validate_clean_plan_step (p : Plan) (v : Validation) (step : UiStep) :
  errorCount (validate_step v step) = errorCount v ->
  exists es, errors (plan_step p step) = errors p ++ es
             /\ Forall payload_error es.
Proof.
  unfold plan_step, validate_step.
  destruct (enabled step); simpl; [| intros _; no_new_error].
  destruct (fields step) as [c|b|j|b|r].
  - rewrite errorCount_if_warning, !errorCount_if_error.
    destruct (is_empty (trim (payloadSource c))); [lia |].
    destruct (is_empty (trim (dest c))); [lia |].
    intros _. simpl. apply addPayload_payload_errors.
  - rewrite errorCount_if_warning, !errorCount_if_error.
    destruct (is_empty (trim (patch_file b))); [lia |].
    destruct (is_empty (trim (startMarker b))); [simpl; lia |].
    destruct (is_empty (trim (endMarker b))); [simpl; lia |].
    destruct (is_empty (trim (contentSource b))); [simpl; lia |].
    intros _. simpl. apply addPayload_payload_errors.
  - rewrite errorCount_if_warning.
    destruct (is_empty (trim (json_file j))) eqn:Hf;
      destruct (is_empty (trim (keyPath j))) eqn:Hk;
      destruct (valueType j);
      try destruct (Number_isNaN (Number (valueRaw j)));
      try destruct (JSON_parse (or_else (valueRaw j) "null"));
      rewrite ?errorCount_push_error, ?errorCount_if_error, ?errorCount_if_warning,
        ?errorCount_push_error, ?errorCount_if_error, ?errorCount_if_warning,
        ?errorCount_if_error;
      simpl; try lia; intros _; no_new_error.
  - rewrite errorCount_if_warning, !errorCount_if_error.
    destruct (is_empty (trim (embed_file b))); [lia |].
    destruct (is_empty (trim (placeholder b))); [lia |].
    destruct (is_empty (trim (inputSource b))); [lia |].
    intros _. simpl. apply addPayload_payload_errors.
  - rewrite errorCount_if_error.
    destruct (is_empty (trim (command r))); [lia |].
    intros _. no_new_error.
Qed.

Lemma validate_clean_plan (l : list UiStep) (p : Plan) (v : Validation) :
  errorCount (fold_left validate_step l v) = errorCount v ->
  exists es, errors (fold_left plan_step l p) = errors p ++ es
             /\ Forall payload_error es.
Proof.
  revert p v; induction l as [|s l IH]; intros p v H; simpl in *.
  - exists []. split; [now rewrite app_nil_r | constructor].
  - pose proof (validate_step_errorCount v s) as H1.
    pose proof (fold_validate_errorCount l (validate_step v s)) as H2.
    destruct (validate_clean_plan_step p v s) as (es1 & E1 & F1); [lia |].
    destruct (IH (plan_step p s) (validate_step v s)) as (es2 & E2 & F2); [lia |].
    exists (es1 ++ es2). split.
    + now rewrite E2, E1, app_assoc.
    + now apply Forall_app.
Qed.

(** X6.  The only build errors validation does not announce are the two
    of [addPayload]: when the validation summary counts no error, every
    error [handleBuild] records is "A payload path cannot be empty." or
    "A payload path is already claimed: ...". *)
Theorem unannounced_errors_are_payload_errors (steps : list UiStep) :
  errorCount (validation steps) = 0 ->
  Forall payload_error (errors (build_plan steps)).
Proof.
  intros H. unfold build_plan.
  destruct (validate_clean_plan steps
              {| payloadMap := []; plan_installSteps := []; errors := [] |}
              {| issueMap := ∅; errorCount := 0; warningCount := 0 |} H)
    as (es & -> & F).
  exact F.
Qed.

Lemma unannounced_errors_are_payload_errors_witness :
  Forall payload_error (errors (build_plan (steps colliding)))
  /\ errors (build_plan (steps colliding))
     = ["A payload path is already claimed: a.css"].
Proof.
  split; [| reflexivity].
  apply (unannounced_errors_are_payload_errors (steps colliding)).
  reflexivity.
Defined.

(** **** The staged files *)

Lemma has_false_not_in {A : Type} (k : string) (m : list (string * A)) :
  has k m = false -> ~ In k (List.map fst m).
Proof.
  unfold has. induction m as [|[k' v] m IH]; simpl; [tauto |].
  destruct (String.eqb k k') eqn:E; [discriminate |].
  intros H [Hk|Hin]; [| now apply IH].
  subst k'. now rewrite String.eqb_refl in E.
Qed.

Lemma replace_value_keys {A : Type} (k : string) (v : A) (m : list (string * A)) :
  List.map fst (replace_value k v m) = List.map fst m.
Proof.
  induction m as [|[k' v'] m IH]; simpl; [reflexivity |].
  destruct (String.eqb k k'); simpl; [reflexivity | now rewrite IH].
Qed.

Lemma replace_value_in (k v : string) (m : list (string * string)) (e : string * string) :
  In e (replace_value k v m) -> In e m \/ e = (k, v).
Proof.
  induction m as [|[k' v'] m IH]; simpl; [tauto |].
  destruct (String.eqb k k') eqn:E; simpl.
  - apply String.eqb_eq in E as <-. intros [<-|H]; [now right | left; now right].
  - intros [<-|H]; [left; now left |].
    destruct (IH H); [left; now right | now right].
Qed.

Lemma map_set_keys (k v : string) (m : list (string * string)) :
  NoDup (List.map fst m) -> NoDup (List.map fst (map_set k v m)).
Proof.
  intros H. unfold map_set. destruct (has k m) eqn:E.
  - now rewrite replace_value_keys.
  - rewrite List.map_app. simpl. apply NoDup_app. split; [exact H |]. split.
    + intros x Hx Hin. apply list_elem_of_singleton in Hin as ->.
      apply list_elem_of_In in Hx. now apply (has_false_not_in k m E).
    + apply NoDup_singleton.
Qed.

Lemma map_set_in (k v : string) (m : list (string * string)) (e : string * string) :
  In e (map_set k v m) -> In e m \/ e = (k, v).
Proof.
  unfold map_set. destruct (has k m).
  - apply replace_value_in.
  - intros H. apply in_app_or in H as [H|[<-|[]]]; [now left | now right].
Qed.

Lemma staged_well_more (seen : list UiStep) (step : UiStep) (m : list (string * string)) :
  staged_well seen m -> staged_well (seen ++ [step]) m.
Proof.
  intros [Hn Hf]. split; [exact Hn |].
  eapply List.Forall_impl; [| exact Hf]. simpl.
  intros e (H1 & H2 & s & rel & Hin & Hc & Hr).
  split; [exact H1 |]. split; [exact H2 |].
  exists s, rel. split; [apply in_or_app; now left | now split].
Qed.

Lemma addPayload_staged_well (seen : list UiStep) (step : UiStep)
    (rel source : string) (p : Plan) :
  payload_claim step = Some (rel, source) ->
  staged_well seen (payloadMap p) ->
  staged_well (seen ++ [step]) (payloadMap (addPayload rel source p)).
Proof.
  intros Hc Hw. apply (staged_well_more seen step) in Hw.
  unfold addPayload.
  destruct (is_empty (trim rel)) eqn:He; [exact Hw |].
  assert (Hnew : staged_well (seen ++ [step])
                   (map_set (trim rel) source (payloadMap p))).
  { destruct Hw as [Hn Hf]. split; [now apply map_set_keys |].
    apply List.Forall_forall. intros e He'.
    apply map_set_in in He' as [He'| ->].
    - rewrite List.Forall_forall in Hf. now apply Hf.
    - simpl. split; [now apply is_empty_false |].
      split; [apply trim_idem |].
      exists step, rel. split; [apply in_or_app; right; now left | now split]. }
  destruct (get (trim rel) (payloadMap p)) as [c|].
  - destruct (String.eqb c source); simpl; [exact Hnew | exact Hw].
  - exact Hnew.
Qed.

Lemma plan_step_staged_well (seen : list UiStep) (step : UiStep) (p : Plan) :
  staged_well seen (payloadMap p) ->
  staged_well (seen ++ [step]) (payloadMap (plan_step p step)).
Proof.
  intros Hw.
  destruct (payload_claim step) as [[rel source]|] eqn:Hc.
  - destruct (plan_step_claim p step rel source Hc) as [s ->]. simpl.
    now apply addPayload_staged_well.
  - apply (staged_well_more seen step) in Hw.
    revert Hc. unfold payload_claim, plan_step.
    destruct (enabled step); simpl; [| intros _; exact Hw].
    destruct (fields step) as [c|b|j|b|r].
    + destruct (is_empty (trim (payloadSource c))); simpl; [intros _; exact Hw |].
      destruct (is_empty (trim (dest c))); simpl; [intros _; exact Hw | discriminate].
    + destruct (is_empty (trim (patch_file b))); simpl; [intros _; exact Hw |].
      destruct (is_empty (trim (startMarker b))); simpl; [intros _; exact Hw |].
      destruct (is_empty (trim (endMarker b))); simpl; [intros _; exact Hw |].
      destruct (is_empty (trim (contentSource b))); simpl;
        [intros _; exact Hw | discriminate].
    + intros _. plan_cases; exact Hw.
    + destruct (is_empty (trim (embed_file b))); simpl; [intros _; exact Hw |].
      destruct (is_empty (trim (placeholder b))); simpl; [intros _; exact Hw |].
      destruct (is_empty (trim (inputSource b))); simpl;
        [intros _; exact Hw | discriminate].
    + intros _. plan_cases; exact Hw.
Qed.

Lemma fold_plan_staged_well (l seen : list UiStep) (p : Plan) :
  staged_well seen (payloadMap p) ->
  staged_well (seen ++ l) (payloadMap (fold_left plan_step l p)).
Proof.
  revert seen p; induction l as [|s l IH]; intros seen p Hw; simpl.
  - now rewrite app_nil_r.
  - change (s :: l) with ([s] ++ l). rewrite app_assoc.
    apply IH. now apply plan_step_staged_well.
Qed.

(** X7.  The payload files of a build request never clash and never come
    from nowhere: the staged destinations are pairwise distinct, none is
    empty or has blanks around it, and every file is the source an
    enabled step of the form names for that destination. *)
Theorem payloadFiles_distinct (st : Dashboard) :
  let files := payloadFiles (inspectReq st (build_plan (steps st))) in
  NoDup (List.map snd files)
  /\ Forall (fun f =>
               snd f <> EmptyString /\ trimmed (snd f)
               /\ exists step rel, In step (steps st)
                    /\ payload_claim step = Some (rel, fst f)
                    /\ trim rel = snd f) files.
Proof.
  destruct (fold_plan_staged_well (steps st) []
              {| payloadMap := []; plan_installSteps := []; errors := [] |})
    as [Hn Hf].
  { split; constructor. }
  fold (build_plan (steps st)) in Hn, Hf. simpl in Hf.
  cbn zeta. unfold inspectReq. cbn [payloadFiles].
  rewrite map_map. cbn [snd fst]. split; [exact Hn |].
  apply List.Forall_map. eapply List.Forall_impl; [| exact Hf]. simpl.
  intros e H. exact H.
Qed.

(** **** The manifest of a build and the exported manifest *)

Lemma addPayload_installSteps (rel source : string) (p : Plan) :
  plan_installSteps (addPayload rel source p) = plan_installSteps p.
Proof.
  unfold addPayload. destruct (is_empty (trim rel)); [reflexivity |].
  destruct (get (trim rel) (payloadMap p)) as [c|]; [| reflexivity].
  destruct (String.eqb c source); reflexivity.
Qed.

Lemma export_rel_build (rel source : string) :
  trim source <> EmptyString ->
  trim rel <> EmptyString \/ trimmed source ->
  export_rel rel source = or_else (trim rel) (toBaseName (trim source)).
Proof.
  intros Hs Ht. unfold export_rel, or_else.
  destruct (is_empty (trim rel)) eqn:E; [| reflexivity].
  destruct Ht as [Ht|Ht]; [apply is_empty_true in E; congruence |].
  unfold trimmed in Ht. rewrite Ht in *.
  apply is_empty_false in Hs. now rewrite Hs.
Qed.

Lemma plan_step_exports (p : Plan) (step : UiStep) :
  errors (plan_step p step) = errors p ->
  (enabled step = true -> source_tidy step) ->
  plan_installSteps (plan_step p step)
  = plan_installSteps p ++ exported_list step.
Proof.
  unfold plan_step, exported_list, export_step, source_tidy.
  destruct (enabled step); simpl; [| intros _ _; now rewrite app_nil_r].
  destruct (fields step) as [c|b|j|b|r].
  - destruct (is_empty (trim (payloadSource c))) eqn:Hs; simpl;
      [intros H; now apply app_one_neq in H |].
    destruct (is_empty (trim (dest c))) eqn:Hd; simpl;
      [intros H; now apply app_one_neq in H |].
    intros _ Ht. rewrite addPayload_installSteps, andb_false_r.
    apply is_empty_false in Hs.
    now rewrite (export_rel_build _ _ Hs (Ht eq_refl)).
  - destruct (is_empty (trim (patch_file b))) eqn:Hf; simpl;
      [intros H; now apply app_one_neq in H |].
    destruct (is_empty (trim (startMarker b))); simpl;
      [intros H; now apply app_one_neq in H |].
    destruct (is_empty (trim (endMarker b))); simpl;
      [intros H; now apply app_one_neq in H |].
    destruct (is_empty (trim (contentSource b))) eqn:Hs; simpl;
      [intros H; now apply app_one_neq in H |].
    intros _ Ht. rewrite addPayload_installSteps.
    apply is_empty_false in Hs.
    now rewrite (export_rel_build _ _ Hs (Ht eq_refl)).
  - destruct (is_empty (trim (json_file j))) eqn:Hf; simpl;
      [intros H; now apply app_one_neq in H |].
    destruct (is_empty (trim (keyPath j))); simpl;
      [intros H; now apply app_one_neq in H |].
    unfold export_value.
    destruct (valueType j); simpl.
    + reflexivity.
    + destruct (Number_isNaN (Number (valueRaw j))); simpl;
        [intros H; now apply app_one_neq in H | reflexivity].
    + reflexivity.
    + destruct (JSON_parse (or_else (valueRaw j) "null")); simpl;
        [reflexivity | intros H; now apply app_one_neq in H].
  - destruct (is_empty (trim (embed_file b))) eqn:Hf; simpl;
      [intros H; now apply app_one_neq in H |].
    destruct (is_empty (trim (placeholder b))); simpl;
      [intros H; now apply app_one_neq in H |].
    destruct (is_empty (trim (inputSource b))) eqn:Hs; simpl;
      [intros H; now apply app_one_neq in H |].
    intros _ Ht. rewrite addPayload_installSteps.
    apply is_empty_false in Hs.
    now rewrite (export_rel_build _ _ Hs (Ht eq_refl)).
  - destruct (is_empty (trim (command r))) eqn:Hc; simpl;
      [intros H; now apply app_one_neq in H | reflexivity].
Qed.

Lemma fold_plan_exports (l : list UiStep) (p : Plan) :
  errors (fold_left plan_step l p) = errors p ->
  Forall (fun step => enabled step = true -> source_tidy step) l ->
  plan_installSteps (fold_left plan_step l p)
  = plan_installSteps p ++ omap export_step l.
Proof.
  revert p; induction l as [|s l IH]; intros p H Ht; simpl in *.
  - now rewrite app_nil_r.
  - destruct (fold_plan_errors_app l (plan_step p s)) as [es2 H2].
    destruct (plan_step_errors p s) as [es1 H1].
    rewrite H2, H1, <- app_assoc in H. apply app_eq_self in H.
    apply app_eq_nil in H as [-> ->]. rewrite app_nil_r in H1, H2.
    apply List.Forall_cons_iff in Ht as [Hs Hl].
    rewrite (IH (plan_step p s)) by assumption.
    rewrite (plan_step_exports p s H1 Hs), <- app_assoc.
    unfold exported_list. now destruct (export_step s).
Qed.

(** X8.  A build that goes through sends the backend the manifest the
    export writes: when [handleBuild] records no error and no enabled
    step derives its staged name from a source with blanks around it,
    the manifest of the build request is [buildManifestForExport()]. *)
Theorem build_sends_exported_manifest (st : Dashboard) :
  errors (build_plan (steps st)) = [] ->
  Forall (fun step => enabled step = true -> source_tidy step) (steps st) ->
  req_manifest (inspectReq st (build_plan (steps st))) = buildManifestForExport st.
Proof.
  intros He Ht. unfold inspectReq, build_manifest, buildManifestForExport.
  cbn [req_manifest]. f_equal.
  unfold build_plan in *.
  now rewrite (fold_plan_exports (steps st) _ He Ht).
Qed.

Lemma build_sends_exported_manifest_witness :
  req_manifest (inspectReq tidy (build_plan (steps tidy)))
  = buildManifestForExport tidy.
Proof.
  apply (build_sends_exported_manifest tidy); [reflexivity |].
  repeat constructor; intros _; simpl; left; discriminate.
Defined.

End BuildFacts.
(** ** Arguments, replacement rows and new steps *)

Module RowFacts.
Import Text Js Studio TextFacts PlanFacts BuildFlow RoundTripFacts NameFacts.
Import Samples.Forge.

(** **** Command arguments *)

Lemma split_comma_no_comma (s : string) :
  Forall (fun f => mem_char "," f = false) (split_comma s).
Proof.
  induction s as [|c t IH]; [repeat constructor |].
  rewrite split_comma_cons. destruct (Ascii.eqb c ",") eqn:E.
  - constructor; [reflexivity | exact IH].
  - destruct (split_comma t) as [|f fs].
    + constructor; [| constructor].
      now rewrite mem_char_cons, Ascii.eqb_sym, E.
    + apply List.Forall_cons_iff in IH as [Hf Hfs].
      constructor; [| exact Hfs].
      now rewrite mem_char_cons, Ascii.eqb_sym, E.
Qed.

Lemma parse_args_plain (s : string) : Forall plain_arg (parse_args s).
Proof.
  unfold parse_args.
  pose proof (split_comma_no_comma s) as H.
  induction H as [|f fs Hf _ IH]; simpl; [constructor |].
  destruct (is_empty (trim f)) eqn:E; simpl; [exact IH |].
  constructor; [| exact IH].
  split; [apply trim_idem |]. split; [now apply is_empty_false |].
  now apply mem_char_trim.
Qed.

(** X9.  The arguments a [runCommand] step hands on are exactly the
    lists of trimmed, non-empty, comma-free texts: whatever is typed into
    the argument field comes out as such a list, and every such list is
    what the field gives when its entries are typed separated by a comma
    and a blank.  An argument that is blank or holds a comma cannot be
    passed. *)
Theorem parse_args_arguments (typed : string) :
  Forall plain_arg (parse_args typed)
  /\ forall l, Forall plain_arg l -> parse_args (join ", " l) = l.
Proof. split; [apply parse_args_plain | apply parse_args_join]. Qed.

Lemma parse_args_arguments_witness :
  parse_args "--install-extension, misfit.vsix"
  = ["--install-extension"; "misfit.vsix"].
Proof.
  apply (proj2 (parse_args_arguments EmptyString)
           ["--install-extension"; "misfit.vsix"]).
  repeat constructor; discriminate.
Defined.

(** **** Replacement rows *)

Lemma get_insert_ordered_other {A : Type} (k k' : string) (v : A)
    (m : list (string * A)) :
  k' <> k -> get k' (insert_ordered k v m) = get k' m.
Proof.
  intros Hne. apply String.eqb_neq in Hne.
  induction m as [|[k2 v2] m IH]; simpl; [now rewrite Hne |].
  destruct (array_index k) as [n|]; [destruct (array_index k2) as [n2|] |].
  - destruct (n <? n2)%N; simpl; [now rewrite Hne |].
    destruct (String.eqb k' k2); [reflexivity | exact IH].
  - simpl. now rewrite Hne.
  - simpl. destruct (String.eqb k' k2); [reflexivity | exact IH].
Qed.

Lemma get_insert_ordered_same {A : Type} (k : string) (v : A)
    (m : list (string * A)) :
  has k m = false -> get k (insert_ordered k v m) = Some v.
Proof.
  unfold has. induction m as [|[k2 v2] m IH]; simpl; [now rewrite String.eqb_refl |].
  destruct (String.eqb k k2) eqn:E; [discriminate |]. intros H.
  destruct (array_index k) as [n|]; [destruct (array_index k2) as [n2|] |].
  - destruct (n <? n2)%N; simpl; [now rewrite String.eqb_refl |].
    rewrite E. now apply IH.
  - simpl. now rewrite String.eqb_refl.
  - simpl. rewrite E. now apply IH.
Qed.

Lemma insert_ordered_keys {A : Type} (k : string) (v : A) (m : list (string * A)) :
  Permutation (List.map fst (insert_ordered k v m)) (k :: List.map fst m).
Proof.
  induction m as [|[k2 v2] m IH]; simpl; [reflexivity |].
  destruct (array_index k) as [n|]; [destruct (array_index k2) as [n2|] |].
  - destruct (n <? n2)%N; simpl; [reflexivity |].
    rewrite IH. apply perm_swap.
  - reflexivity.
  - simpl. rewrite IH. apply perm_swap.
Qed.

Lemma get_define_property_same {A : Type} (k : string) (v : A)
    (m : list (string * A)) :
  get k (define_property k v m) = Some v.
Proof.
  unfold define_property. destruct (has k m) eqn:E.
  - unfold has in E. clear -E.
    induction m as [|[k' v'] m IH]; simpl in *; [discriminate |].
    destruct (String.eqb k k') eqn:E'; simpl; rewrite E'; [reflexivity | now apply IH].
  - now apply get_insert_ordered_same.
Qed.

Lemma get_define_property_other {A : Type} (k k' : string) (v : A)
    (m : list (string * A)) :
  k' <> k -> get k' (define_property k v m) = get k' m.
Proof.
  intros Hne. unfold define_property. destruct (has k m).
  - clear -Hne. induction m as [|[k2 v2] m IH]; simpl; [reflexivity |].
    destruct (String.eqb k k2) eqn:E; simpl.
    + apply String.eqb_eq in E as <-. apply String.eqb_neq in Hne. now rewrite Hne.
    + destruct (String.eqb k' k2); [reflexivity | exact IH].
  - now apply get_insert_ordered_other.
Qed.

Lemma define_property_keys {A : Type} (k : string) (v : A) (m : list (string * A)) :
  NoDup (List.map fst m) -> NoDup (List.map fst (define_property k v m)).
Proof.
  intros H. unfold define_property. destruct (has k m) eqn:E.
  - now rewrite BuildFacts.replace_value_keys.
  - rewrite insert_ordered_keys. constructor; [| exact H].
    rewrite list_elem_of_In. now apply BuildFacts.has_false_not_in.
Qed.

Lemma fold_assign_keys (l : list ReplacementPair) (acc : list (string * string)) :
  NoDup (List.map fst acc) ->
  NoDup (List.map fst
           (fold_left (fun m pair => assign_string (key pair) (value pair) m) l acc)).
Proof.
  revert acc; induction l as [|p l IH]; intros acc H; simpl; [exact H |].
  apply IH. unfold assign_string.
  destruct (String.eqb (key p) "__proto__"); [exact H |].
  now apply define_property_keys.
Qed.

Lemma fold_assign_get (k : string) (l : list ReplacementPair)
    (acc : list (string * string)) :
  k <> "__proto__" ->
  get k (fold_left (fun m pair => assign_string (key pair) (value pair) m) l acc)
  = fold_left (fun a pair => if String.eqb (key pair) k then Some (value pair) else a)
      l (get k acc).
Proof.
  intros Hk. revert acc; induction l as [|p l IH]; intros acc; simpl; [reflexivity |].
  rewrite IH. f_equal. unfold assign_string.
  destruct (String.eqb (key p) k) eqn:E.
  - apply String.eqb_eq in E. subst k.
    apply String.eqb_neq in Hk. rewrite Hk. apply get_define_property_same.
  - apply String.eqb_neq in E.
    destruct (String.eqb (key p) "__proto__"); [reflexivity |].
    apply get_define_property_other. congruence.
Qed.

Lemma fold_assign_proto (l : list ReplacementPair) (acc : list (string * string)) :
  get "__proto__"
    (fold_left (fun m pair => assign_string (key pair) (value pair) m) l acc)
  = get "__proto__" acc.
Proof.
  revert acc; induction l as [|p l IH]; intros acc; simpl; [reflexivity |].
  rewrite IH. unfold assign_string.
  destruct (String.eqb (key p) "__proto__") eqn:E; [reflexivity |].
  apply String.eqb_neq in E. apply get_define_property_other. congruence.
Qed.

Lemma last_value_filter (k : string) (l : list ReplacementPair) (a : option string) :
  trim k <> EmptyString ->
  fold_left (fun a pair => if String.eqb (key pair) k then Some (value pair) else a)
    (List.filter (fun pair => 0 <? String.length (trim (key pair))) l) a
  = fold_left (fun a pair => if String.eqb (key pair) k then Some (value pair) else a)
      l a.
Proof.
  intros Hk. revert a; induction l as [|p l IH]; intros a; simpl; [reflexivity |].
  destruct (0 <? String.length (trim (key p))) eqn:E; simpl; [apply IH |].
  rewrite IH. f_equal.
  destruct (String.eqb (key p) k) eqn:E'; [| reflexivity].
  apply String.eqb_eq in E'. subst k.
  destruct (trim (key p)); [congruence | discriminate].
Qed.

Lemma last_value_blank (k : string) (l : list ReplacementPair) :
  trim k = EmptyString ->
  fold_left (fun a pair => if String.eqb (key pair) k then Some (value pair) else a)
    (List.filter (fun pair => 0 <? String.length (trim (key pair))) l) None
  = None.
Proof.
  intros Hk. induction l as [|p l IH]; simpl; [reflexivity |].
  destruct (0 <? String.length (trim (key p))) eqn:E; simpl; [| exact IH].
  destruct (String.eqb (key p) k) eqn:E'; [| exact IH].
  apply String.eqb_eq in E'. subst k. rewrite Hk in E. discriminate.
Qed.

(** X10.  The [replacements] object a [patchBlock] step sends has every
    key once, and for each key the value of the last row with that key:
    later rows override earlier ones.  Rows whose key is blank and rows
    with the key [__proto__] leave no property. *)
Theorem replacements_object_last_wins (pairs : list ReplacementPair) (k : string) :
  NoDup (List.map fst (replacements_object pairs))
  /\ get k (replacements_object pairs)
     = if is_empty (trim k) || String.eqb k "__proto__" then None
       else last_value k pairs.
Proof.
  unfold replacements_object. split.
  - apply fold_assign_keys. constructor.
  - destruct (String.eqb k "__proto__") eqn:Ep.
    + apply String.eqb_eq in Ep. subst k. rewrite orb_true_r.
      now rewrite fold_assign_proto.
    + apply String.eqb_neq in Ep. rewrite orb_false_r.
      rewrite (fold_assign_get k _ _ Ep). simpl get.
      destruct (is_empty (trim k)) eqn:E.
      * apply is_empty_true in E. now apply last_value_blank.
      * apply is_empty_false in E. now apply last_value_filter.
Qed.

(** **** New steps *)

(** X11.  A step as [createStep] makes it, left unfilled, stops the
    build wherever it stands in the list (no backend command is invoked),
    while the export passes over it without a word. *)
Theorem new_step_blocks_build (st : Dashboard) (w : World) (fresh : string)
    (type : StepType) :
  In (createStep fresh type) (steps st) ->
  backend_calls (run w 0 (handleBuild st)) = 0
  /\ export_step (createStep fresh type) = None.
Proof.
  intros Hin. split; [| now destruct type].
  apply handleBuild_no_backend_call_on_errors.
  apply in_split in Hin as (l1 & l2 & E). unfold build_plan. rewrite E.
  rewrite fold_left_app_step.
  set (p := fold_left plan_step l1 _).
  assert (He : exists e, In e (errors (plan_step p (createStep fresh type)))).
  { destruct type; eexists; unfold plan_step; simpl;
      apply in_or_app; right; now left. }
  destruct He as [e He].
  pose proof (fold_plan_errors l2 _ e He) as H.
  intros Hnil. rewrite Hnil in H. destruct H.
Qed.

Lemma new_step_blocks_build_witness :
  backend_calls
    (run hesitant 0
       (handleBuild (studio [copy_step "1" "C:\themes\a.css" "a.css" "themes/a.css";
                             createStep "2" patchBlock]))) = 0.
Proof.
  apply (new_step_blocks_build
           (studio [copy_step "1" "C:\themes\a.css" "a.css" "themes/a.css";
                    createStep "2" patchBlock]) hesitant "2" patchBlock).
  simpl. right. now left.
Defined.

End RowFacts.
(** ** Presets: saving, applying and normalising *)

Module PresetSteps.
Import Text Js Studio TextFacts PlanFacts RoundTripFacts NameFacts.
Import Samples.Presets Samples.Forge.

(** **** From a preset back into the form *)

Lemma preset_source_rule (dir : option string) (stored rel : string) :
  (isAbsolutePath (trim stored) = true ->
     preset_source dir stored rel = trim stored)
  /\ (isAbsolutePath (default EmptyString dir) = false ->
      trim stored <> EmptyString ->
      preset_source dir stored rel = trim stored)
  /\ (isAbsolutePath (default EmptyString dir) = true ->
      isAbsolutePath (trim stored) = false ->
      preset_source dir stored rel = resolvePayloadSource dir (Some rel)).
Proof.
  unfold preset_source. split; [| split].
  - intros Ha. rewrite Ha. simpl. rewrite orb_false_r.
    destruct (trim stored) as [|c t] eqn:E; [discriminate |].
    simpl. now rewrite !andb_false_r.
  - intros Hd Hs. rewrite Hd, andb_false_r. simpl.
    now apply or_else_nonempty.
  - intros Hd Hs. rewrite Hd, Hs, orb_true_r, andb_true_r.
    destruct (default EmptyString dir); [discriminate | reflexivity].
Qed.

Lemma Forall2_imap_same {A B : Type} (P : A -> B -> Prop) (f : nat -> A -> B)
    (l : list A) :
  (forall i x, P x (f i x)) -> Forall2 P l (imap f l).
Proof.
  revert f; induction l as [|x l IH]; intros f H; simpl; constructor.
  - apply H.
  - apply IH. intros i y. apply H.
Qed.

(** X12.  Saving the form as a preset and applying that preset gives the
    steps back: as many, in the same order, each with its enabled flag
    and every authored field as it was; only the identifiers are new and
    the payload sources are looked at again.  A source that is an
    absolute path is kept (without blanks around it), and so is any
    non-blank source while the payload folder is not absolute; with an
    absolute payload folder, a source that is not absolute is replaced
    by [resolvePayloadSource(payloadDir, rel)]. *)
Theorem preset_gives_steps_back (fresh : nat -> string) (dir : option string)
    (steps : list UiStep) :
  Forall2
    (fun step back =>
       enabled back = enabled step
       /\ same_authored (fields step) (fields back)
       /\ forall source rel,
            payload_source (fields step) = Some (source, rel) ->
            exists source',
              payload_source (fields back) = Some (source', rel)
              /\ (isAbsolutePath (trim source) = true -> source' = trim source)
              /\ (isAbsolutePath (default EmptyString dir) = false ->
                  trim source <> EmptyString -> source' = trim source)
              /\ (isAbsolutePath (default EmptyString dir) = true ->
                  isAbsolutePath (trim source) = false ->
                  source' = resolvePayloadSource dir (Some rel)))
    steps (presetStepsToUi fresh (uiStepsToPresetSteps steps) dir).
Proof.
  unfold presetStepsToUi, uiStepsToPresetSteps.
  rewrite imap_fmap. apply Forall2_imap_same.
  intros i [sid en f]. unfold presetStepToUi. simpl.
  split; [reflexivity |].
  destruct f as [c|p|j|b|r]; simpl.
  - split; [now split |]. intros source rel [= <- <-].
    eexists. split; [reflexivity |]. apply preset_source_rule.
  - split.
    { repeat split. rewrite <- (map_id (replacements p)) at 2.
      apply map_ext. now intros []. }
    intros source rel [= <- <-].
    eexists. split; [reflexivity |]. apply preset_source_rule.
  - split; [now destruct j | discriminate].
  - split; [now repeat split |]. intros source rel [= <- <-].
    eexists. split; [reflexivity |]. apply preset_source_rule.
  - split; [now destruct r | discriminate].
Qed.

Lemma preset_gives_steps_back_witness :
  Forall2 (fun step back => enabled back = enabled step)
    (steps authored)
    (presetStepsToUi numbered (uiStepsToPresetSteps (steps authored))
       (Some "C:\payloads")).
Proof.
  eapply Forall2_impl;
    [exact (preset_gives_steps_back numbered (Some "C:\payloads") (steps authored)) |].
  intros step back (He & _). exact He.
Defined.

(** **** Normalising what the application itself has written *)

Lemma get_in {A : Type} (k : string) (v : A) (m : list (string * A)) :
  NoDup (List.map fst m) -> (get k m = Some v <-> In (k, v) m).
Proof.
  induction m as [|[k' v'] m IH]; simpl; [intros _; split; [discriminate | tauto] |].
  intros Hnd. apply NoDup_cons in Hnd as [Hk Hnd].
  destruct (String.eqb k k') eqn:E.
  - apply String.eqb_eq in E. subst k'. split.
    + intros [= ->]. now left.
    + intros [[= ->]|Hin]; [reflexivity |].
      exfalso. apply Hk. apply list_elem_of_In.
      change k with (fst (k, v)). now apply in_map.
  - apply String.eqb_neq in E. rewrite (IH Hnd). split.
    + intros H. now right.
    + intros [[= -> ->]|H]; [congruence | exact H].
Qed.

Lemma get_permutation {A : Type} (k : string) (a b : list (string * A)) :
  NoDup (List.map fst b) -> Permutation a b -> get k a = get k b.
Proof.
  intros Hb Hp.
  assert (Ha : NoDup (List.map fst a)).
  { rewrite (Permutation_map fst Hp). exact Hb. }
  destruct (get k b) as [v|] eqn:E.
  - apply (get_in _ _ _ Hb) in E. apply (get_in _ _ _ Ha).
    eapply Permutation_in; [symmetry; exact Hp | exact E].
  - destruct (get k a) as [v|] eqn:E'; [| reflexivity].
    apply (get_in _ _ _ Ha) in E'.
    apply (Permutation_in _ Hp) in E'. apply (get_in _ _ _ Hb) in E'. congruence.
Qed.

Lemma preset_step_props_keys (step : PresetStep) :
  NoDup (List.map fst (preset_step_props step)).
Proof.
  unfold preset_step_props.
  destruct (preset_fields step); simpl;
    refine (bool_decide_unpack _ _); vm_compute; exact I.
Qed.

Lemma mapM_cons_eq {A B : Type} (f : A -> option B) (x : A) (l : list A) :
  mapM f (x :: l) = (y ← f x; k ← mapM f l; Some (y :: k)).
Proof. reflexivity. Qed.

Section Normalising.
Variable NumberToString : string -> string.

Lemma coerce_pairs_objects (l : list ReplacementPair) :
  mapM (coerce_pair NumberToString) (List.map pair_object l) = Some l.
Proof.
  induction l as [|[k v] l IH]; [reflexivity |].
  cbn [List.map]. rewrite mapM_cons_eq.
  change (coerce_pair NumberToString (pair_object {| key := k; value := v |}))
    with (Some {| key := k; value := v |}).
  simpl. now rewrite IH.
Qed.

Lemma coerce_step_object (o : json) (step : PresetStep) :
  holds o (preset_step_props step) ->
  coerce_step NumberToString o = Some (Some step).
Proof.
  intros (own & -> & Hp).
  pose proof (fun k => get_permutation k _ _ (preset_step_props_keys step) Hp) as G.
  unfold coerce_step, prop, has. rewrite !G.
  destruct step as [en f]. unfold preset_step_props. cbn [preset_enabled preset_fields].
  destruct f as [c|p|j|b|r].
  - destruct c. simpl. now destruct en.
  - destruct p as [f s e cs cr reps]. cbn -[mapM]. rewrite coerce_pairs_objects.
    simpl. now destruct en.
  - destruct j as [f k t raw b]. destruct t; simpl; now destruct en, b.
  - destruct b. simpl. now destruct en.
  - destruct r. simpl. now destruct en.
Qed.

Lemma coerce_steps_objects (objects : list json) (steps : list PresetStep) :
  Forall2 (fun o step => holds o (preset_step_props step)) objects steps ->
  mapM (coerce_step NumberToString) objects = Some (List.map Some steps).
Proof.
  induction 1 as [|o step objects steps Ho _ IH]; [reflexivity |].
  rewrite mapM_cons_eq, (coerce_step_object _ _ Ho). simpl. now rewrite IH.
Qed.

Lemma omap_Some {A : Type} (l : list A) : omap (fun x => x) (List.map Some l) = l.
Proof. induction l as [|x l IH]; simpl; [reflexivity | f_equal; exact IH]. Qed.

Lemma coerce_own_steps (objects : list json) (steps : list PresetStep) :
  Forall2 (fun o step => holds o (preset_step_props step)) objects steps ->
  coercePresetSteps NumberToString (Some (JArr objects)) = Some steps.
Proof.
  intros H. unfold coercePresetSteps.
  rewrite (coerce_steps_objects _ _ H). simpl. now rewrite omap_Some.
Qed.

(** X13.  [coercePresetSteps] changes nothing in steps the application
    has written itself: for an array of objects that hold preset steps
    (the properties of each step, in any order), it returns exactly these
    steps, none dropped, none altered, and raises no error. *)
Theorem coercePresetSteps_keeps_own_steps (objects : list json)
    (steps : list PresetStep) :
  Forall2 (fun o step => holds o (preset_step_props step)) objects steps ->
  coercePresetSteps NumberToString (Some (JArr objects)) = Some steps.
Proof. apply coerce_own_steps. Qed.

Lemma preset_data_props_keys (objects : list json) (d : PresetData.t) :
  NoDup (List.map fst (preset_data_props objects d)).
Proof.
  unfold preset_data_props.
  destruct (PresetData.payloadDir d); simpl;
    refine (bool_decide_unpack _ _); vm_compute; exact I.
Qed.

Lemma normalize_own_data (o : json) (d : PresetData.t) :
  holds_data o d -> normalizePresetData NumberToString o = Some d.
Proof.
  intros (objects & Hs & own & -> & Hp).
  pose proof (fun k => get_permutation k _ _ (preset_data_props_keys objects d) Hp)
    as G.
  unfold normalizePresetData, prop. rewrite !G.
  assert (Hsteps : get "steps" (preset_data_props objects d) = Some (JArr objects)).
  { unfold preset_data_props. now destruct (PresetData.payloadDir d). }
  rewrite Hsteps, (coerce_own_steps _ _ Hs). simpl.
  destruct d as [a v p de adv dir st]. unfold preset_data_props. simpl.
  destruct dir; simpl; reflexivity.
Qed.

(** X14.  [normalizePresetData] is the identity on the application's own
    preset data: for an object that holds the fields of a [PresetData]
    (in any order, [payloadDir] left out when there is none) it returns
    that [PresetData]. *)
Theorem normalizePresetData_keeps_own_data (o : json) (d : PresetData.t) :
  holds_data o d -> normalizePresetData NumberToString o = Some d.
Proof. apply normalize_own_data. Qed.

End Normalising.

Lemma coercePresetSteps_keeps_own_steps_witness :
  coercePresetSteps literal_text
    (Some (JArr [JObj [("type", JStr "runCommand"); ("enabled", JBool false);
                       ("command", JStr "code"); ("args", JStr "-v")]]))
  = Some [{| preset_enabled := false;
             preset_fields := RunCommand {| command := "code"; args := "-v" |} |}].
Proof.
  apply (coercePresetSteps_keeps_own_steps literal_text).
  constructor; [| constructor].
  eexists. split; [reflexivity |]. simpl. apply perm_swap.
Defined.

Lemma normalizePresetData_keeps_own_data_witness :
  normalizePresetData literal_text
    (JObj [("steps", JArr []); ("appName", JStr "My App"); ("version", JStr "1.0.0");
           ("publisher", JStr "Misfit"); ("description", JStr "");
           ("advancedMode", JBool true)])
  = Some {| PresetData.appName := "My App"; PresetData.version := "1.0.0";
            PresetData.publisher := "Misfit"; PresetData.description := "";
            PresetData.advancedMode := true; PresetData.payloadDir := None;
            PresetData.steps := [] |}.
Proof.
  apply (normalizePresetData_keeps_own_data literal_text).
  exists []. split; [constructor |].
  eexists. split; [reflexivity |]. simpl.
  change (Permutation
            ([("steps", JArr [])]
             ++ [("appName", JStr "My App"); ("version", JStr "1.0.0");
                 ("publisher", JStr "Misfit"); ("description", JStr "");
                 ("advancedMode", JBool true)])
            ([("appName", JStr "My App"); ("version", JStr "1.0.0");
              ("publisher", JStr "Misfit"); ("description", JStr "");
              ("advancedMode", JBool true)] ++ [("steps", JArr [])])).
  apply Permutation_app_comm.
Defined.

End PresetSteps.
(** ** The preset library *)

Module LibraryFacts.
Import Text Js Studio TextFacts PlanFacts RoundTripFacts NameFacts.
Import Samples.Presets Samples.Forge Shelf.

Lemma filter_names_in (p : Preset.t -> bool) (l : list Preset.t) (n : string) :
  In n (List.map Preset.name (List.filter p l)) -> In n (List.map Preset.name l).
Proof.
  induction l as [|x l IH]; simpl; [tauto |].
  destruct (p x); simpl; intuition.
Qed.

Lemma filter_names_NoDup (p : Preset.t -> bool) (l : list Preset.t) :
  NoDup (List.map Preset.name l) ->
  NoDup (List.map Preset.name (List.filter p l)).
Proof.
  induction l as [|x l IH]; simpl; [intros _; constructor |].
  intros H. apply NoDup_cons in H as [Hx Hl].
  destruct (p x); simpl; [| now apply IH].
  apply NoDup_cons. split; [| now apply IH].
  rewrite list_elem_of_In in *. intros Hin. apply Hx.
  now apply (filter_names_in p).
Qed.

Lemma filter_out_name (n : string) (l : list Preset.t) :
  ~ In n (List.map Preset.name
            (List.filter (fun other => negb (String.eqb (Preset.name other) n)) l)).
Proof.
  induction l as [|x l IH]; simpl; [tauto |].
  destruct (String.eqb (Preset.name x) n) eqn:E; simpl; [exact IH |].
  apply String.eqb_neq in E. intros [H|H]; [congruence | now apply IH].
Qed.

Lemma put_preset_names (preset : Preset.t) (l : list Preset.t) :
  NoDup (List.map Preset.name l) ->
  NoDup (List.map Preset.name (put_preset preset l)).
Proof.
  intros H. unfold put_preset. rewrite List.map_app. simpl.
  apply NoDup_app. split; [now apply filter_names_NoDup |]. split.
  - intros x Hx Hin. apply list_elem_of_singleton in Hin as ->.
    apply list_elem_of_In in Hx. now apply filter_out_name in Hx.
  - apply NoDup_singleton.
Qed.

Lemma put_preset_nonempty (preset : Preset.t) (l : list Preset.t) :
  put_preset preset l <> [].
Proof. unfold put_preset. now destruct (List.filter _ l). Qed.

Lemma filter_out_one (n : string) (l : list Preset.t) :
  NoDup (List.map Preset.name l) ->
  List.length l
  <= S (List.length
          (List.filter (fun preset => negb (String.eqb (Preset.name preset) n)) l)).
Proof.
  induction l as [|x l IH]; simpl; [lia |].
  intros H. apply NoDup_cons in H as [Hx Hl].
  destruct (String.eqb (Preset.name x) n) eqn:E; simpl; [| specialize (IH Hl); lia].
  apply String.eqb_eq in E. subst n. clear IH.
  assert (Hall : List.filter
                   (fun preset => negb (String.eqb (Preset.name preset) (Preset.name x))) l
                 = l).
  { rewrite list_elem_of_In in Hx. clear Hl.
    induction l as [|y l IH]; simpl; [reflexivity |].
    destruct (String.eqb (Preset.name y) (Preset.name x)) eqn:E; simpl.
    - apply String.eqb_eq in E. exfalso. apply Hx. simpl. now left.
    - f_equal. apply IH. intros Hin. apply Hx. simpl. now right. }
  rewrite Hall. lia.
Qed.

Section Handlers.
Variable NumberToString : string -> string.

Lemma keep_preset_orderly (d : Desk) (asked : nat) (lib : Library)
    (preset : Preset.t) (done : string) :
  orderly lib -> orderly (fst (perform d asked lib (keep_preset lib preset done))).
Proof.
  intros [Hne Hnd]. unfold keep_preset.
  assert (Hput : orderly
                   {| presets := put_preset preset (presets lib);
                      selectedPresetName := Preset.name preset |}).
  { split; [apply put_preset_nonempty | now apply put_preset_names]. }
  destruct (find_preset (Preset.name preset) (presets lib)); cbn [perform].
  - destruct (agreed d asked); cbn [perform negb fst]; [exact Hput | now split].
  - exact Hput.
Qed.

(** X15.  Saving, importing and deleting presets keep the library in
    order: started on a library that is not empty and has no two presets
    of one name, each of the three handlers leaves such a library,
    whatever the user types, picks and answers and whatever the file
    holds. *)
Theorem library_stays_orderly (st : Dashboard) (lib : Library) (d : Desk) :
  presets lib <> [] ->
  NoDup (List.map Preset.name (presets lib)) ->
  let after task := fst (perform d 0 lib task) in
  (presets (after (handleSavePreset st lib)) <> []
   /\ NoDup (List.map Preset.name (presets (after (handleSavePreset st lib)))))
  /\ (presets (after (handleImportPreset NumberToString lib)) <> []
      /\ NoDup (List.map Preset.name
                  (presets (after (handleImportPreset NumberToString lib)))))
  /\ (presets (after (handleDeletePreset lib)) <> []
      /\ NoDup (List.map Preset.name (presets (after (handleDeletePreset lib))))).
Proof.
  intros Hne Hnd. cbv zeta.
  assert (Ho : orderly lib) by now split.
  split; [| split].
  - unfold handleSavePreset. cbn [perform].
    destruct (is_empty (trim (default EmptyString (typed d)))).
    + cbn [perform]. exact Ho.
    + match goal with
      | |- context [perform d 0 lib (keep_preset lib ?p ?m)] =>
          pose proof (keep_preset_orderly d 0 lib p m Ho) as H;
          destruct (perform d 0 lib (keep_preset lib p m)) as [lib' notes]
      end.
      exact H.
  - unfold handleImportPreset. cbn [perform].
    destruct (picked d) as [path|]; [| exact Ho].
    destruct (is_empty path); [exact Ho |]. cbn [perform].
    destruct (read_text_file d path) as [text|e]; [| exact Ho].
    destruct (read_preset NumberToString text) as [e|preset]; [exact Ho |].
    now apply keep_preset_orderly.
  - unfold handleDeletePreset.
    destruct (selectedPreset lib) as [selected|]; [| exact Ho].
    destruct (List.length (presets lib) <=? 1) eqn:El; [exact Ho |].
    cbn [perform]. destruct (agreed d 0); cbn [perform negb fst presets]; [| exact Ho].
    split; [| now apply filter_names_NoDup].
    apply Nat.leb_gt in El.
    pose proof (filter_out_one (Preset.name selected) (presets lib) Hnd) as Hl.
    intros E. rewrite E in Hl. simpl in Hl. lia.
Qed.

Lemma find_preset_filter_other (n m : string) (l : list Preset.t) :
  m <> n ->
  find_preset m (List.filter (fun other => negb (String.eqb (Preset.name other) n)) l)
  = find_preset m l.
Proof.
  intros Hne. unfold find_preset.
  induction l as [|x l IH]; simpl; [reflexivity |].
  destruct (String.eqb (Preset.name x) n) eqn:E; simpl.
  - apply String.eqb_eq in E. rewrite E.
    apply not_eq_sym, String.eqb_neq in Hne. now rewrite Hne.
  - destruct (String.eqb (Preset.name x) m); [reflexivity | exact IH].
Qed.

Lemma find_preset_filter_same (n : string) (l : list Preset.t) :
  find_preset n (List.filter (fun other => negb (String.eqb (Preset.name other) n)) l)
  = None.
Proof.
  unfold find_preset. induction l as [|x l IH]; simpl; [reflexivity |].
  destruct (String.eqb (Preset.name x) n) eqn:E; simpl; [exact IH |].
  now rewrite E.
Qed.

Lemma find_preset_app (m : string) (a b : list Preset.t) :
  find_preset m (a ++ b)
  = match find_preset m a with Some p => Some p | None => find_preset m b end.
Proof.
  unfold find_preset. induction a as [|x a IH]; simpl; [reflexivity |].
  destruct (String.eqb (Preset.name x) m); [reflexivity | exact IH].
Qed.

Lemma find_put_preset (preset : Preset.t) (l : list Preset.t) (m : string) :
  find_preset m (put_preset preset l)
  = if String.eqb (Preset.name preset) m then Some preset else find_preset m l.
Proof.
  unfold put_preset. rewrite find_preset_app.
  destruct (String.eqb (Preset.name preset) m) eqn:E.
  - apply String.eqb_eq in E. subst m. rewrite find_preset_filter_same.
    unfold find_preset. simpl. now rewrite String.eqb_refl.
  - apply String.eqb_neq in E.
    rewrite find_preset_filter_other by congruence.
    destruct (find_preset m l); [reflexivity |].
    unfold find_preset. simpl. apply String.eqb_neq in E. now rewrite E.
Qed.

(** X16.  Saving stores the form under the name typed: when the name is
    not blank and is new, or the user agrees to replace the preset of that
    name, the library afterwards finds under the trimmed name the preset
    made of the form's fields and steps, has it selected, and finds under
    every other name what it found before.  When the name is blank, the
    prompt is cancelled or the replacement is declined, nothing changes. *)
Theorem save_then_find (st : Dashboard) (lib : Library) (d : Desk) :
  let name := trim (default EmptyString (typed d)) in
  let lib' := fst (perform d 0 lib (handleSavePreset st lib)) in
  (name <> EmptyString ->
   find_preset name (presets lib) = None \/ agreed d 0 = true ->
   selectedPresetName lib' = name
   /\ forall other,
        find_preset other (presets lib')
        = if String.eqb name other then Some (form_preset st name)
          else find_preset other (presets lib))
  /\ (name = EmptyString
      \/ (find_preset name (presets lib) <> None /\ agreed d 0 = false) ->
      lib' = lib).
Proof.
  cbv zeta. unfold handleSavePreset. cbn [perform].
  set (name := trim (default EmptyString (typed d))).
  unfold keep_preset. cbn [Preset.name form_preset].
  split.
  - intros Hne Hok. apply is_empty_false in Hne. rewrite Hne.
    destruct (find_preset name (presets lib)) as [existing|] eqn:Ef; cbn [perform].
    + destruct Hok as [Hok|Hok]; [discriminate |]. rewrite Hok.
      cbn [perform negb fst presets selectedPresetName].
      split; [reflexivity |]. intros other. apply find_put_preset.
    + cbn [fst presets selectedPresetName].
      split; [reflexivity |]. intros other. apply find_put_preset.
  - intros [Hblank|[Hex Hno]].
    + rewrite Hblank. reflexivity.
    + destruct (is_empty name); [reflexivity |].
      destruct (find_preset name (presets lib)); [| congruence].
      cbn [perform]. rewrite Hno. reflexivity.
Qed.

(** X17.  Deleting removes the selected preset and nothing else: once
    the user agrees, in a library of more than one preset, no preset is
    found under the selected name any more and every other name finds what
    it found before; with no preset selected, a single preset left or the
    dialog declined, nothing changes. *)
Theorem delete_then_find (lib : Library) (d : Desk) (selected : Preset.t) :
  selectedPreset lib = Some selected ->
  let lib' := fst (perform d 0 lib (handleDeletePreset lib)) in
  (1 < List.length (presets lib) -> agreed d 0 = true ->
   forall other,
     find_preset other (presets lib')
     = if String.eqb (Preset.name selected) other then None
       else find_preset other (presets lib))
  /\ (List.length (presets lib) <= 1 \/ agreed d 0 = false -> lib' = lib).
Proof.
  intros Hs. cbv zeta. unfold handleDeletePreset. rewrite Hs. split.
  - intros Hl Ha. apply Nat.leb_gt in Hl. rewrite Hl. cbn [perform]. rewrite Ha.
    cbn [perform negb fst presets]. intros other.
    destruct (String.eqb (Preset.name selected) other) eqn:E.
    + apply String.eqb_eq in E. subst other. apply find_preset_filter_same.
    + apply String.eqb_neq in E. apply find_preset_filter_other. congruence.
  - intros [Hl|Ha].
    + apply Nat.leb_le in Hl. now rewrite Hl.
    + destruct (List.length (presets lib) <=? 1); [reflexivity |].
      cbn [perform]. now rewrite Ha.
Qed.

(** **** Loading the library *)

Lemma stored_preset_named (o : json) (preset : Preset.t) :
  stored_preset NumberToString o = Some (Some preset) ->
  Preset.name preset <> EmptyString /\ trimmed (Preset.name preset).
Proof.
  unfold stored_preset, name_of.
  destruct (prop "name" o) as [[| | |s| |]|]; simpl; try discriminate.
  destruct (is_empty (trim s)) eqn:E; [discriminate |].
  destruct (normalizePresetData NumberToString (data_or_empty o)); simpl;
    [| discriminate].
  intros [= <-]. simpl. split; [now apply is_empty_false | apply trim_idem].
Qed.

Lemma stored_presets_named (items : list json) (entries : list (option Preset.t)) :
  mapM (stored_preset NumberToString) items = Some entries ->
  Forall (fun preset => Preset.name preset <> EmptyString
                        /\ trimmed (Preset.name preset))
    (omap (fun x => x) entries).
Proof.
  revert entries; induction items as [|o items IH]; intros entries.
  - intros [= <-]. constructor.
  - rewrite PresetSteps.mapM_cons_eq.
    destruct (stored_preset NumberToString o) as [e|] eqn:Eo; [| discriminate].
    destruct (mapM (stored_preset NumberToString) items) as [es|]; [| discriminate].
    simpl. intros [= <-]. specialize (IH es eq_refl).
    destruct e as [preset|]; simpl; [| exact IH].
    constructor; [now apply (stored_preset_named o) | exact IH].
Qed.

Lemma default_presets_named (fresh : nat -> string) :
  Forall (fun preset => Preset.name preset <> EmptyString
                        /\ trimmed (Preset.name preset))
    (createDefaultPresets NumberToString fresh).
Proof. unfold createDefaultPresets. repeat constructor; discriminate. Qed.

(** X18.  [loadPresetLibrary] never returns an empty library and never
    a preset without a proper name: whatever the stored text is (missing,
    empty, not JSON, not an array, an array with unusable entries), the
    result has at least one preset, and every preset's name is not empty
    and has no blanks around it. *)
Theorem loadPresetLibrary_usable (fresh : nat -> string) (stored : option string) :
  loadPresetLibrary NumberToString fresh stored <> []
  /\ Forall (fun preset => Preset.name preset <> EmptyString
                           /\ trimmed (Preset.name preset))
       (loadPresetLibrary NumberToString fresh stored).
Proof.
  pose proof (default_presets_named fresh) as Hd.
  assert (Hn : createDefaultPresets NumberToString fresh <> []) by discriminate.
  unfold loadPresetLibrary.
  destruct stored as [text|]; [| now split].
  destruct (is_empty text); [now split |].
  destruct (JSON_parse text) as [[| | | |parsed|]|]; try now split.
  destruct (mapM (stored_preset NumberToString) parsed) as [entries|] eqn:E;
    [| now split].
  apply stored_presets_named in E.
  destruct (omap (fun x => x) entries) as [|p l]; [now split |].
  split; [discriminate | exact E].
Qed.

End Handlers.

Lemma library_stays_orderly_witness :
  presets (fst (perform desk 0 shelf (handleSavePreset tidy shelf))) <> []
  /\ NoDup (List.map Preset.name
              (presets (fst (perform desk 0 shelf (handleDeletePreset shelf))))).
Proof.
  destruct (library_stays_orderly literal_text tidy shelf desk)
    as ((H1 & _) & _ & (_ & H2)).
  - discriminate.
  - refine (bool_decide_unpack _ _). vm_compute. exact I.
  - split; [exact H1 | exact H2].
Defined.

Lemma save_then_find_witness :
  selectedPresetName (fst (perform desk 0 shelf (handleSavePreset tidy shelf)))
  = "Night shift"
  /\ find_preset "Night shift"
       (presets (fst (perform desk 0 shelf (handleSavePreset tidy shelf))))
     = Some (form_preset tidy "Night shift").
Proof.
  destruct (save_then_find tidy shelf desk) as [H _].
  destruct H as [H1 H2]; [discriminate | left; reflexivity |].
  split; [exact H1 | exact (H2 "Night shift")].
Defined.

Lemma delete_then_find_witness :
  find_preset "Custom"
    (presets (fst (perform desk 0 shelf (handleDeletePreset shelf)))) = None
  /\ find_preset "Antigravity Lite"
       (presets (fst (perform desk 0 shelf (handleDeletePreset shelf))))
     = find_preset "Antigravity Lite" (presets shelf).
Proof.
  destruct (delete_then_find shelf desk
              (List.nth 2 (presets shelf) (form_preset tidy "")) eq_refl) as [H _].
  split; [exact (H ltac:(simpl; lia) eq_refl "Custom")
         | exact (H ltac:(simpl; lia) eq_refl "Antigravity Lite")].
Defined.

End LibraryFacts.
(** ** Running the install scripts again *)

Module RerunFacts.
Import Text Patch TextFacts PatchFacts.

#[local] Arguments split_at_first : simpl never.
#[local] Arguments String.prefix : simpl never.

Lemma prefix_longer (pat u z : string) :
  String.prefix pat u = true -> String.prefix pat (u +:+ z) = true.
Proof.
  intros H. apply prefix_inv in H as [t ->].
  rewrite append_assoc. apply prefix_append.
Qed.

Lemma match_text_nonempty {A : Type} (b : string) (x : A) (y : A) :
  b <> EmptyString ->
  match b with EmptyString => x | String _ _ => y end = y.
Proof. destruct b; [congruence | reflexivity]. Qed.

(** Where a pattern is first found does not depend on what follows the
    occurrence. *)
Lemma split_at_first_any_tail (pat a b z : string) :
  split_at_first pat (a +:+ pat +:+ b) = Some (a, b) ->
  split_at_first pat (a +:+ pat +:+ z) = Some (a, z).
Proof.
  induction a as [|c a IH]; intros H.
  - simpl. rewrite split_at_first_eq, prefix_append, drop_append. reflexivity.
  - rewrite split_at_first_eq in H.
    change (String c a +:+ pat +:+ b) with (String c (a +:+ pat +:+ b)) in H.
    destruct (String.prefix pat (String c (a +:+ pat +:+ b))) eqn:Hp;
      [discriminate |].
    destruct (split_at_first pat (a +:+ pat +:+ b)) as [[x y]|] eqn:Hs;
      [| discriminate].
    injection H as -> ->.
    rewrite split_at_first_eq.
    change (String c a +:+ pat +:+ z) with (String c (a +:+ pat +:+ z)).
    destruct (String.prefix pat (String c (a +:+ pat +:+ z))) eqn:Hp'.
    + exfalso.
      assert (Hshort : String.prefix pat (String c a +:+ pat) = true).
      { apply (prefix_shorter pat (String c a +:+ pat) z).
        - now rewrite append_assoc.
        - rewrite length_append. lia. }
      apply (prefix_longer _ _ b) in Hshort.
      rewrite append_assoc in Hshort. simpl in Hshort. congruence.
    + now rewrite (IH eq_refl).
Qed.

(** A block that is one marked span is found again where it was put. *)
Lemma regex_first_put_back (s e x block pre m post tail : string) :
  regex_first s e x = Some (pre, m, post) ->
  regex_first s e block = Some (EmptyString, block, EmptyString) ->
  regex_first s e (pre +:+ block +:+ tail) = Some (pre, block, tail).
Proof.
  intros Hx Hb.
  apply regex_first_sound in Hx as (mid & rest & H1 & _ & _ & _).
  apply regex_first_sound in Hb as (midb & restb & B1 & B2 & Hblock & _).
  pose proof (split_at_first_sound _ _ _ _ H1) as E1.
  pose proof (split_at_first_sound _ _ _ _ B1) as E2. simpl in E2.
  pose proof (split_at_first_sound _ _ _ _ B2) as E3.
  rewrite E1 in H1.
  unfold regex_first.
  rewrite Hblock at 1. rewrite !append_assoc.
  rewrite (split_at_first_any_tail s pre rest _ H1).
  rewrite E3 in B2. rewrite append_nil_r in B2.
  rewrite <- (append_nil_r (midb +:+ e)) in B2. rewrite append_assoc in B2.
  rewrite (split_at_first_any_tail e midb EmptyString tail B2).
  now rewrite <- Hblock.
Qed.

Section Rerun.
Variables start_marker end_marker block : string.
Hypothesis start_nonempty : start_marker <> EmptyString.
Hypothesis start_no_LF : mem_char LF start_marker = false.
Hypothesis block_marked :
  regex_first start_marker end_marker block
  = Some (EmptyString, block, EmptyString).

Lemma update_file_block_text_again (content : string) :
  update_file_block_text start_marker end_marker block
    (update_file_block_text start_marker end_marker block content)
  = update_file_block_text start_marker end_marker block content.
Proof.
  assert (Hfix : forall y pre post,
             regex_first start_marker end_marker y = Some (pre, block, post) ->
             y = pre +:+ block +:+ post ->
             update_file_block_text start_marker end_marker block y = y).
  { intros y pre post Hy Ey. unfold update_file_block_text, perl_subst_once.
    rewrite grep_qF_contains by assumption.
    rewrite (regex_first_contains _ _ _ _ _ _ Hy), Hy. now symmetry. }
  destruct (contains start_marker content) eqn:Hc.
  - destruct (regex_first start_marker end_marker content)
      as [[[pre m] post]|] eqn:Hr.
    + assert (E : update_file_block_text start_marker end_marker block content
                  = pre +:+ block +:+ post).
      { unfold update_file_block_text, perl_subst_once.
        rewrite grep_qF_contains by assumption. now rewrite Hc, Hr. }
      rewrite E.
      apply (Hfix _ pre post); [| reflexivity].
      exact (regex_first_put_back _ _ _ _ _ _ _ post Hr block_marked).
    + assert (E : update_file_block_text start_marker end_marker block content
                  = content).
      { unfold update_file_block_text, perl_subst_once.
        rewrite grep_qF_contains by assumption. now rewrite Hc, Hr. }
      now rewrite !E.
  - assert (E : update_file_block_text start_marker end_marker block content
                = content +:+ String LF (block +:+ String LF EmptyString)).
    { unfold update_file_block_text.
      rewrite grep_qF_contains by assumption. now rewrite Hc. }
    rewrite E.
    apply (Hfix _ (content +:+ String LF EmptyString) (String LF EmptyString)).
    + pose proof (regex_first_after _ _ content block (String LF EmptyString)
                    _ _ _ LF start_no_LF Hc block_marked) as Hy.
      exact Hy.
    + now rewrite ?append_assoc.
Qed.

Lemma regex_replace_all_again (content : string) :
  regex_replace_all start_marker end_marker block
    (regex_replace_all start_marker end_marker block content)
  = regex_replace_all start_marker end_marker block content.
Proof.
  remember (String.length content) as n eqn:Hn. revert content Hn.
  induction n as [n IH] using lt_wf_ind. intros content Hn.
  rewrite (regex_replace_all_eq _ _ _ content).
  destruct (regex_first start_marker end_marker content)
    as [[[pre m] post]|] eqn:Hr.
  - pose proof (regex_first_length _ _ _ _ _ _ Hr) as Hlen.
    pose proof (regex_first_sound _ _ _ _ _ _ Hr) as (mid & rest & _ & _ & Hm & _).
    assert (Hmne : exists c t, m = String c t).
    { rewrite Hm. destruct start_marker; [congruence | simpl; eauto]. }
    destruct Hmne as (c & t & ->).
    set (tail := regex_replace_all start_marker end_marker block post).
    rewrite regex_replace_all_eq.
    rewrite (regex_first_put_back _ _ _ _ _ _ _ tail Hr block_marked).
    pose proof (regex_first_sound _ _ _ _ _ _ block_marked)
      as (midb & restb & _ & _ & Hb & _).
    assert (Hbne : block <> EmptyString).
    { rewrite Hb. destruct start_marker; [congruence | discriminate]. }
    rewrite (match_text_nonempty block _ _ Hbne).
    subst tail. f_equal. f_equal.
    apply (IH (String.length post)); [| reflexivity].
    simpl in Hlen. lia.
  - rewrite regex_replace_all_eq. now rewrite Hr.
Qed.

End Rerun.

(** X19.  Running [update_file_block] of [apply-macos.sh] a second time
    changes nothing, provided the block that is written is one marked span
    (it begins with the start marker, and the first end marker after that
    is its end): whether the first run appended the block, replaced an
    earlier one or left a file with an unclosed start marker alone, the
    second run writes the same text again.  The start marker is a
    non-empty single line that does not begin with a dash. *)
Theorem update_file_block_idempotent (start_marker end_marker block : string)
    (file : option string) :
  start_marker <> EmptyString ->
  dashed start_marker = false ->
  mem_char LF start_marker = false ->
  regex_first start_marker end_marker block
  = Some (EmptyString, block, EmptyString) ->
  update_file_block start_marker end_marker block
    (update_file_block start_marker end_marker block file)
  = update_file_block start_marker end_marker block file.
Proof.
  intros Hne _ Hlf Hb. destruct file as [content|]; [| reflexivity].
  unfold update_file_block. f_equal.
  now apply update_file_block_text_again.
Qed.

Lemma update_file_block_idempotent_witness :
  update_file_block "/* START */" "/* END */" "/* START */ new /* END */"
    (Some "a /* START */ old /* END */ b")
  = Some "a /* START */ new /* END */ b"
  /\ update_file_block "/* START */" "/* END */" "/* START */ new /* END */"
       (Some "a /* START */ new /* END */ b")
     = Some "a /* START */ new /* END */ b".
Proof.
  split; [reflexivity |].
  exact (update_file_block_idempotent "/* START */" "/* END */"
           "/* START */ new /* END */" (Some "a /* START */ old /* END */ b")
           ltac:(discriminate) eq_refl eq_refl eq_refl).
Defined.

Lemma contains_CRLF (s : string) :
  s <> EmptyString -> mem_char LF s = false -> mem_char CR s = false ->
  contains s CRLF = false.
Proof.
  intros Hne Hlf Hcr. unfold contains, CRLF.
  pose proof (split_at_first_skip s EmptyString (String LF EmptyString) CR Hcr
                (contains_empty_text _ Hne)) as H1.
  simpl String.append in H1. rewrite H1.
  pose proof (split_at_first_skip s EmptyString EmptyString LF Hlf
                (contains_empty_text _ Hne)) as H2.
  simpl String.append in H2. rewrite H2.
  pose proof (contains_empty_text _ Hne) as H3. unfold contains in H3.
  now destruct (split_at_first s EmptyString) as [[? ?]|].
Qed.

(** X20.  For markers, block and file in ASCII, running
    [Update-FileBlock] of [apply.ps1] a second time changes nothing,
    provided the block is one marked span and the file either has a
    marked block already or has the start marker nowhere, in whatever
    letter case: the second run finds exactly the blocks the first run
    wrote and writes them again.  (A file that has the start marker but no
    end marker after it is outside this: the first run appends, and the
    second replaces from the old start marker on.  So is text that is not
    ASCII: the script writes UTF-8 and names no encoding for reading.) *)
Theorem Update_FileBlock_idempotent
    (start_marker end_marker block content : string) :
  ascii_text start_marker = true ->
  ascii_text end_marker = true ->
  ascii_text block = true ->
  ascii_text content = true ->
  start_marker <> EmptyString ->
  mem_char LF start_marker = false ->
  mem_char CR start_marker = false ->
  regex_first start_marker end_marker block
  = Some (EmptyString, block, EmptyString) ->
  ps_match start_marker end_marker content = true
  \/ contains (lower start_marker) (lower content) = false ->
  Update_FileBlock start_marker end_marker block
    (Update_FileBlock start_marker end_marker block (Some content))
  = Update_FileBlock start_marker end_marker block (Some content).
Proof.
  intros _ _ _ _ Hne Hlf Hcr Hb [Hm|Habs].
  - unfold Update_FileBlock, Update_FileBlock_text. rewrite Hm. f_equal.
    assert (Hm' : ps_match start_marker end_marker
                    (regex_replace_all start_marker end_marker block content)
                  = true).
    { rewrite regex_replace_all_eq.
      destruct (regex_first start_marker end_marker content)
        as [[[pre m] post]|] eqn:Hr; [| exact Hm].
      pose proof (regex_first_sound _ _ _ _ _ _ Hr) as (mid & rest & _ & _ & E & _).
      rewrite (match_text_nonempty m).
      - eapply regex_first_ps_match.
        exact (regex_first_put_back _ _ _ _ _ _ _ _ Hr Hb).
      - rewrite E. destruct start_marker; [congruence | discriminate]. }
    rewrite Hm'. now apply regex_replace_all_again.
  - rewrite (Update_FileBlock_appends _ _ _ _ Habs).
    assert (Hr : regex_first start_marker end_marker
                   (content +:+ CRLF +:+ block +:+ CRLF)
                 = Some (content +:+ CRLF, block, CRLF)).
    { pose proof (regex_first_after _ _ EmptyString block CRLF _ _ _ LF Hlf
                    (contains_empty_text _ Hne) Hb) as H1.
      unfold regex_first in H1 |- *. unfold CRLF at 1 3.
      simpl String.append in H1 |- *.
      rewrite (split_at_first_skip _ content _ CR Hcr
                 (contains_lower_absent _ _ Habs)).
      destruct (split_at_first start_marker (String LF (block +:+ CRLF)))
        as [[x y]|]; [| discriminate].
      destruct (split_at_first end_marker y) as [[u v]|]; [| discriminate].
      injection H1 as <- <- <-. reflexivity. }
    rewrite (Update_FileBlock_replaces_all _ _ Hne _ _ _ _ _ Hr).
    f_equal. rewrite regex_replace_all_eq.
    rewrite (regex_first_absent _ _ _ (contains_CRLF _ Hne Hlf Hcr)).
    now rewrite !append_assoc.
Qed.

Lemma Update_FileBlock_idempotent_witness :
  Update_FileBlock "/* START */" "/* END */" "/* START */ new /* END */"
    (Some "a /* START */ 1 /* END */ b /* START */ 2 /* END */ c")
  = Some "a /* START */ new /* END */ b /* START */ new /* END */ c"
  /\ Update_FileBlock "/* START */" "/* END */" "/* START */ new /* END */"
       (Some "a /* START */ new /* END */ b /* START */ new /* END */ c")
     = Some "a /* START */ new /* END */ b /* START */ new /* END */ c".
Proof.
  split; [reflexivity |].
  exact (Update_FileBlock_idempotent "/* START */" "/* END */"
           "/* START */ new /* END */"
           "a /* START */ 1 /* END */ b /* START */ 2 /* END */ c"
           eq_refl eq_refl eq_refl eq_refl
           ltac:(discriminate) eq_refl eq_refl eq_refl (or_introl eq_refl)).
Defined.

End RerunFacts.
(** ** The install flow once consent is given *)

Module InstallFacts.
Import Text Js Installer Samples.Install.

Lemma filter_none {A : Type} (f : A -> bool) (l : list A) :
  Forall (fun x => f x = false) l -> List.filter f l = [].
Proof.
  induction 1 as [|x l Hx _ IH]; simpl; [reflexivity |]. now rewrite Hx.
Qed.

Lemma run_enact (w : World) (asked : nat) (manifest : InstallManifest) :
  installs (run w asked (enact manifest)) = [manifest]
  /\ confirmations (run w asked (enact manifest)) = []
  /\ statuses (run w asked (enact manifest))
     = [installing;
        match run_install w manifest with
        | Resolved _ => complete
        | Rejected _ => failed
        end].
Proof.
  unfold enact. cbn [run]. destruct (run_install w manifest); repeat split.
Qed.

(** X21.  Once nothing stands in the way, [handleInstall] hands the
    loaded manifest to [run_install] exactly once and as it is: a
    manifest without a [runCommand] step is installed without any dialog,
    one with such steps after the single consent dialog is accepted.  The
    status goes to [installing] and ends as [complete] when the backend
    resolves and as [error] when it rejects. *)
Theorem handleInstall_enacts (manifest : InstallManifest) (w : World) :
  let trace := run w 0 (handleInstall (Some manifest)) in
  let outcome :=
    [installing;
     match run_install w manifest with
     | Resolved _ => complete
     | Rejected _ => failed
     end] in
  (Forall (fun step => String.eqb (type step) "runCommand" = false)
     (installSteps manifest) ->
   confirmations trace = [] /\ installs trace = [manifest]
   /\ statuses trace = outcome)
  /\ (answer w 0 = true ->
      installs trace = [manifest] /\ statuses trace = outcome
      /\ List.length (confirmations trace) <= 1).
Proof.
  cbv zeta. unfold handleInstall. split.
  - intros Hnone. rewrite (filter_none _ _ Hnone). simpl Nat.ltb. cbv iota.
    destruct (run_enact w 0 manifest) as (H1 & H2 & H3). now repeat split.
  - intros Hyes.
    destruct (0 <? List.length _).
    + cbn [run]. rewrite Hyes. cbn [negb].
      destruct (run_enact w 1 manifest) as (H1 & H2 & H3).
      cbn [installs statuses confirmations omap list_omap].
      fold (installs (run w 1 (enact manifest))).
      fold (statuses (run w 1 (enact manifest))).
      fold (confirmations (run w 1 (enact manifest))).
      rewrite H1, H2, H3. repeat split. simpl. lia.
    + destruct (run_enact w 0 manifest) as (H1 & H2 & H3).
      rewrite H1, H2, H3. repeat split. simpl. lia.
Qed.

Lemma handleInstall_enacts_witness :
  installs (run {| run_install := fun _ => Rejected "disk full";
                   answer := fun _ => true |} 0
              (handleInstall (Some sample_manifest)))
  = [sample_manifest]
  /\ statuses (run {| run_install := fun _ => Rejected "disk full";
                      answer := fun _ => true |} 0
                 (handleInstall (Some sample_manifest)))
     = [installing; failed].
Proof.
  destruct (handleInstall_enacts sample_manifest
              {| run_install := fun _ => Rejected "disk full";
                 answer := fun _ => true |}) as [_ H].
  destruct (H eq_refl) as (H1 & H2 & _). split; [exact H1 | exact H2].
Defined.

End InstallFacts.
(** ** The warnings of a manifest import *)

Module WarningFacts.
Import Text Js Studio TextFacts PresetFacts PresetSteps.
Import Samples.Presets Shelf.

Section Warnings.
Variable NumberToString : string -> string.

Lemma mapM_length_eq {A B : Type} (f : A -> option B) (l : list A) (r : list B) :
  mapM f l = Some r -> List.length r = List.length l.
Proof.
  revert r; induction l as [|x l IH]; intros r.
  - intros [= <-]. reflexivity.
  - rewrite mapM_cons_eq. destruct (f x) as [y|]; [| discriminate].
    destruct (mapM f l) as [k|]; [| discriminate].
    simpl. intros [= <-]. simpl. now rewrite (IH k).
Qed.

Lemma step_warnings_count (index : nat) (step : json) (ws : list string) :
  step_warnings NumberToString index step = Some ws ->
  List.length ws = converted step.
Proof.
  unfold step_warnings, converted.
  destruct step as [| b | n | s | items | props]; try discriminate;
    (destruct (is_patchBlock _); simpl negb; cbv iota;
     [| intros [= <-]; reflexivity]);
    (destruct (prop "replacements" _) as [[| | | | reps | reps]|];
     try (intros [= <-]; reflexivity));
    intros H; now apply mapM_length_eq in H.
Qed.

Lemma warnings_count (steps : list json) (k : nat) (lists : list (list string)) :
  mapM (fun x => x) (imap (fun i => step_warnings NumberToString (k + i)) steps)
  = Some lists ->
  List.length (concat lists) = list_sum (List.map converted steps).
Proof.
  revert k lists; induction steps as [|step steps IH]; intros k lists.
  - intros [= <-]. reflexivity.
  - cbn [imap]. rewrite mapM_cons_eq.
    destruct (step_warnings NumberToString (k + 0) step) as [ws|] eqn:E;
      [| discriminate].
    simpl.
    destruct (mapM (fun x => x)
                (imap ((fun i => step_warnings NumberToString (k + i)) ∘ S) steps))
      as [rest|] eqn:Er; [| discriminate].
    intros [= <-]. simpl. rewrite length_app.
    rewrite (step_warnings_count _ _ _ E). f_equal.
    apply (IH (S k)). rewrite <- Er. f_equal.
    apply imap_ext. intros i x _. simpl. f_equal. lia.
Qed.

(** X22.  [collectReplacementWarnings] warns once for every replacement
    value the import converts: when it returns, the number of warnings is
    the number of replacement values of [patchBlock] steps that are no
    strings; so it returns no warning exactly when all of them are
    strings.  Other steps and other fields never cause a warning. *)
Theorem collectReplacementWarnings_count (manifest : json) (warnings : list string) :
  collectReplacementWarnings NumberToString manifest = Some warnings ->
  List.length warnings = list_sum (List.map converted (manifest_steps manifest))
  /\ (warnings = [] <-> Forall (fun step => converted step = 0)
                          (manifest_steps manifest)).
Proof.
  unfold collectReplacementWarnings, manifest_steps. intros H.
  assert (Hlen : List.length warnings
                 = list_sum (List.map converted
                               match prop "installSteps" manifest with
                               | Some (JArr installSteps) => installSteps
                               | _ => []
                               end)).
  { destruct (prop "installSteps" manifest) as [[| | | | steps |]|];
      try (injection H as <-; reflexivity).
    destruct (mapM (fun x => x) (imap (step_warnings NumberToString) steps))
      as [lists|] eqn:E; [| discriminate].
    simpl in H. injection H as <-.
    now apply (warnings_count steps 0). }
  split; [exact Hlen |].
  set (steps := match prop "installSteps" manifest with
                | Some (JArr installSteps) => installSteps
                | _ => []
                end) in *.
  clearbody steps. clear H. split.
  - intros ->. simpl in Hlen.
    induction steps as [|s steps IH]; [constructor |].
    simpl in Hlen. constructor; [lia | apply IH; lia].
  - intros Hall. destruct warnings as [|w ws]; [reflexivity |].
    exfalso. simpl in Hlen.
    induction Hall as [|s steps Hs _ IH]; simpl in Hlen; [lia |].
    apply IH. lia.
Qed.

End Warnings.

Lemma collectReplacementWarnings_count_witness :
  collectReplacementWarnings literal_text parsed_manifest = Some [size_warning]
  /\ list_sum (List.map converted (manifest_steps parsed_manifest)) = 1.
Proof.
  split; [reflexivity |].
  symmetry.
  exact (proj1 (collectReplacementWarnings_count literal_text parsed_manifest
                  [size_warning] eq_refl)).
Defined.

End WarningFacts.
(** ** Reading back the JSON text the application writes *)

Module JsonText.
Import Text Js Studio TextFacts JsonFacts PresetFacts RoundTripFacts.
Import Samples.Presets Shelf.

#[local] Opaque parse_value parse_items parse_members.

Lemma parse_escape_char (c : ascii) (tail : string) :
  parse_string_body (escape_char c +:+ tail)
  = prepend (String c EmptyString) (parse_string_body tail).
Proof.
  destruct c as [[] [] [] [] [] [] [] []]; reflexivity.
Qed.

Lemma parse_escape (s rest : string) :
  parse_string_body (escape s +:+ String "034" rest) = Some (s, rest).
Proof.
  induction s as [|c s IH]; [reflexivity |].
  cbn [escape]. rewrite append_assoc, parse_escape_char, IH. reflexivity.
Qed.

Lemma skip_ws_blank (w s : string) :
  all_chars is_json_ws w = true -> skip_ws (w +:+ s) = skip_ws s.
Proof.
  induction w as [|c w IH]; [reflexivity |]. simpl.
  intros H. apply andb_true_iff in H as [Hc Hw].
  unfold skip_ws in *. simpl. rewrite Hc. now apply IH.
Qed.

Lemma parse_value_blank (fuel : nat) (w s : string) :
  all_chars is_json_ws w = true ->
  parse_value fuel (w +:+ s) = parse_value fuel s.
Proof.
  intros H. destruct fuel as [|fuel]; [reflexivity |].
  rewrite !parse_value_S. now rewrite skip_ws_blank.
Qed.

Lemma all_ws_deeper (indent : string) :
  all_chars is_json_ws indent = true ->
  all_chars is_json_ws (indent +:+ "  ") = true.
Proof.
  induction indent as [|c t IH]; [reflexivity |]. simpl.
  intros H. apply andb_true_iff in H as [Hc Ht]. now rewrite Hc, IH.
Qed.

Lemma strip_comma (t : string) : strip_char "," (skip_ws (String "," t)) = Some t.
Proof. reflexivity. Qed.

Lemma strip_close (t : string) :
  strip_char "," (skip_ws (String "]" t)) = None
  /\ strip_char "]" (skip_ws (String "]" t)) = Some t.
Proof. split; reflexivity. Qed.

Section Printed.
Variable NumberToString : string -> string.


Lemma render_opens (indent : string) (v : json) :
  written v = true -> opens (stringify NumberToString indent v).
Proof.
  destruct v as [| [] | n | s | [|x l] | [|kv l]]; simpl; try discriminate;
    intros _; unfold opens; eauto 10.
Qed.

Lemma skip_ws_opens (s tail : string) :
  opens s -> skip_ws (s +:+ tail) = s +:+ tail
             /\ strip_char "]" (s +:+ tail) = None
             /\ strip_char "}" (s +:+ tail) = None.
Proof.
  intros (c & t & -> & Hw & Hb & Hc). unfold skip_ws. simpl.
  now rewrite Hw, Hb, Hc.
Qed.

Lemma parse_items_printed (indent outer rest : string) (l : list json) :
  Forall (reads_back NumberToString) l -> forallb written l = true -> l <> [] ->
  all_chars is_json_ws indent = true -> all_chars is_json_ws outer = true ->
  forall acc fuel,
    list_sum (List.map (fun item => S (weight item)) l) <= fuel ->
    parse_items fuel
      (lf +:+ join ("," +:+ lf) (List.map (item_text NumberToString indent) l)
       +:+ lf +:+ outer +:+ "]" +:+ rest) acc
    = Some (JArr (acc ++ l), rest).
Proof.
  intros HP. induction HP as [|x l Hx _ IH]; [congruence |].
  intros Hw _ Hi Ho acc fuel Hf.
  cbn [forallb] in Hw. apply andb_true_iff in Hw as [Hwx Hwl].
  cbn [List.map list_sum] in Hf.
  destruct fuel as [|fuel]; [simpl in Hf; lia |].
  rewrite parse_items_S.
  assert (Hstart : forall tail,
             parse_value fuel (lf +:+ item_text NumberToString indent x +:+ tail) = Some (x, tail)).
  { intros tail. unfold item_text.
    change (lf +:+ (indent +:+ stringify NumberToString indent x) +:+ tail)
      with (String LF ((indent +:+ stringify NumberToString indent x) +:+ tail)).
    rewrite append_assoc.
    change (String LF (indent +:+ stringify NumberToString indent x +:+ tail))
      with ((String LF indent) +:+ stringify NumberToString indent x +:+ tail).
    rewrite parse_value_blank by (simpl; exact Hi).
    apply Hx; [exact Hwx | exact Hi | simpl in Hf; lia]. }
  destruct l as [|y l].
  - cbn [List.map join]. rewrite Hstart.
    change (lf +:+ outer +:+ "]" +:+ rest)
      with ((String LF outer) +:+ String "]" rest).
    rewrite skip_ws_blank by (simpl; exact Ho).
    destruct (strip_close rest) as [-> ->]. reflexivity.
  - cbn [List.map]. rewrite join_cons2, !append_assoc.
    rewrite Hstart.
    match goal with
    | |- context [skip_ws ("," +:+ ?t)] =>
        change (skip_ws ("," +:+ t)) with (skip_ws (String "," t))
    end.
    rewrite strip_comma.
    specialize (IH Hwl ltac:(discriminate) Hi Ho (acc ++ [x]) fuel).
    cbn [List.map] in IH. rewrite <- app_assoc in IH. simpl app in IH.
    apply IH. simpl in Hf |- *. lia.
Qed.

Lemma not_in_has {A : Type} (k : string) (m : list (string * A)) :
  ~ In k (List.map fst m) -> has k m = false.
Proof.
  unfold has. induction m as [|[k' v] m IH]; simpl; [reflexivity |].
  intros H. destruct (String.eqb k k') eqn:E.
  - apply String.eqb_eq in E. subst k'. exfalso. apply H. now left.
  - apply IH. intros Hin. apply H. now right.
Qed.

Lemma strip_colon (t : string) : strip_char ":" (skip_ws (String ":" t)) = Some t.
Proof. reflexivity. Qed.

Lemma strip_quote (t : string) : strip_char "034" (skip_ws (String "034" t)) = Some t.
Proof. reflexivity. Qed.

Lemma strip_brace (t : string) :
  strip_char "," (skip_ws (String "}" t)) = None
  /\ strip_char "}" (skip_ws (String "}" t)) = Some t.
Proof. split; reflexivity. Qed.

Lemma parse_members_printed (indent outer rest : string) (l : list (string * json)) :
  Forall (fun kv => reads_back NumberToString (snd kv)) l ->
  Forall (fun kv => array_index (fst kv) = None /\ written (snd kv) = true) l ->
  l <> [] ->
  all_chars is_json_ws indent = true -> all_chars is_json_ws outer = true ->
  forall acc fuel,
    NoDup (List.map fst (acc ++ l)) ->
    list_sum (List.map (fun kv => S (weight (snd kv))) l) <= fuel ->
    parse_members fuel
      (lf +:+ join ("," +:+ lf) (List.map (member_text NumberToString indent) l)
       +:+ lf +:+ outer +:+ "}" +:+ rest) acc
    = Some (JObj (acc ++ l), rest).
Proof.
  intros HP. induction HP as [|[k v] l Hx _ IH]; [congruence |].
  intros Hw _ Hi Ho acc fuel Hnd Hf.
  apply List.Forall_cons_iff in Hw as [[Hk Hwv] Hwl].
  cbn [List.map list_sum snd fst] in Hf, Hk, Hwv, Hx.
  destruct fuel as [|fuel]; [simpl in Hf; lia |].
  rewrite parse_members_S.
  assert (Hdef : define_property k v acc = acc ++ [(k, v)]).
  { unfold define_property. rewrite not_in_has.
    - now apply insert_ordered_plain.
    - rewrite List.map_app in Hnd. apply NoDup_app in Hnd as (_ & Hnd & _).
      intros Hin. apply (Hnd k); [now apply list_elem_of_In |].
      simpl. left. }
  assert (Hstart : forall tail,
             match strip_char "034"
                     (skip_ws (lf +:+ member_text NumberToString indent (k, v) +:+ tail))
             with
             | None => None
             | Some t =>
                 match parse_string_body t with
                 | None => None
                 | Some (key, rest0) =>
                     match strip_char ":" (skip_ws rest0) with
                     | None => None
                     | Some rest1 =>
                         match parse_value fuel rest1 with
                         | None => None
                         | Some (w, rest2) => Some (key, w, rest2)
                         end
                     end
                 end
             end = Some (k, v, tail)).
  { intros tail. unfold member_text. cbn [fst snd].
    change (lf +:+ (indent +:+ quote k +:+ ": "
                    +:+ stringify NumberToString indent v) +:+ tail)
      with (String LF ((indent +:+ quote k +:+ ": "
                        +:+ stringify NumberToString indent v) +:+ tail)).
    rewrite !append_assoc.
    change (String LF (indent +:+ quote k +:+ ": "
                       +:+ stringify NumberToString indent v +:+ tail))
      with ((String LF indent) +:+ quote k +:+ ": "
            +:+ stringify NumberToString indent v +:+ tail).
    rewrite skip_ws_blank by (simpl; exact Hi).
    unfold quote.
    change (String "034" (escape k +:+ String "034" EmptyString) +:+ ": "
            +:+ stringify NumberToString indent v +:+ tail)
      with (String "034" ((escape k +:+ String "034" EmptyString) +:+ ": "
                          +:+ stringify NumberToString indent v +:+ tail)).
    rewrite strip_quote, append_assoc.
    change (String "034" EmptyString +:+ ": "
            +:+ stringify NumberToString indent v +:+ tail)
      with (String "034" (String ":" (" " +:+ stringify NumberToString indent v
                                      +:+ tail))).
    rewrite parse_escape, strip_colon.
    rewrite parse_value_blank by reflexivity.
    rewrite (Hx Hwv indent tail fuel Hi) by (simpl in Hf; lia).
    reflexivity. }
  destruct l as [|y l].
  - cbn [List.map join].
    specialize (Hstart (lf +:+ outer +:+ "}" +:+ rest)).
    destruct (strip_char "034" _) as [t|]; [| discriminate].
    destruct (parse_string_body t) as [[key rest0]|]; [| discriminate].
    destruct (strip_char ":" (skip_ws rest0)) as [rest1|]; [| discriminate].
    destruct (parse_value fuel rest1) as [[w rest2]|]; [| discriminate].
    injection Hstart as -> -> ->.
    change (String LF (outer +:+ String "}" rest))
      with ((String LF outer) +:+ String "}" rest).
    rewrite skip_ws_blank by (simpl; exact Ho).
    destruct (strip_brace rest) as [-> ->]. now rewrite Hdef.
  - cbn [List.map]. rewrite join_cons2, !append_assoc.
    match goal with
    | |- context [member_text NumberToString indent (k, v) +:+ ?tail] =>
        specialize (Hstart tail)
    end.
    destruct (strip_char "034" _) as [t|]; [| discriminate].
    destruct (parse_string_body t) as [[key rest0]|]; [| discriminate].
    destruct (strip_char ":" (skip_ws rest0)) as [rest1|]; [| discriminate].
    destruct (parse_value fuel rest1) as [[w rest2]|]; [| discriminate].
    injection Hstart as -> -> ->.
    rewrite strip_comma, Hdef.
    specialize (IH Hwl ltac:(discriminate) Hi Ho (acc ++ [(k, v)]) fuel).
    cbn [List.map] in IH. rewrite <- app_assoc in IH. simpl app in IH.
    apply IH; [exact Hnd | simpl in Hf |- *; lia].
Qed.

Lemma parse_keyword_here (word : string) (v : json) (rest : string) :
  parse_keyword word v (word +:+ rest) = Some (v, rest).
Proof. unfold parse_keyword. now rewrite prefix_append, drop_append. Qed.

Lemma skip_item (indent text tail : string) :
  all_chars is_json_ws indent = true ->
  skip_ws (lf +:+ (indent +:+ text) +:+ tail) = skip_ws (text +:+ tail).
Proof.
  intros H.
  change (lf +:+ (indent +:+ text) +:+ tail)
    with (String LF ((indent +:+ text) +:+ tail)).
  rewrite append_assoc.
  change (String LF (indent +:+ text +:+ tail))
    with ((String LF indent) +:+ text +:+ tail).
  apply skip_ws_blank. simpl. exact H.
Qed.

Lemma join_first (sep a : string) (l : list string) :
  exists tail, join sep (a :: l) = a +:+ tail.
Proof.
  destruct l as [|b l].
  - exists EmptyString. simpl. now rewrite append_nil_r.
  - eexists. apply join_cons2.
Qed.

Lemma forallb_Forall' {A : Type} (f : A -> bool) (l : list A) :
  forallb f l = true -> Forall (fun x => f x = true) l.
Proof.
  induction l as [|x l IH]; simpl; [constructor |].
  intros H. apply andb_true_iff in H as [Hx Hl]. constructor; auto.
Qed.

Lemma items_text_eq (indent : string) (l : list json) :
  List.map (fun i => indent +:+ "  " +:+ stringify NumberToString (indent +:+ "  ") i) l
  = List.map (item_text NumberToString (indent +:+ "  ")) l.
Proof. apply map_ext. intros i. unfold item_text. now rewrite append_assoc. Qed.

Lemma members_text_eq (indent : string) (l : list (string * json)) :
  List.map (fun kv => indent +:+ "  " +:+ quote (fst kv) +:+ ": "
                      +:+ stringify NumberToString (indent +:+ "  ") (snd kv)) l
  = List.map (member_text NumberToString (indent +:+ "  ")) l.
Proof. apply map_ext. intros kv. unfold member_text. now rewrite !append_assoc. Qed.

Lemma reads_back_all (v : json) : reads_back NumberToString v.
Proof.
  induction v as [| b | n | s | items IH | props IH] using json_nested_ind;
    unfold reads_back; intros Hw indent rest fuel Hi Hf.
  - destruct fuel as [|fuel]; [simpl in Hf; lia |]. rewrite parse_value_S.
    apply (parse_keyword_here "null").
  - destruct fuel as [|fuel]; [simpl in Hf; lia |].
    rewrite parse_value_S.
    destruct b; [apply (parse_keyword_here "true") | apply (parse_keyword_here "false")].
  - discriminate.
  - destruct fuel as [|fuel]; [simpl in Hf; lia |].
    rewrite parse_value_S. cbn [stringify]. unfold quote.
    change (String "034" (escape s +:+ String "034" EmptyString) +:+ rest)
      with (String "034" ((escape s +:+ String "034" EmptyString) +:+ rest)).
    rewrite append_assoc.
    change (String "034" EmptyString +:+ rest) with (String "034" rest).
    unfold skip_ws. cbn [drop_while is_json_ws]. cbv iota.
    change (Ascii.eqb "034" "n") with false.
    change (Ascii.eqb "034" "t") with false.
    change (Ascii.eqb "034" "f") with false.
    change (Ascii.eqb "034" "034") with true. cbv iota.
    now rewrite parse_escape.
  - destruct fuel as [|fuel]; [simpl in Hf; lia |].
    rewrite parse_value_S.
    destruct items as [|x l]; [reflexivity |].
    cbn [written] in Hw. cbn [weight] in Hf.
    pose proof (all_ws_deeper indent Hi) as Hd.
    assert (E : stringify NumberToString indent (JArr (x :: l)) +:+ rest
                = String "["
                    (lf +:+ join ("," +:+ lf)
                              (List.map (item_text NumberToString (indent +:+ "  "))
                                 (x :: l))
                     +:+ lf +:+ indent +:+ "]" +:+ rest)).
    { cbn [stringify]. rewrite items_text_eq. now rewrite !append_assoc. }
    rewrite E. unfold skip_ws at 1. cbn [drop_while is_json_ws]. cbv iota.
    change (Ascii.eqb "[" "n") with false.
    change (Ascii.eqb "[" "t") with false.
    change (Ascii.eqb "[" "f") with false.
    change (Ascii.eqb "[" "034") with false.
    change (Ascii.eqb "[" "[") with true. cbv iota.
    assert (Hopen : strip_char "]"
                      (skip_ws
                         (lf +:+ join ("," +:+ lf)
                                   (List.map (item_text NumberToString (indent +:+ "  "))
                                      (x :: l))
                          +:+ lf +:+ indent +:+ "]" +:+ rest)) = None).
    { cbn [List.map].
      destruct (join_first ("," +:+ lf)
                  (item_text NumberToString (indent +:+ "  ") x)
                  (List.map (item_text NumberToString (indent +:+ "  ")) l))
        as [tail ->].
      unfold item_text. rewrite (append_assoc _ _ tail).
      rewrite skip_item by exact Hd. rewrite append_assoc.
      cbn [forallb] in Hw. apply andb_true_iff in Hw as [Hwx _].
      destruct (skip_ws_opens _ (tail +:+ lf +:+ indent +:+ "]" +:+ rest)
                  (render_opens (indent +:+ "  ") x Hwx)) as (-> & -> & _).
      reflexivity. }
    rewrite Hopen.
    apply (parse_items_printed (indent +:+ "  ") indent rest (x :: l) IH Hw
             ltac:(discriminate) Hd Hi []).
    lia.
  - destruct fuel as [|fuel]; [simpl in Hf; lia |].
    rewrite parse_value_S.
    destruct props as [|kv l]; [reflexivity |].
    cbn [written] in Hw. cbn [weight] in Hf.
    apply andb_true_iff in Hw as [Hnd Hw]. apply bool_decide_eq_true in Hnd.
    pose proof (all_ws_deeper indent Hi) as Hd.
    assert (E : stringify NumberToString indent (JObj (kv :: l)) +:+ rest
                = String "{"
                    (lf +:+ join ("," +:+ lf)
                              (List.map (member_text NumberToString (indent +:+ "  "))
                                 (kv :: l))
                     +:+ lf +:+ indent +:+ "}" +:+ rest)).
    { cbn [stringify]. rewrite members_text_eq. now rewrite !append_assoc. }
    rewrite E. unfold skip_ws at 1. cbn [drop_while is_json_ws]. cbv iota.
    change (Ascii.eqb "{" "n") with false.
    change (Ascii.eqb "{" "t") with false.
    change (Ascii.eqb "{" "f") with false.
    change (Ascii.eqb "{" "034") with false.
    change (Ascii.eqb "{" "[") with false.
    change (Ascii.eqb "{" "{") with true. cbv iota.
    assert (Hopen : strip_char "}"
                      (skip_ws
                         (lf +:+ join ("," +:+ lf)
                                   (List.map (member_text NumberToString (indent +:+ "  "))
                                      (kv :: l))
                          +:+ lf +:+ indent +:+ "}" +:+ rest)) = None).
    { cbn [List.map].
      destruct (join_first ("," +:+ lf)
                  (member_text NumberToString (indent +:+ "  ") kv)
                  (List.map (member_text NumberToString (indent +:+ "  ")) l))
        as [tail ->].
      unfold member_text. rewrite (append_assoc _ _ tail).
      rewrite skip_item by exact Hd.
      reflexivity. }
    rewrite Hopen.
    apply (parse_members_printed (indent +:+ "  ") indent rest (kv :: l) IH).
    + apply forallb_Forall' in Hw. eapply List.Forall_impl; [| exact Hw].
      intros [k w]. simpl. now destruct (array_index k).
    + discriminate.
    + exact Hd.
    + exact Hi.
    + exact Hnd.
    + lia.
Qed.

(** Whatever the application prints parses back to the value printed. *)
Lemma JSON_parse_stringify (v : json) :
  written v = true -> JSON_parse (JSON_stringify2 NumberToString v) = Some v.
Proof.
  intros Hw. unfold JSON_stringify2.
  set (text := stringify NumberToString EmptyString v).
  rewrite <- (JSON_parse_fuel text (Nat.max (2 * String.length text + 2) (weight v)))
    by lia.
  pose proof (reads_back_all v Hw EmptyString EmptyString
                (Nat.max (2 * String.length text + 2) (weight v)) eq_refl
                ltac:(lia)) as H.
  rewrite append_nil_r in H. fold text in H. now rewrite H.
Qed.

End Printed.

(** *** Preset files *)

Lemma written_holds (o : json) (props : list (string * json)) :
  holds o props ->
  NoDup (List.map fst props) ->
  List.Forall (fun kv => array_index (fst kv) = None /\ written (snd kv) = true)
    props ->
  written o = true.
Proof.
  intros (own & -> & Hp) Hnd Hall. cbn [written].
  apply andb_true_iff. split.
  - apply bool_decide_eq_true. now rewrite (Permutation_map fst Hp).
  - apply forallb_forall. intros kv Hin.
    apply (Permutation_in _ Hp) in Hin.
    rewrite List.Forall_forall in Hall. destruct (Hall kv Hin) as [-> Hw].
    exact Hw.
Qed.

Lemma written_pairs (pairs : list ReplacementPair) :
  forallb written (List.map pair_object pairs) = true.
Proof.
  induction pairs as [|pair pairs IH]; [reflexivity |].
  cbn [List.map forallb]. rewrite IH. reflexivity.
Qed.

Lemma written_step (o : json) (step : PresetStep) :
  holds o (preset_step_props step) -> written o = true.
Proof.
  intros H. apply (written_holds o _ H).
  - apply PresetSteps.preset_step_props_keys.
  - destruct step as [en f]. unfold preset_step_props.
    cbn [preset_enabled preset_fields].
    destruct f as [c|p|j|b|r]; repeat constructor.
    cbn [snd written]. apply written_pairs.
Qed.

Lemma written_steps (objects : list json) (steps : list PresetStep) :
  Forall2 (fun o step => holds o (preset_step_props step)) objects steps ->
  forallb written objects = true.
Proof.
  induction 1 as [|o step objects steps Ho _ IH]; [reflexivity |].
  cbn [forallb]. now rewrite (written_step o step Ho), IH.
Qed.

Lemma written_data (o : json) (d : PresetData.t) :
  holds_data o d -> written o = true.
Proof.
  intros (objects & Hs & Ho). apply (written_holds o _ Ho).
  - apply PresetSteps.preset_data_props_keys.
  - unfold preset_data_props.
    destruct (PresetData.payloadDir d); repeat constructor;
      cbn [snd written]; apply (written_steps _ _ Hs).
Qed.

(** X23.  An exported preset file imports back to the preset it was
    written from: for the data object of a preset, the text
    [handleExportPreset] writes is read by [handleImportPreset] without
    an error, as the same data under the same name, trimmed. *)
Theorem exported_preset_imports_back (NumberToString : string -> string)
    (name : string) (o : json) (d : PresetData.t) :
  holds_data o d ->
  trim name <> EmptyString ->
  read_preset NumberToString (preset_file_text NumberToString name o)
  = inr {| Preset.name := trim name; Preset.data := d |}.
Proof.
  intros Ho Hname. unfold read_preset, preset_file_text.
  rewrite JSON_parse_stringify.
  - unfold name_of, data_or_empty. cbn [prop get String.eqb Ascii.eqb Bool.eqb].
    destruct (trim name) as [|c t] eqn:E; [contradiction |]. cbn [is_empty].
    destruct Ho as (objects & Hs & own & -> & Hp).
    rewrite (PresetSteps.normalize_own_data NumberToString (JObj own) d);
      [reflexivity |].
    exists objects. split; [exact Hs |]. exists own. now split.
  - cbn [written List.map fst snd forallb].
    rewrite (written_data o d Ho). reflexivity.
Qed.

Lemma exported_preset_imports_back_witness :
  read_preset literal_text (preset_file_text literal_text " Night shift " night_object)
  = inr {| Preset.name := trim " Night shift "; Preset.data := night_data |}.
Proof.
  apply (exported_preset_imports_back literal_text " Night shift "
           night_object night_data).
  - exists [JObj [("type", JStr "runCommand"); ("enabled", JBool false);
                  ("command", JStr "code"); ("args", JStr "-v")]].
    split.
    + constructor; [| constructor].
      eexists. split; [reflexivity |]. apply perm_swap.
    + eexists. split; [reflexivity |]. apply Permutation_refl.
  - vm_compute. discriminate.
Defined.

End JsonText.
